(** * AeolusDT: wind-farm telemetry simulator and medallion pipeline

    A shallow embedding of the Python package [wind_farm_twin] and the
    properties its specification states about it.

    Numbers.  The simulation (wind field, wake model, power curve, telemetry
    generator) computes with Python floats; it is embedded over the real
    numbers [R], the rounding of a sum, product or quotient left out.
    Where a float operation does more than round, the embedding follows
    the float: a division by zero raises [ZeroDivisionError]; [math.exp]
    raises [OverflowError] above the largest argument it has a float
    result for; [math.cos] and [math.sin] are an interface, since a test on
    the sign of a projection depends on the very values the C library
    returns (the cosine of ninety degrees is 6.1e-17, not zero); the
    remainder [x % 360.0] rounds up to 360.0 for a tiny negative [x]; a
    wind speed handed to the power curve may be not-a-number; a run of
    the generator raises [OverflowError] where its duration is no float
    or its time leaves the years of [datetime].  Squares that overflow or
    underflow are not followed; [WakeModel.moderate] names the magnitudes
    at which they do not occur.  The float columns of the pipeline
    (bronze, silver, gold) are embedded as exact rationals extended with
    the infinities and not-a-number, so that the stages evaluate.

    Effects.  A stage is a function of the world it runs in (the tiers of
    the data lake and the state files) and of what the table store does
    with its write; objects that own a random generator carry its state.

    Layout.  Part I holds the embedding, one module per Python class or
    module; Part II holds the properties the specification states; Part
    III holds further properties of the code. *)

From Stdlib Require Import Reals Lra Lia ZArith QArith Qround String Ascii.
From Stdlib Require Import OrdersEx RelationClasses Sorted.
From stdpp Require Import base gmap sets list strings.

(** * Part I: the embedding *)

(** ** Exceptions and results

    [ValueError], [KeyError], [FileNotFoundError], [ZeroDivisionError] and
    [OverflowError] are Python's; [ConversionError] stands for what pandas
    or arrow raise on a cell they cannot convert to the type of its
    column, [IntCastingNaNError] is pandas' refusal to cast a non-finite
    float to an integer, and [OSError] what a failing write raises. *)

Inductive error : Type :=
  | ValueError (msg : string)
  | KeyError (column : string)
  | ConversionError (column : string)
  | FileNotFoundError (path : string)
  | ZeroDivisionError
  | OverflowError
  | IntCastingNaNError
  | OSError.

Inductive result (A : Type) : Type :=
  | Ok (a : A)
  | Err (e : error).
Arguments Ok {A} a.
Arguments Err {A} e.

Definition rbind {A B : Type} (r : result A) (k : A -> result B) : result B :=
  match r with
  | Ok a => k a
  | Err e => Err e
  end.

Declare Scope result_scope.
Delimit Scope result_scope with result.
Notation "'do' x <- r ; k" := (rbind r (fun x => k))
  (at level 10, x name, r at level 100, k at level 200) : result_scope.

(** ** models/farm_layout.py *)

Module FarmLayout.

Record Turbine : Type := {
  turbine_id : string;
  x_m : R;
  y_m : R;
  rated_power_kw : R
}.

Record WindFarm : Type := {
  farm_id : string;
  turbines : list Turbine
}.

(** A turbine of the default rated power, as [make_grid_farm] places
    them. *)
Definition turbine_at (id : string) (x y : R) : Turbine :=
  {| turbine_id := id; x_m := x; y_m := y; rated_power_kw := 2000 |}.

(** The decimal digits of [n], most significant first, in front of
    [acc]; [fuel] bounds the number of digits. *)
Fixpoint digits (fuel n : nat) (acc : string) : string :=
  match fuel with
  | O => acc
  | S fuel' =>
      let acc' := String (ascii_of_nat (48 + n mod 10)) acc in
      if Nat.eqb (n / 10) 0 then acc' else digits fuel' (n / 10) acc'
  end.

Definition decimal (n : nat) : string := digits (S n) n "".

Fixpoint zeros (n : nat) : string :=
  match n with
  | O => ""
  | S n' => String "0" (zeros n')
  end.

(** Python's [f"{k:03d}"] on a counter: the decimal digits, padded with
    zeros on the left to three characters. *)
Definition format_03d (k : nat) : string :=
  let d := decimal k in
  (zeros (3 - String.length d) ++ d)%string.

(** The number a string of decimal digits denotes, read from the left
    with [a] read so far. *)
Fixpoint read_decimal (a : nat) (s : string) : nat :=
  match s with
  | EmptyString => a
  | String c rest => read_decimal (a * 10 + (nat_of_ascii c - 48)) rest
  end.

(** Python's [range(n)] on an [int]: empty when [n] is not positive. *)
Definition range (n : Z) : list Z := List.map Z.of_nat (seq 0 (Z.to_nat n)).

(** The body of the inner loop of [make_grid_farm] on the counter [k]
    and the list [turbines]. *)
Definition grid_step (spacing_m rated_power_kw : R) (r c : Z)
    (st : nat * list Turbine) : nat * list Turbine :=
  let k := S st.1 in
  (k,
   st.2 ++ [ {| turbine_id := ("T" ++ format_03d k)%string;
                x_m := (IZR c * spacing_m)%R;
                y_m := (IZR r * spacing_m)%R;
                rated_power_kw := rated_power_kw |} ]).

Definition make_grid_farm (farm_id : string) (n_rows n_cols : Z)
    (spacing_m rated_power_kw : R) : WindFarm :=
  let st :=
    fold_left
      (fun st r =>
         fold_left (fun st c => grid_step spacing_m rated_power_kw r c st)
           (range n_cols) st)
      (range n_rows) (O, []) in
  {| farm_id := farm_id; turbines := st.2 |}.

(** The turbine [make_grid_farm] appends at its [i]-th step, counted
    from zero, on a grid of [n_cols] columns. *)
Definition grid_turbine (n_cols : nat) (spacing_m rated_power_kw : R)
    (i : nat) : Turbine :=
  {| turbine_id := ("T" ++ format_03d (S i))%string;
     x_m := (IZR (Z.of_nat (i mod n_cols)) * spacing_m)%R;
     y_m := (IZR (Z.of_nat (i / n_cols)) * spacing_m)%R;
     rated_power_kw := rated_power_kw |}.

End FarmLayout.

(** ** models/turbine_powercurve.py *)

Inductive Status : Type := RUNNING | STOPPED | CUT_OUT.

Definition Status_eqb (a b : Status) : bool :=
  match a, b with
  | RUNNING, RUNNING | STOPPED, STOPPED | CUT_OUT, CUT_OUT => true
  | _, _ => false
  end.

Module PowerCurve.
Local Open Scope R_scope.

Record t : Type := {
  cut_in_mps : R;
  rated_mps : R;
  cut_out_mps : R
}.

(** [PowerCurve()] with the dataclass defaults. *)
Definition default : t :=
  {| cut_in_mps := 3; rated_mps := 12; cut_out_mps := 25 |}.

(** [power_kw]: the three tests are made in the order of the source.  The
    division of the ramp is reached only when [cut_in <= v < rated], where
    its denominator is positive, so it cannot raise. *)
Definition power_kw (self : t) (wind_speed_mps rated_power_kw : R)
  : R * Status :=
  let v := wind_speed_mps in
  if Rge_dec v (cut_out_mps self) then (0, CUT_OUT)
  else if Rlt_dec v (cut_in_mps self) then (0, STOPPED)
  else if Rlt_dec v (rated_mps self) then
    let x := (v - cut_in_mps self) / (rated_mps self - cut_in_mps self) in
    (rated_power_kw * x ^ 3, RUNNING)
  else (rated_power_kw, RUNNING).

(** The wind speed as a caller may pass it: a number, or [float("nan")].
    On not-a-number each of the three tests of [power_kw] is false, so the
    last [return] is reached.  The generator never passes it: the speeds
    it computes come out of [max(0.0, ...)]. *)
Inductive wind_speed : Type :=
  | NotANumber
  | Number (v : R).

Definition power_kw_float (self : t) (wind_speed_mps : wind_speed)
    (rated_power_kw : R) : R * Status :=
  match wind_speed_mps with
  | Number v => power_kw self v rated_power_kw
  | NotANumber => (rated_power_kw, RUNNING)
  end.

End PowerCurve.

(** ** Python's math module

    [math.cos] and [math.sin] are the C library's: close to the cosine
    and the sine, not equal to them ([math.cos(math.radians(90))] is
    6.1e-17), and the wake model branches on the sign of a projection
    computed from them.  They are an interface, and every result below
    holds for any implementation of it.  [math.exp] is the exponential
    where it has a float result and raises [OverflowError] above the
    largest argument that has one, 709.782712893384. *)

Class PythonMath : Type := {
  math_cos : R -> R;
  math_sin : R -> R
}.

Definition math_radians (x : R) : R := (x * (PI / 180))%R.

Definition exp_max_arg : R := (709782712893384 / 1000000000000)%R.

Definition math_exp (x : R) : result R :=
  if Rlt_dec exp_max_arg x then Err OverflowError else Ok (exp x).

(** ** models/wake_model.py *)

Module WakeModel.
Import FarmLayout.
Local Open Scope R_scope.
Local Open Scope result_scope.

(** Python's [a / b] on floats raises when [b] is zero. *)
Definition fdiv (a b : R) : result R :=
  if Req_dec_T b 0 then Err ZeroDivisionError else Ok (a / b).

Record t : Type := {
  wake_strength : R;
  decay_length_m : R;
  crosswind_sigma_m : R
}.

Definition default : t :=
  {| wake_strength := 15 / 100;
     decay_length_m := 800;
     crosswind_sigma_m := 200 |}.

(** One iteration of the [for src in turbines] loop on the running
    [total_factor]; the two [continue] statements leave it unchanged.
    The cross factor is computed before the distance factor, so a zero
    crosswind width raises before the decay length is looked at. *)
Definition loop_body (self : t) (ux uy : R) (target : Turbine)
    (total_factor : R) (src : Turbine) : result R :=
  if String.eqb (turbine_id src) (turbine_id target) then Ok total_factor
  else
    let dx := x_m target - x_m src in
    let dy := y_m target - y_m src in
    let downwind := dx * ux + dy * uy in
    let crosswind := Rabs (- dx * uy + dy * ux) in
    if Rle_dec downwind 0 then Ok total_factor
    else
      do e1 <- fdiv (- (crosswind ^ 2)) (2 * (crosswind_sigma_m self ^ 2));
      do cross_factor <- math_exp e1;
      do e2 <- fdiv (- downwind) (decay_length_m self);
      do dist_factor <- math_exp e2;
      let loss := wake_strength self * cross_factor * dist_factor in
      Ok (total_factor * (1 - loss)).

Fixpoint loop (self : t) (ux uy : R) (target : Turbine)
    (total_factor : R) (turbines : list Turbine) : result R :=
  match turbines with
  | [] => Ok total_factor
  | src :: rest =>
      do f <- loop_body self ux uy target total_factor src;
      loop self ux uy target f rest
  end.

Section WithMath.
Context `{PythonMath}.

(** [math.radians] followed by [math.cos], [math.sin]. *)
Definition _unit_vector_from_direction_deg (direction_deg : R) : R * R :=
  let theta := math_radians direction_deg in
  (math_cos theta, math_sin theta).

Definition effective_speed (self : t) (free_speed_mps wind_dir_deg : R)
    (target : Turbine) (turbines : list Turbine) : result R :=
  let '(ux, uy) := _unit_vector_from_direction_deg wind_dir_deg in
  let v := free_speed_mps in
  do total_factor <- loop self ux uy target 1 turbines;
  Ok (Rmax 0 (v * total_factor)).

End WithMath.

(** *** Magnitudes the floats of the loop can hold

    The loop squares the crosswind offset and the crosswind width.  A
    float square beyond the largest float raises [OverflowError], and a
    width whose square is below the smallest float divides by zero as a
    zero width does.  With coordinates and width of magnitude at most
    10^150, and a width of magnitude at least 10^-150, the squares and
    products of the loop stay between the two.  The loop itself is
    embedded over the reals, without these two exceptions: a property
    that is to hold of the floats at every magnitude carries the bounds
    as hypotheses. *)




(** *** The reference formula of the specification

    Written from the sentences of the specification, to be compared with
    [effective_speed]: the relative position of the target seen from a
    source is decomposed by projection onto the direction vector, the
    downwind distance its dot product with that vector, the crosswind
    offset the absolute value of its component along the perpendicular;
    a source contributes when its downwind distance is strictly
    positive; the losses combine as a product of retained fractions. *)

Definition relative_position (target src : Turbine) : R * R :=
  (x_m target - x_m src, y_m target - y_m src).

Definition dot_product (a b : R * R) : R := a.1 * b.1 + a.2 * b.2.

(** The direction vector turned by a quarter. *)
Definition perpendicular (u : R * R) : R * R := (- u.2, u.1).

Definition downwind_distance (ux uy : R) (target src : Turbine) : R :=
  dot_product (relative_position target src) (ux, uy).

Definition crosswind_offset (ux uy : R) (target src : Turbine) : R :=
  Rabs (dot_product (relative_position target src) (perpendicular (ux, uy))).

Definition contributes (ux uy : R) (target src : Turbine) : bool :=
  negb (String.eqb (turbine_id src) (turbine_id target))
  && (if Rlt_dec 0 (downwind_distance ux uy target src) then true else false).

Definition loss_ref (self : t) (ux uy : R) (target src : Turbine) : R :=
  wake_strength self
  * exp (- (crosswind_offset ux uy target src ^ 2)
         / (2 * (crosswind_sigma_m self ^ 2)))
  * exp (- downwind_distance ux uy target src / decay_length_m self).

(** The factor one source applies to the retained fraction. *)
Definition factor_ref (self : t) (ux uy : R) (target src : Turbine) : R :=
  if contributes ux uy target src
  then 1 - loss_ref self ux uy target src else 1.

Definition retained_ref (self : t) (ux uy : R) (target : Turbine)
    (turbines : list Turbine) : R :=
  foldr (fun src acc => (1 - loss_ref self ux uy target src) * acc) 1
    (List.filter (contributes ux uy target) turbines).

(** The formula on the direction vector of a wind direction in degrees:
    the cosine and the sine of its angle, as [math] returns them. *)
Definition effective_speed_ref `{PythonMath} (self : t)
    (free_speed_mps wind_dir_deg : R)
    (target : Turbine) (turbines : list Turbine) : R :=
  let ux := math_cos (wind_dir_deg * (PI / 180)) in
  let uy := math_sin (wind_dir_deg * (PI / 180)) in
  Rmax 0 (free_speed_mps * retained_ref self ux uy target turbines).

End WakeModel.

(** ** numpy.random.Generator

    The generator is an external collaborator: its state and the draws the
    package uses are an interface, and every result below holds for any
    implementation of it.  [normal g loc scale] is a draw for [0 <= scale]
    (numpy raises [ValueError] on a negative scale, which the callers below
    make explicit); [random] draws from [[0, 1)]; [choice g n k] draws [k]
    labels out of [0 .. n-1] without replacement. *)

Class NumpyGenerator : Type := {
  Generator : Type;
  default_rng : Z -> Generator;
  normal : Generator -> R -> R -> R * Generator;
  random : Generator -> R * Generator;
  choice : Generator -> nat -> nat -> list nat * Generator
}.

(** ** models/wind_field.py *)

Module WindField.
Local Open Scope R_scope.

Record config : Type := {
  base_speed_mps : R;
  daily_variation_mps : R;
  spatial_variation_mps : R;
  noise_std_mps : R;
  base_dir_deg : R;
  dir_noise_std_deg : R;
  seed : Z
}.

(** [WindField()] with the dataclass defaults. *)
Definition default : config :=
  {| base_speed_mps := 8;
     daily_variation_mps := 4;
     spatial_variation_mps := 8 / 10;
     noise_std_mps := 16 / 10;
     base_dir_deg := 220;
     dir_noise_std_deg := 8;
     seed := 42 |}.

(** Python's [x % 360.0] on floats: the remainder has the sign of the
    divisor.  For a negative [x] it is 360 plus a negative remainder,
    rounded to the nearest float, and that is 360.0 itself when the
    remainder is within half a unit in the last place of 360, that is
    2^-45, of zero: [-1e-20 % 360.0] is [360.0].  For [x] that is not
    negative the float remainder is exact. *)
Definition fmod360 (d : R) : R :=
  let m := d - 360 * IZR (Int_part (d / 360)) in
  if Rlt_dec d 0 then
    if Rle_dec (360 - / (2 ^ 45)) m then 360 else m
  else m.

Section WithGenerator.
Context `{NumpyGenerator}.

(** The object after [__post_init__]: the dataclass fields and the
    generator it owns. *)
Record t : Type := {
  cfg : config;
  rng : Generator
}.

Definition __post_init__ (c : config) : t :=
  {| cfg := c; rng := default_rng (seed c) |}.

(** [self.rng.normal(0.0, scale)]. *)
Definition draw_normal (g : Generator) (scale : R)
  : result R * Generator :=
  if Rlt_dec scale 0 then (Err (ValueError "scale < 0"), g)
  else let '(x, g') := normal g 0 scale in (Ok x, g').

(** [get_wind_at_turbine]: returns the outcome and the object with its
    generator advanced by the draws that were made. *)
Definition get_wind_at_turbine (self : t) (t_seconds x_m y_m : R)
  : result (R * R) * t :=
  let c := cfg self in
  let daily_cycle := sin (2 * PI * (t_seconds / 3600) / 24) in
  let base := base_speed_mps c + daily_variation_mps c * daily_cycle in
  let spacial_bias :=
    spatial_variation_mps c * (5 / 10000 * x_m - 3 / 10000 * y_m) in
  match draw_normal (rng self) (noise_std_mps c) with
  | (Err e, g1) => (Err e, {| cfg := c; rng := g1 |})
  | (Ok n1, g1) =>
      let speed := base + spacial_bias + n1 in
      let speed := Rmax 0 speed in
      match draw_normal g1 (dir_noise_std_deg c) with
      | (Err e, g2) => (Err e, {| cfg := c; rng := g2 |})
      | (Ok n2, g2) =>
          let direction := base_dir_deg c + n2 in
          let direction := fmod360 direction in
          (Ok (speed, direction), {| cfg := c; rng := g2 |})
      end
  end.

(** The outcomes of a sequence of calls on one object, in call
    order. *)
Fixpoint run_calls (self : t) (calls : list (R * R * R))
  : list (result (R * R)) :=
  match calls with
  | [] => []
  | (ts, x, y) :: rest =>
      let '(out, self') := get_wind_at_turbine self ts x y in
      out :: run_calls self' rest
  end.

(** *** Objects on a heap

    Two [WindField] objects are two allocations: each owns the
    generator made by its own [__post_init__].  The heap maps an
    object's address to its state; a call mutates the state at the
    address it is made on. *)

Abbreviation heap := (gmap positive t).

Definition new (c : config) (h : heap) : positive * heap :=
  let a := fresh (dom h) in
  (a, <[a := __post_init__ c]> h).

(** A call on the object at address [a]; an unallocated address is an
    [AttributeError] in Python, here no result and no change. *)
Definition call (a : positive) (t_seconds x_m y_m : R) (h : heap)
  : option (result (R * R)) * heap :=
  match h !! a with
  | None => (None, h)
  | Some self =>
      let '(out, self') := get_wind_at_turbine self t_seconds x_m y_m in
      (Some out, <[a := self']> h)
  end.

(** A schedule is a sequence of calls, each on some address; running
    it yields the outcomes in call order, tagged with the address. *)
Definition request : Type := positive * (R * R * R).

Fixpoint run_schedule (s : list request) (h : heap)
  : list (positive * option (result (R * R))) * heap :=
  match s with
  | [] => ([], h)
  | (a, (ts, x, y)) :: rest =>
      let '(out, h1) := call a ts x y h in
      let '(outs, h2) := run_schedule rest h1 in
      ((a, out) :: outs, h2)
  end.

(** The calls made on, and the outcomes observed at, one address. *)
Definition calls_on (a : positive) (s : list request) : list (R * R * R) :=
  List.map snd (List.filter (fun q => Pos.eqb (fst q) a) s).

Definition outcomes_on (a : positive)
    (o : list (positive * option (result (R * R))))
  : list (option (result (R * R))) :=
  List.map snd (List.filter (fun q => Pos.eqb (fst q) a) o).

End WithGenerator.
End WindField.

(** ** sim/telemetry_generator.py *)

Module TelemetryGenerator.
Import FarmLayout.
Local Open Scope R_scope.
Local Open Scope result_scope.

(** A float measurement that may have been replaced by [float("nan")]. *)
Inductive reading : Type :=
  | NaN
  | Value (x : R).

(** The dict appended to [rows] for one (step, turbine); time stamps are
    microseconds since the epoch, UTC. *)
Record row : Type := {
  event_time : Z;
  farm_id : string;
  turbine_id : string;
  wind_speed_free_mps : R;
  wind_speed_mps : reading;
  wind_dir_deg : R;
  power_kw : R;
  rotor_speed_rpm : R;
  yaw_deg : R;
  status : Status;
  sim_run_id : string;
  ingest_time : Z;
  source : string
}.

(** Python's [int(x)] on a float: truncation toward zero. *)
Definition int_of_float (x : R) : Z :=
  if Rle_dec 0 x then Int_part x else (- Int_part (- x))%Z.

(** [datetime] holds the years 1 to 9999: in microseconds since the
    epoch, from 0001-01-01T00:00:00 to 9999-12-31T23:59:59.999999.  Adding
    a [timedelta] that leaves this range raises [OverflowError]. *)
Definition datetime_min : Z := (-62135596800000000)%Z.
Definition datetime_max : Z := 253402300799999999%Z.

Definition in_datetime_range (t : Z) : bool :=
  Z.leb datetime_min t && Z.leb t datetime_max.

(** A product of floats is an infinity, and an int has no float, from
    2^1024 on; [int] of an infinity and the conversion of such an int
    raise [OverflowError]. *)
Definition float_overflows (x : R) : bool :=
  if Rle_dec (2 ^ 1024) (Rabs x) then true else false.

(** The three [if] statements under [if inject_issues:], in source order,
    on the local variables [wind_speed] and [power_kw] and the one draw
    [r]. *)
Definition inject (r : R) (wind_speed : reading) (power_kw : R)
  : reading * R :=
  let wind_speed :=
    if Rlt_dec r (2 / 1000) then NaN else wind_speed in
  let wind_speed :=
    if Rle_dec (2 / 1000) r then
      if Rlt_dec r (4 / 1000) then Value (-5) else wind_speed
    else wind_speed in
  let power_kw :=
    if Rle_dec (4 / 1000) r then
      if Rlt_dec r (55 / 10000) then 99999 else power_kw
    else power_kw in
  (wind_speed, power_kw).

(** *** The vocabulary of the frame property

    The three anomaly bands, the draws that fall in each, and what each
    does to a row. *)

Inductive band : Type := Missing | Negative | Spike.

Definition in_band (b : band) (r : R) : Prop :=
  match b with
  | Missing => r < 2 / 1000
  | Negative => 2 / 1000 <= r < 4 / 1000
  | Spike => 4 / 1000 <= r < 55 / 10000
  end.

Definition set_wind_speed_mps (x : reading) (r : row) : row :=
  {| event_time := event_time r; farm_id := farm_id r;
     turbine_id := turbine_id r;
     wind_speed_free_mps := wind_speed_free_mps r;
     wind_speed_mps := x;
     wind_dir_deg := wind_dir_deg r; power_kw := power_kw r;
     rotor_speed_rpm := rotor_speed_rpm r; yaw_deg := yaw_deg r;
     status := status r; sim_run_id := sim_run_id r;
     ingest_time := ingest_time r; source := source r |}.

Definition set_power_kw (p : R) (r : row) : row :=
  {| event_time := event_time r; farm_id := farm_id r;
     turbine_id := turbine_id r;
     wind_speed_free_mps := wind_speed_free_mps r;
     wind_speed_mps := wind_speed_mps r;
     wind_dir_deg := wind_dir_deg r; power_kw := p;
     rotor_speed_rpm := rotor_speed_rpm r; yaw_deg := yaw_deg r;
     status := status r; sim_run_id := sim_run_id r;
     ingest_time := ingest_time r; source := source r |}.

Definition corrupt (b : band) (clean : row) : row :=
  match b with
  | Missing => set_wind_speed_mps NaN clean
  | Negative => set_wind_speed_mps (Value (-5)) clean
  | Spike => set_power_kw 99999 clean
  end.

(** [dirty] is [clean] with the anomaly of the draw [r] applied: the one
    band [r] falls in changes its one field, and a draw in no band
    changes nothing. *)
Definition injected (r : R) (clean dirty : row) : Prop :=
  (forall b, in_band b r -> dirty = corrupt b clean)
  /\ ((forall b, ~ in_band b r) -> dirty = clean).

Section WithGenerator.
Context `{NumpyGenerator} `{PythonMath}.

(** The first [n] values of [self.rng.random()] from a generator, and
    the generator after them. *)
Fixpoint uniform_draws (g : Generator) (n : nat) : list R :=
  match n with
  | O => []
  | S n' => (random g).1 :: uniform_draws (random g).2 n'
  end.

Fixpoint advance (g : Generator) (n : nat) : Generator :=
  match n with
  | O => g
  | S n' => advance (random g).2 n'
  end.

(** [datetime.now(timezone.utc)]: the k-th reading of the wall clock. *)
Variable now : nat -> Z.

Record t : Type := {
  farm : WindFarm;
  power_curve : PowerCurve.t;
  wake_model : option WakeModel.t;
  self_sim_run_id : string;
  self_source : string;
  seed : Z
}.

(** What a call of [generate] mutates: the wind field object, the
    generator of [self], and the number of clock readings made. *)
Record state : Type := {
  wind_field : WindField.t;
  rng : Generator;
  clock : nat
}.

(** The body of the inner loop: one turbine at one time step. *)
Definition turbine_step (self : t) (inject_issues : bool)
    (t_us : Z) (t_seconds : R) (turb : Turbine) (st : state)
  : result (row * state) :=
  let '(w, wf) :=
    WindField.get_wind_at_turbine (wind_field st) t_seconds
      (x_m turb) (y_m turb) in
  do fw <- w;
  let '(free_speed, wind_dir) := fw in
  do wind_speed <-
    match wake_model self with
    | Some wm =>
        WakeModel.effective_speed wm free_speed wind_dir turb
          (turbines (farm self))
    | None => Ok free_speed
    end;
  let '(power_kw0, status0) :=
    PowerCurve.power_kw (power_curve self) wind_speed
      (rated_power_kw turb) in
  let rotor_rpm :=
    if Status_eqb status0 RUNNING
    then 6 + (Rmin wind_speed 12 - 3) * (12 / 9)
    else 0 in
  let yaw := wind_dir in
  let '(wind_speed1, power_kw1, g) :=
    if inject_issues then
      let '(r, g) := random (rng st) in
      let '(ws, p) := inject r (Value wind_speed) power_kw0 in
      (ws, p, g)
    else (Value wind_speed, power_kw0, rng st) in
  Ok ({| event_time := t_us;
         farm_id := FarmLayout.farm_id (farm self);
         turbine_id := FarmLayout.turbine_id turb;
         wind_speed_free_mps := free_speed;
         wind_speed_mps := wind_speed1;
         wind_dir_deg := wind_dir;
         power_kw := power_kw1;
         rotor_speed_rpm := rotor_rpm;
         yaw_deg := yaw;
         status := status0;
         sim_run_id := self_sim_run_id self;
         ingest_time := now (clock st);
         source := self_source self |},
      {| wind_field := wf; rng := g; clock := S (clock st) |}).

(** [for turb in self.farm.turbines]. *)
Fixpoint turbine_loop (self : t) (inject_issues : bool)
    (t_us : Z) (t_seconds : R) (turbs : list Turbine) (st : state)
  : result (list row * state) :=
  match turbs with
  | [] => Ok ([], st)
  | turb :: rest =>
      do a <- turbine_step self inject_issues t_us t_seconds turb st;
      do b <- turbine_loop self inject_issues t_us t_seconds rest a.2;
      Ok (a.1 :: b.1, b.2)
  end.

(** [for step in range(n_steps)], from [step] upward for [n] steps.  The
    time of a step is [start_time_utc + timedelta(...)], which raises when
    it leaves the range of [datetime]. *)
Fixpoint step_loop (self : t) (inject_issues : bool)
    (start_time_utc dt_seconds : Z) (step : Z) (n : nat) (st : state)
  : result (list row * state) :=
  match n with
  | O => Ok ([], st)
  | S n' =>
      let t_us := (start_time_utc + step * dt_seconds * 1000000)%Z in
      if in_datetime_range t_us then
        let t_seconds := IZR (step * dt_seconds) in
        do a <- turbine_loop self inject_issues t_us t_seconds
                  (turbines (farm self)) st;
        do b <- step_loop self inject_issues start_time_utc dt_seconds
                  (step + 1) n' a.2;
        Ok (a.1 ++ b.1, b.2)
      else Err OverflowError
  end.

(** The duplicates appended after the loops: [dup_count] labels drawn
    without replacement, the rows at those labels copied to the end. *)
Definition append_duplicates (rows : list row) (g : Generator)
  : list row * Generator :=
  let n := length rows in
  let dup_count := Nat.max 1 (2 * n / 1000) in
  let '(dup_idx, g') := choice g n dup_count in
  (rows ++ omap (fun i => rows !! i) dup_idx, g').

Definition generate (self : t) (start_time_utc : Z) (duration_hours : R)
    (dt_seconds : Z) (inject_issues : bool) (st : state)
  : result (list row * state) :=
  if Z.eqb dt_seconds 0 then Err ZeroDivisionError
  else if float_overflows (duration_hours * 3600)
          || float_overflows (IZR dt_seconds)
  then Err OverflowError
  else
    let n_steps :=
      int_of_float (duration_hours * 3600 / IZR dt_seconds) in
    do a <- step_loop self inject_issues start_time_utc dt_seconds 0
              (Z.to_nat n_steps) st;
    let '(rows, st1) := a in
    if inject_issues && negb (Nat.eqb (length rows) 0) then
      let '(rows', g) := append_duplicates rows (rng st1) in
      Ok (rows', {| wind_field := wind_field st1; rng := g;
                    clock := clock st1 |})
    else Ok (rows, st1).

(** Two states of [generate] that differ at most in the generator of
    [self]. *)
Definition agree (s0 s1 : state) : Prop :=
  wind_field s0 = wind_field s1 /\ clock s0 = clock s1.

(** The outcomes of a clean and an injecting run of one piece of
    [generate], from the generator [g] of the injecting run. *)
Definition framed (g0 g : Generator)
    (clean dirty : result (list row * state)) : Prop :=
  match clean, dirty with
  | Ok (cs, s0), Ok (ds, s1) =>
      agree s0 s1
      /\ rng s0 = g0
      /\ rng s1 = advance g (length cs)
      /\ Forall3 injected (uniform_draws g (length cs)) cs ds
  | Err e0, Err e1 => e0 = e1
  | _, _ => False
  end.

End WithGenerator.
End TelemetryGenerator.

(** A math library to run examples with: the cosine and the sine
    themselves. *)
Definition exact_math : PythonMath :=
  {| math_cos := cos; math_sin := sin |}.

(** A generator to run examples with: a counter, every draw a fixed
    function of it. *)
Definition counter_generator : NumpyGenerator :=
  {| Generator := Z;
     default_rng := fun seed => seed;
     normal := fun g loc scale => ((loc + scale * IZR g)%R, (g + 1)%Z);
     random := fun g => ((IZR (g mod 1000) / 1000)%R, (g + 1)%Z);
     choice := fun g n k => (seq 0 (Nat.min n k), (g + 1)%Z) |}.

(** ** Column values of the pipeline

    The float columns of the persisted tables hold IEEE values: a number,
    an infinity or not-a-number.  The numbers are embedded as exact
    rationals, so that comparisons are the ones the code makes and every
    definition of the pipeline evaluates; rounding is outside the model and
    zero is unsigned. *)

Module Float.

Inductive t : Type :=
  | NaN
  | PInf
  | NInf
  | Fin (q : Q).

(** pandas [Series.isna]. *)
Definition isna (x : t) : bool :=
  match x with NaN => true | _ => false end.

(** [a < b]; false as soon as one side is not-a-number. *)
Definition ltb (a b : t) : bool :=
  match a, b with
  | NaN, _ | _, NaN => false
  | _, NInf => false
  | NInf, _ => true
  | PInf, _ => false
  | Fin _, PInf => true
  | Fin x, Fin y => negb (Qle_bool y x)
  end.

(** [a > b]. *)
Definition gtb (a b : t) : bool := ltb b a.

Definition sign (q : Q) : comparison := (q ?= 0)%Q.

Definition neg (a : t) : t :=
  match a with
  | NaN => NaN
  | PInf => NInf
  | NInf => PInf
  | Fin q => Fin (Qred (- q))
  end.

Definition add (a b : t) : t :=
  match a, b with
  | NaN, _ | _, NaN => NaN
  | PInf, NInf | NInf, PInf => NaN
  | PInf, _ | _, PInf => PInf
  | NInf, _ | _, NInf => NInf
  | Fin x, Fin y => Fin (Qred (x + y))
  end.

Definition sub (a b : t) : t := add a (neg b).

(** An infinity scaled by a finite factor. *)
Definition scale_inf (positive : bool) (q : Q) : t :=
  match sign q with
  | Eq => NaN
  | Gt => if positive then PInf else NInf
  | Lt => if positive then NInf else PInf
  end.

Definition mul (a b : t) : t :=
  match a, b with
  | NaN, _ | _, NaN => NaN
  | PInf, PInf | NInf, NInf => PInf
  | PInf, NInf | NInf, PInf => NInf
  | PInf, Fin q | Fin q, PInf => scale_inf true q
  | NInf, Fin q | Fin q, NInf => scale_inf false q
  | Fin x, Fin y => Fin (Qred (x * y))
  end.

(** numpy division: a zero divisor yields an infinity or not-a-number,
    never an exception. *)
Definition div (a b : t) : t :=
  match a, b with
  | NaN, _ | _, NaN => NaN
  | (PInf | NInf), (PInf | NInf) => NaN
  | Fin _, (PInf | NInf) => Fin 0
  | PInf, Fin q =>
      match sign q with Lt => NInf | _ => PInf end
  | NInf, Fin q =>
      match sign q with Lt => PInf | _ => NInf end
  | Fin x, Fin y =>
      match sign y with
      | Eq => match sign x with Eq => NaN | Gt => PInf | Lt => NInf end
      | _ => Fin (Qred (x / y))
      end
  end.

Definition of_nat (n : nat) : t := Fin (inject_Z (Z.of_nat n)).

(** pandas [sum] and [mean] of a float column: missing values are
    skipped; the sum of nothing is zero, the mean of nothing is missing. *)
Definition valid (l : list t) : list t :=
  List.filter (fun x => negb (isna x)) l.

Definition sum (l : list t) : t := fold_left add (valid l) (Fin 0).

Definition mean (l : list t) : t :=
  match valid l with
  | [] => NaN
  | v => div (fold_left add v (Fin 0)) (of_nat (length v))
  end.

End Float.

(** ** Time stamps and their renderings

    A persisted time stamp is a count of milliseconds since the epoch, UTC
    (arrow [timestamp("ms", tz="UTC")]). *)

Module Timestamp.
Local Open Scope Z_scope.

Definition ms_per_hour : Z := 3600000.
Definition ms_per_day : Z := 86400000.

(** [dt.floor("h")]. *)
Definition floor_hour (ms : Z) : Z := ms / ms_per_hour * ms_per_hour.

(** The proleptic Gregorian date of a day number counted from
    1970-01-01. *)
Definition civil_from_days (z0 : Z) : Z * Z * Z :=
  let z := z0 + 719468 in
  let era := z / 146097 in
  let doe := z - era * 146097 in
  let yoe := (doe - doe / 1460 + doe / 36524 - doe / 146096) / 365 in
  let y := yoe + era * 400 in
  let doy := doe - (365 * yoe + yoe / 4 - yoe / 100) in
  let mp := (5 * doy + 2) / 153 in
  let d := doy - (153 * mp + 2) / 5 + 1 in
  let m := if mp <? 10 then mp + 3 else mp - 9 in
  (if m <=? 2 then y + 1 else y, m, d).

Definition digit (n : Z) : ascii :=
  ascii_of_nat (48 + Z.to_nat (n mod 10)).

(** [n] in decimal on [width] digits, zero padded (the low digits when
    [n] is larger). *)
Fixpoint pad (width : nat) (n : Z) (acc : string) : string :=
  match width with
  | O => acc
  | S w => pad w (n / 10) (String (digit n) acc)
  end.

(** [strftime("%Y-%m-%d")]. *)
Definition strftime_date (ms : Z) : string :=
  let '(y, m, d) := civil_from_days (ms / ms_per_day) in
  (pad 4 y "" ++ "-" ++ pad 2 m "" ++ "-" ++ pad 2 d "")%string.

(** [strftime("%Y-%m-%dT%H:00:00Z")]. *)
Definition strftime_hour (ms : Z) : string :=
  let h := ms mod ms_per_day / ms_per_hour in
  (strftime_date ms ++ "T" ++ pad 2 h "" ++ ":00:00Z")%string.

(** The hour-bucket key of an event time:
    [dt.floor("h").dt.strftime("%Y-%m-%dT%H:00:00Z")]. *)
Definition hour_key (ms : Z) : string := strftime_hour (floor_hour ms).

End Timestamp.

(** ** io/schemas.py and io/silver_schema.py *)

Module Schema.

Inductive dtype : Type := Timestamp | Utf8 | Float32 | Boolean.

Definition telemetry_arrow_schema : list (string * dtype) :=
  [ ("event_time", Timestamp); ("farm_id", Utf8); ("turbine_id", Utf8);
    ("wind_speed_free_mps", Float32); ("wind_speed_mps", Float32);
    ("wind_dir_deg", Float32);
    ("power_kw", Float32); ("rotor_speed_rpm", Float32);
    ("yaw_deg", Float32);
    ("status", Utf8); ("sim_run_id", Utf8);
    ("ingest_time", Timestamp); ("source", Utf8) ]%string.

Definition silver_arrow_schema : list (string * dtype) :=
  telemetry_arrow_schema ++
  [ ("is_duplicate", Boolean); ("has_range_violation", Boolean);
    ("range_violation_fields", Utf8) ]%string.

(** A row typed by [telemetry_arrow_schema]. *)
Record Telemetry : Type := {
  event_time : Z;
  farm_id : string;
  turbine_id : string;
  wind_speed_free_mps : Float.t;
  wind_speed_mps : Float.t;
  wind_dir_deg : Float.t;
  power_kw : Float.t;
  rotor_speed_rpm : Float.t;
  yaw_deg : Float.t;
  status : string;
  sim_run_id : string;
  ingest_time : Z;
  source : string
}.

(** A row typed by [silver_arrow_schema]. *)
Record Curated : Type := {
  base : Telemetry;
  is_duplicate : bool;
  has_range_violation : bool;
  range_violation_fields : string
}.

(** [TelemetryConstraints]: a (low, high) pair per checked field. *)
Record TelemetryConstraints : Type := {
  wind_speed_range : Float.t * Float.t;
  wind_dir_range : Float.t * Float.t;
  rotor_rpm_range : Float.t * Float.t;
  yaw_deg_range : Float.t * Float.t;
  power_kw_range : Float.t * Float.t
}.

Definition default_constraints : TelemetryConstraints :=
  {| wind_speed_range := (Float.Fin 0, Float.Fin 60);
     wind_dir_range := (Float.Fin 0, Float.Fin 360);
     rotor_rpm_range := (Float.Fin 0, Float.Fin 30);
     yaw_deg_range := (Float.Fin 0, Float.Fin 360);
     power_kw_range := (Float.Fin 0, Float.Fin 10000) |}.

(** The incremental key of a row:
    [sim_run_id + "|" + farm_id + "|" + hour_key]. *)
Definition make_process_key (run farm : string) (hour_ms : Z) : string :=
  (run ++ "|" ++ farm ++ "|" ++ Timestamp.hour_key hour_ms)%string.

Definition process_key (r : Telemetry) : string :=
  make_process_key (sim_run_id r) (farm_id r) (event_time r).

End Schema.

(** ** The persisted table store

    An external collaborator, kept to what the stages rely on: a dataset
    is a list of files, each a path and the rows written to it; reading a
    dataset returns the rows of all its files; [write_to_dataset] splits
    the table by partition directory and writes one file per directory
    under the given base name, replacing a file of the same path
    ([existing_data_behavior="overwrite_or_ignore"]).  A write may also
    raise, leaving behind whatever it had written so far.

    Two things a read of the real store does are left out.  It lists the
    files in path order, where [read] keeps the order of writing; the
    properties that read a tier are stated up to that order, or on the
    frame a stage has already sorted.  And it takes the partition columns
    from the directory names and infers their type, so that a run
    identifier made of digits comes back as a number; here a row keeps
    the partition columns it was written with. *)

Module Store.

Definition dataset (A : Type) : Type := list (string * list A).

Definition read {A} (ds : dataset A) : list A := concat (List.map snd ds).

Fixpoint put_file {A} (path : string) (rows : list A) (ds : dataset A)
  : dataset A :=
  match ds with
  | [] => [(path, rows)]
  | (p, old) :: rest =>
      if String.eqb p path then (p, rows) :: rest
      else (p, old) :: put_file path rows rest
  end.

(** The rows of each partition directory, directories in order of first
    appearance, rows in table order. *)
Fixpoint group_add {A} (dir : string) (a : A) (gs : list (string * list A))
  : list (string * list A) :=
  match gs with
  | [] => [(dir, [a])]
  | (d, l) :: rest =>
      if String.eqb d dir then (d, l ++ [a]) :: rest
      else (d, l) :: group_add dir a rest
  end.

Definition partitions {A} (dir_of : A -> string) (table : list A)
  : list (string * list A) :=
  fold_left (fun gs a => group_add (dir_of a) a gs) table [].

Definition put_table {A} (root : string) (dir_of : A -> string)
    (basename : string) (table : list A) (ds : dataset A) : dataset A :=
  fold_left
    (fun ds g => put_file (root ++ "/" ++ g.1 ++ "/" ++ basename)%string
                   g.2 ds)
    (partitions dir_of table) ds.

(** What the store does with one write request. *)
Inductive outcome (A : Type) : Type :=
  | Completes
  | Raises (left_behind : dataset A).
Arguments Completes {A}.
Arguments Raises {A} left_behind.

Definition write_to_dataset {A} (o : outcome A) (root : string)
    (dir_of : A -> string) (basename : string) (table : list A)
    (ds : dataset A) : result unit * dataset A :=
  match o with
  | Completes => (Ok tt, put_table root dir_of basename table ds)
  | Raises left_behind => (Err OSError, left_behind)
  end.

(** [Path.mkdir(parents=True, exist_ok=True)]. *)
Definition mkdir {A} (d : option (dataset A)) : dataset A :=
  match d with
  | Some ds => ds
  | None => []
  end.

(** The rows of the file at [path], if the dataset has one. *)
Fixpoint file {A} (path : string) (ds : dataset A) : option (list A) :=
  match ds with
  | [] => None
  | (p, rows) :: rest =>
      if String.eqb p path then Some rows else file path rest
  end.

End Store.

(** ** io/state.py *)

Module StateStore.

(** The JSON files under [base_path]: store name to its ["items"]. *)
Abbreviation files := (gmap string (list string)).

Fixpoint insert_sorted (s : string) (l : list string) : list string :=
  match l with
  | [] => [s]
  | x :: rest =>
      if String.leb s x then s :: l else x :: insert_sorted s rest
  end.

(** Python's [sorted] on a set of strings. *)
Definition sorted (items : gset string) : list string :=
  foldr insert_sorted [] (elements items).

Definition load_set (name : string) (fs : files) : gset string :=
  match fs !! name with
  | None => ∅
  | Some items => list_to_set items
  end.

Definition save_set (name : string) (items : gset string) (fs : files)
  : files :=
  <[name := sorted items]> fs.

End StateStore.

(** ** The rows of the two rollups (pipelines/gold_job.py) *)

Module HourlyEnergy.

(** A row of [agg] in [run_hourly_energy], with every column the table
    is written with. *)
Record t : Type := {
  sim_run_id : string;
  farm_id : string;
  turbine_id : string;
  hour : Z;
  wind_speed_mps_avg : Float.t;
  power_kw_avg : Float.t;
  energy_kwh : Float.t;
  downtime_minutes : Float.t;
  bad_rows : nat;
  rows : nat;
  date : string;
  hour_key : string;
  process_key : string
}.

End HourlyEnergy.

Module FarmKpi.

(** A row of [agg] in [run_farm_kpis]. *)
Record t : Type := {
  sim_run_id : string;
  farm_id : string;
  hour : Z;
  farm_power_kw_avg : Float.t;
  farm_energy_kwh : Float.t;
  running_rows : nat;
  total_rows : nat;
  bad_rows : nat;
  avg_free_wind : Float.t;
  avg_effective_wind : Float.t;
  date : string;
  availability : Float.t;
  avg_wake_loss_mps : Float.t;
  bad_row_rate : Float.t;
  n_turbines_est : Z;
  capacity_factor : Float.t;
  hour_key : string;
  process_key : string
}.

End FarmKpi.

(** ** The world the stages run in

    The tiers of the data lake ([None]: the directory does not exist), the
    state files, and the journal of the writes the table store has
    completed: for each, the root written to and the incremental keys of
    the rows of the table.  The journal is history only; no stage reads
    it.

    Each tier is a field of its own: the roots the jobs are configured
    with are taken to be disjoint directories, as the default ones are.
    A job given a root inside another tier would write where that tier
    is read, which this record cannot express. *)

Record world : Type := {
  bronze : option (Store.dataset Schema.Telemetry);
  silver : option (Store.dataset Schema.Curated);
  gold_hourly_energy : option (Store.dataset HourlyEnergy.t);
  gold_farm_kpis : option (Store.dataset FarmKpi.t);
  state : StateStore.files;
  journal : list (string * list string)
}.

Definition empty_world : world :=
  {| bronze := None; silver := None;
     gold_hourly_energy := None; gold_farm_kpis := None;
     state := ∅; journal := [] |}.

(** ** io/bronze_writer.py *)

Module BronzeWriter.
Import Schema.
Local Open Scope string_scope.
Local Open Scope result_scope.

(** A cell of the frame handed to [write]: a pandas time stamp
    (nanoseconds since the epoch, UTC), a string, a float, or a missing
    object. *)
Inductive cell : Type :=
  | CTime (ns : Z)
  | CStr (s : string)
  | CFloat (x : Float.t)
  | CNull.

(** A frame: its column labels and its rows, each row holding one cell
    per column, in column order. *)
Record DataFrame : Type := {
  columns : list string;
  rows : list (list cell)
}.

(** [df.empty]: no row, or no column. *)
Definition empty (df : DataFrame) : bool :=
  Nat.eqb (length (rows df)) 0 || Nat.eqb (length (columns df)) 0.

Fixpoint index_of (col : string) (cols : list string) : option nat :=
  match cols with
  | [] => None
  | c :: rest =>
      if String.eqb c col then Some O else option_map S (index_of col rest)
  end.

Definition has_column (df : DataFrame) (col : string) : bool :=
  match index_of col (columns df) with Some _ => true | None => false end.

(** The cell of [row] under [col]. *)
Definition at_col (df : DataFrame) (row : list cell) (col : string)
  : option cell :=
  match index_of col (columns df) with
  | Some i => row !! i
  | None => None
  end.

(** [required], listed in sorted order, so that the labels of it that
    the frame lacks come out as [sorted(required - set(df.columns))]. *)
Definition required : list string :=
  ["event_time"; "farm_id"; "ingest_time"; "sim_run_id"].

Definition missing (df : DataFrame) : list string :=
  List.filter (fun c => negb (has_column df c)) required.

(** Python's [repr] of a list of plain strings. *)
Fixpoint repr_items (l : list string) : string :=
  match l with
  | [] => ""
  | [x] => "'" ++ x ++ "'"
  | x :: rest => "'" ++ x ++ "', " ++ repr_items rest
  end.

Definition repr_list (l : list string) : string :=
  "[" ++ repr_items l ++ "]".

(** [pd.to_datetime(..., utc=True).dt.floor("ms")] on one cell, as
    milliseconds.  The generator fills the time columns with time stamps.
    pandas also parses strings and numbers, which the embedding does not
    follow: a cell that is not a time stamp is taken to raise, so the
    embedding converts fewer frames than the code does, and what is
    stated of a converted frame is stated of its time-stamp cells. *)
Definition to_ms (col : string) (c : option cell) : result Z :=
  match c with
  | Some (CTime ns) => Ok (ns / 1000000)%Z
  | _ => Err (ConversionError col)
  end.

Definition to_str (col : string) (c : option cell) : result string :=
  match c with
  | Some (CStr s) => Ok s
  | _ => Err (ConversionError col)
  end.

(** The schema stores the measurements as float32; the rounding to
    float32 is left out, like the rounding of the simulation. *)
Definition to_float (col : string) (c : option cell) : result Float.t :=
  match c with
  | Some (CFloat x) => Ok x
  | _ => Err (ConversionError col)
  end.

(** [pa.Table.from_pandas(df[telemetry_cols], schema=schema)] on one
    row, the two time columns already floored to milliseconds. *)
Definition to_telemetry (df : DataFrame) (row : list cell) (ev ing : Z)
  : result Telemetry :=
  do farm <- to_str "farm_id" (at_col df row "farm_id");
  do turb <- to_str "turbine_id" (at_col df row "turbine_id");
  do wsf <- to_float "wind_speed_free_mps"
              (at_col df row "wind_speed_free_mps");
  do ws <- to_float "wind_speed_mps" (at_col df row "wind_speed_mps");
  do wd <- to_float "wind_dir_deg" (at_col df row "wind_dir_deg");
  do pw <- to_float "power_kw" (at_col df row "power_kw");
  do rot <- to_float "rotor_speed_rpm" (at_col df row "rotor_speed_rpm");
  do yaw <- to_float "yaw_deg" (at_col df row "yaw_deg");
  do st <- to_str "status" (at_col df row "status");
  do run <- to_str "sim_run_id" (at_col df row "sim_run_id");
  do src <- to_str "source" (at_col df row "source");
  Ok {| event_time := ev; farm_id := farm; turbine_id := turb;
        wind_speed_free_mps := wsf; wind_speed_mps := ws;
        wind_dir_deg := wd; power_kw := pw; rotor_speed_rpm := rot;
        yaw_deg := yaw; status := st; sim_run_id := run;
        ingest_time := ing; source := src |}.

(** [mapM] over the rows, stopping at the first failure. *)
Fixpoint for_rows {A B} (f : A -> result B) (l : list A) : result (list B) :=
  match l with
  | [] => Ok []
  | a :: rest =>
      do b <- f a;
      do bs <- for_rows f rest;
      Ok (b :: bs)
  end.

(** The partition directory of a raw row:
    [sim_run_id=../farm_id=../date=../hour=..].  The file system spells
    the colons of the hour percent-encoded; the spelling here is that of
    the column, and nothing depends on it but that distinct values get
    distinct directories. *)
Definition partition_dir (r : Telemetry) : string :=
  "sim_run_id=" ++ sim_run_id r ++ "/farm_id=" ++ farm_id r
  ++ "/date=" ++ Timestamp.strftime_date (event_time r)
  ++ "/hour=" ++ Timestamp.hour_key (event_time r).

Record t : Type := { base_path : string }.

Definition default : t := {| base_path := "data_lake/bronze" |}.

(** Lines 29 to 38 of [write]: the two time columns floored to
    milliseconds, the columns of the schema selected, the rows typed. *)
Definition convert (df : DataFrame) : result (list Telemetry) :=
  do evs <- for_rows
              (fun row => to_ms "event_time" (at_col df row "event_time"))
              (rows df);
  do ings <- for_rows
               (fun row => to_ms "ingest_time" (at_col df row "ingest_time"))
               (rows df);
  match List.filter (fun c => negb (has_column df c))
          (List.map fst telemetry_arrow_schema) with
  | (_ :: _) as absent => Err (KeyError (repr_list absent))
  | [] =>
      for_rows (fun x => to_telemetry df x.1.1 x.1.2 x.2)
        (zip (zip (rows df) evs) ings)
  end.

(** [write]: [uuid_hex] is the value of [uuid.uuid4().hex], which names
    the file [part-<hex>-0.parquet], and [o] what the table store does
    with the write request. *)
Definition write (self : t) (uuid_hex : string)
    (o : Store.outcome Telemetry) (df : DataFrame) (w : world)
  : result unit * world :=
  if empty df then
    (Err (ValueError "BronzeWriter received empty dataframe"), w)
  else
    match missing df with
    | (_ :: _) as m =>
        (Err (ValueError ("Missing required columns: " ++ repr_list m)), w)
    | [] =>
        match convert df with
        | Err e => (Err e, w)
        | Ok table =>
            let ds := Store.mkdir (bronze w) in
            let basename := "part-" ++ uuid_hex ++ "-0.parquet" in
            let '(r, ds') :=
              Store.write_to_dataset o (base_path self) partition_dir
                basename table ds in
            (r,
             {| bronze := Some ds';
                silver := silver w;
                gold_hourly_energy := gold_hourly_energy w;
                gold_farm_kpis := gold_farm_kpis w;
                state := state w;
                journal :=
                  match r with
                  | Ok _ =>
                      journal w
                      ++ [(base_path self, List.map process_key table)]
                  | Err _ => journal w
                  end |})
        end
    end.

End BronzeWriter.

(** Updates of one component of the world. *)

Definition with_silver (w : world) (ds : Store.dataset Schema.Curated)
  : world :=
  {| bronze := bronze w; silver := Some ds;
     gold_hourly_energy := gold_hourly_energy w;
     gold_farm_kpis := gold_farm_kpis w;
     state := state w; journal := journal w |}.

Definition with_gold_hourly_energy (w : world)
    (ds : Store.dataset HourlyEnergy.t) : world :=
  {| bronze := bronze w; silver := silver w;
     gold_hourly_energy := Some ds;
     gold_farm_kpis := gold_farm_kpis w;
     state := state w; journal := journal w |}.

Definition with_gold_farm_kpis (w : world)
    (ds : Store.dataset FarmKpi.t) : world :=
  {| bronze := bronze w; silver := silver w;
     gold_hourly_energy := gold_hourly_energy w;
     gold_farm_kpis := Some ds;
     state := state w; journal := journal w |}.

(** The two steps that follow a completed write: the state file is saved
    and the journal records the table. *)
Definition commit (w : world) (name : string) (items : gset string)
    (root : string) (keys : list string) : world :=
  {| bronze := bronze w; silver := silver w;
     gold_hourly_energy := gold_hourly_energy w;
     gold_farm_kpis := gold_farm_kpis w;
     state := StateStore.save_set name items (state w);
     journal := journal w ++ [(root, keys)] |}.

(** *** Buckets credited after their write

    [covered root name w]: every key of the persisted set [name] is the
    incremental key of a row of a table whose write to [root] completed.

    [credits_after_write tier root name dir_of pk run]: the stage [run],
    which persists to the tier [tier] under [root] tables whose rows have
    the incremental key [pk], and keeps its processed-set under [name],
    saves that set only after a completed write, extended by exactly the
    keys of the table written, and raises when its write does. *)

Definition covered (root name : string) (w : world) : Prop :=
  forall k,
    k ∈ StateStore.load_set name (state w) ->
    exists keys, (root, keys) ∈ journal w /\ k ∈ keys.

Definition credits_step {A : Type}
    (tier : world -> option (Store.dataset A)) (root name : string)
    (dir_of : A -> string) (pk : A -> string)
    (o : Store.outcome A) (w w' : world) : Prop :=
  (forall left_behind,
     o = Store.Raises left_behind ->
     state w' = state w /\ journal w' = journal w)
  /\ (state w' <> state w ->
      o = Store.Completes
      /\ exists table,
           tier w'
           = Some (Store.put_table root dir_of "part-0.parquet" table
                     (Store.mkdir (tier w)))
           /\ journal w' = journal w ++ [(root, List.map pk table)]
           /\ state w'
              = StateStore.save_set name
                  (StateStore.load_set name (state w)
                   ∪ list_to_set (List.map pk table))
                  (state w))
  /\ (covered root name w -> covered root name w')
  /\ (forall name',
        name <> name' ->
        StateStore.load_set name' (state w')
        = StateStore.load_set name' (state w))
  /\ (exists more, journal w' = journal w ++ more).

(** A write that raises ends the stage with that error, unless the stage
    never requested the write (and then did what it does anyway). *)
Definition raises_on_failed_write {A : Type}
    (run : Store.outcome A -> world -> result string * world)
    (w : world) : Prop :=
  forall left_behind,
    (run (Store.Raises left_behind) w).1 = Err OSError
    \/ run (Store.Raises left_behind) w = run Store.Completes w.

Definition credits_after_write {A : Type}
    (tier : world -> option (Store.dataset A)) (root name : string)
    (dir_of : A -> string) (pk : A -> string)
    (run : Store.outcome A -> world -> result string * world) : Prop :=
  forall (o : Store.outcome A) (w : world),
    credits_step tier root name dir_of pk o w (run o w).2
    /\ raises_on_failed_write run w.

(** ** pipelines/silver_job.py *)

Module SilverJob.
Import Schema.
Local Open Scope string_scope.

Record t : Type := {
  bronze_path : string;
  silver_path : string;
  constraints : TelemetryConstraints;
  state_name : string
}.

Definition default : t :=
  {| bronze_path := "data_lake/bronze";
     silver_path := "data_lake/silver";
     constraints := default_constraints;
     state_name := "silver_processed_hours" |}.

(** The float column of a given label, if the frame has it. *)
Definition float_column (col : string) : option (Telemetry -> Float.t) :=
  if String.eqb col "wind_speed_free_mps" then Some wind_speed_free_mps
  else if String.eqb col "wind_speed_mps" then Some wind_speed_mps
  else if String.eqb col "wind_dir_deg" then Some wind_dir_deg
  else if String.eqb col "power_kw" then Some power_kw
  else if String.eqb col "rotor_speed_rpm" then Some rotor_speed_rpm
  else if String.eqb col "yaw_deg" then Some yaw_deg
  else None.

(** [bad] for one value: missing, below [lo], or above [hi]. *)
Definition bad (lo hi x : Float.t) : bool :=
  Float.isna x || Float.ltb x lo || Float.gtb x hi.

(** [existing.where(existing == "", existing + ",") + col]. *)
Definition append_field (existing col : string) : string :=
  (if String.eqb existing "" then existing else existing ++ ",") ++ col.

(** The inner function [flag] of [_add_range_flags], one pass over the
    frame. *)
Definition flag (col : string) (range : Float.t * Float.t)
    (df : list Curated) : list Curated :=
  match float_column col with
  | None => df
  | Some get =>
      let is_bad r := bad range.1 range.2 (get (base r)) in
      if existsb is_bad df then
        List.map
          (fun r =>
             if is_bad r then
               {| base := base r;
                  is_duplicate := is_duplicate r;
                  has_range_violation := true;
                  range_violation_fields :=
                    append_field (range_violation_fields r) col |}
             else r)
          df
      else df
  end.

(** One pass of [flag] on one row. *)
Definition flag_row (col : string) (range : Float.t * Float.t)
    (get : Telemetry -> Float.t) (r : Curated) : Curated :=
  if bad range.1 range.2 (get (base r)) then
    {| base := base r;
       is_duplicate := is_duplicate r;
       has_range_violation := true;
       range_violation_fields := append_field (range_violation_fields r) col |}
  else r.

Definition _add_range_flags (self : t) (df : list Curated) : list Curated :=
  let c := constraints self in
  let df :=
    List.map
      (fun r => {| base := base r; is_duplicate := is_duplicate r;
                   has_range_violation := false;
                   range_violation_fields := "" |}) df in
  let df := flag "wind_speed_mps" (wind_speed_range c) df in
  let df := flag "wind_dir_deg" (wind_dir_range c) df in
  let df := flag "rotor_speed_rpm" (rotor_rpm_range c) df in
  let df := flag "yaw_deg" (yaw_deg_range c) df in
  let df := flag "power_kw" (power_kw_range c) df in
  df.

(** *** The range flags, row by row

    Written from the specification's sentences, to be compared with
    [_add_range_flags]: the checks in their order, the labels of the checks
    a row violates, and the row with its two flag columns set from
    them. *)

Definition checks (c : TelemetryConstraints)
  : list (string * (Telemetry -> Float.t) * (Float.t * Float.t)) :=
  [ ("wind_speed_mps", wind_speed_mps, wind_speed_range c);
    ("wind_dir_deg", wind_dir_deg, wind_dir_range c);
    ("rotor_speed_rpm", rotor_speed_rpm, rotor_rpm_range c);
    ("yaw_deg", yaw_deg, yaw_deg_range c);
    ("power_kw", power_kw, power_kw_range c) ].

Definition violations (c : TelemetryConstraints) (r : Telemetry)
  : list string :=
  List.map (fun k => k.1.1)
    (List.filter (fun k => bad k.2.1 k.2.2 (k.1.2 r)) (checks c)).

Fixpoint join_comma (l : list string) : string :=
  match l with
  | [] => ""
  | [x] => x
  | x :: rest => x ++ "," ++ join_comma rest
  end.

Definition flagged (c : TelemetryConstraints) (r : Curated) : Curated :=
  {| base := base r;
     is_duplicate := is_duplicate r;
     has_range_violation :=
       negb (Nat.eqb (length (violations c (base r))) 0);
     range_violation_fields := join_comma (violations c (base r)) |}.

(** A range that includes its low bound and excludes its high bound. *)
Definition in_range_inclusive_exclusive (lo hi x : Float.t) : bool :=
  negb (Float.ltb x lo) && Float.ltb x hi.

(** [key_cols]: the value of a row under them. *)
Definition key (r : Telemetry) : Z * string * string :=
  (event_time r, farm_id r, turbine_id r).

Definition key_compare (a b : Z * string * string) : comparison :=
  match Z.compare a.1.1 b.1.1 with
  | Eq =>
      match String.compare a.1.2 b.1.2 with
      | Eq => String.compare a.2 b.2
      | c => c
      end
  | c => c
  end.

Definition key_leb (a b : Z * string * string) : bool :=
  match key_compare a b with Gt => false | _ => true end.

(** [df.sort_values(key_cols)]: with several sort columns pandas sorts
    lexicographically and stably, rows of equal key keeping their order
    in the frame.  Insertion from the right is such a sort. *)
Fixpoint insert (r : Curated) (l : list Curated) : list Curated :=
  match l with
  | [] => [r]
  | x :: rest =>
      if key_leb (key (base r)) (key (base x)) then r :: l
      else x :: insert r rest
  end.

Definition sort_values (df : list Curated) : list Curated :=
  foldr insert [] df.

(** [df.duplicated(subset=key_cols, keep="first")]: true on a row whose
    key already occurred above it. *)
Fixpoint duplicated (seen : list (Z * string * string)) (df : list Curated)
  : list bool :=
  match df with
  | [] => []
  | r :: rest =>
      bool_decide (key (base r) ∈ seen)
      :: duplicated (key (base r) :: seen) rest
  end.

(** [df["is_duplicate"] = mask]. *)
Definition assign_is_duplicate (df : list Curated) (mask : list bool)
  : list Curated :=
  List.map
    (fun x => {| base := base x.1; is_duplicate := x.2;
                 has_range_violation := has_range_violation x.1;
                 range_violation_fields := range_violation_fields x.1 |})
    (zip df mask).

(** [df.drop_duplicates(subset=key_cols, keep="first")]. *)
Definition drop_duplicates (df : list Curated) : list Curated :=
  List.map fst
    (List.filter (fun x => negb x.2) (zip df (duplicated [] df))).

(** The rows whose key is not in [seen] and did not occur above them:
    what [drop_duplicates] keeps, read off the frame directly. *)
Fixpoint keep_first (seen : list (Z * string * string)) (df : list Curated)
  : list Curated :=
  match df with
  | [] => []
  | r :: rest =>
      if bool_decide (key (base r) ∈ seen)
      then keep_first (key (base r) :: seen) rest
      else r :: keep_first (key (base r) :: seen) rest
  end.

(** The rows of a frame under one key, in frame order. *)
Definition with_key (k : Z * string * string) (df : list Telemetry)
  : list Telemetry :=
  List.filter (fun r => bool_decide (key r = k)) df.

Definition key_le (a b : Z * string * string) : Prop := key_leb a b = true.

Definition key_lt (a b : Z * string * string) : Prop :=
  key_compare a b = Lt.

(** The rows of a curated frame under one key, and a frame in ascending
    key order. *)
Definition rows_with_key (k : Z * string * string) (df : list Curated)
  : list Curated :=
  List.filter (fun r => bool_decide (key (base r) = k)) df.

Definition ascending (df : list Curated) : Prop :=
  StronglySorted (fun x y => key_le (key (base x)) (key (base y))) df.

(** Lines 81 to 83 of [run]: the flag columns are created. *)
Definition with_flag_columns (r : Telemetry) : Curated :=
  {| base := r; is_duplicate := false;
     has_range_violation := false; range_violation_fields := "" |}.

(** A row with [is_duplicate] set to false. *)
Definition not_duplicate (r : Curated) : Curated :=
  {| base := base r; is_duplicate := false;
     has_range_violation := has_range_violation r;
     range_violation_fields := range_violation_fields r |}.

(** Lines 80 to 96 of [run]: the frame of the new rows, curated. *)
Definition curate (self : t) (df_new : list Telemetry) : list Curated :=
  let df := List.map with_flag_columns df_new in
  let df := sort_values df in
  let df := assign_is_duplicate df (duplicated [] df) in
  let df := drop_duplicates df in
  _add_range_flags self df.

(** The partition directory of a curated row. *)
Definition partition_dir (r : Curated) : string :=
  "sim_run_id=" ++ sim_run_id (base r) ++ "/farm_id=" ++ farm_id (base r)
  ++ "/date=" ++ Timestamp.strftime_date (event_time (base r)).

(** The rows of the frame the set [processed] does not cover. *)
Definition new_rows (processed : gset string) (df : list Telemetry)
  : list Telemetry :=
  List.filter (fun r => negb (bool_decide (process_key r ∈ processed))) df.

(** [run]: [o] is what the table store does with the write request, if
    one is made.  The time stamps read back from bronze are already whole
    milliseconds, so their normalisation changes nothing. *)
Definition run (self : t) (o : Store.outcome Curated) (w : world)
  : result string * world :=
  match bronze w with
  | None =>
      (Err (FileNotFoundError
              ("Bronze path not found: " ++ bronze_path self)), w)
  | Some ds =>
      let df := Store.read ds in
      if Nat.eqb (length df) 0 then
        (Err (ValueError "No data found in bronze."), w)
      else
        let processed := StateStore.load_set (state_name self) (state w) in
        let df_new := new_rows processed df in
        if Nat.eqb (length df_new) 0 then (Ok (silver_path self), w)
        else
          let df := curate self df_new in
          let out := df in
          let sds := Store.mkdir (silver w) in
          let '(r, sds') :=
            Store.write_to_dataset o (silver_path self) partition_dir
              "part-0.parquet" out sds in
          match r with
          | Err e => (Err e, with_silver w sds')
          | Ok _ =>
              let keys := List.map (fun r => process_key (base r)) df in
              let processed := processed ∪ list_to_set keys in
              (Ok (silver_path self),
               commit (with_silver w sds') (state_name self) processed
                 (silver_path self) keys)
          end
  end.

End SilverJob.

(** ** pipelines/gold_job.py *)

Module GoldJob.
Import Schema.
Local Open Scope string_scope.

Record t : Type := {
  silver_path : string;
  gold_path : string;
  state_name : string
}.

Definition default : t :=
  {| silver_path := "data_lake/silver";
     gold_path := "data_lake/gold";
     state_name := "gold_processed_hours" |}.

(** [groupby(keys)] with its default [sort=True]: one group per key
    value, groups in ascending key order, the rows of a group in frame
    order. *)
Fixpoint group_insert {K A} (cmp : K -> K -> comparison) (k : K) (a : A)
    (gs : list (K * list A)) : list (K * list A) :=
  match gs with
  | [] => [(k, [a])]
  | (k', l) :: rest =>
      match cmp k k' with
      | Eq => (k', (l ++ [a])%list) :: rest
      | Lt => (k, [a]) :: gs
      | Gt => (k', l) :: group_insert cmp k a rest
      end
  end.

Definition groupby {K A} (cmp : K -> K -> comparison) (key : A -> K)
    (df : list A) : list (K * list A) :=
  fold_left (fun gs a => group_insert cmp (key a) a gs) df [].

Definition lex (c : comparison) (d : comparison) : comparison :=
  match c with Eq => d | _ => c end.

(** What the ascending order of the groups rests on: the comparison of
    the keys is reflexive, antisymmetric, transitive, and treats keys it
    finds equal alike. *)
Definition ordering {K} (cmp : K -> K -> comparison) : Prop :=
  (forall a, cmp a a = Eq)
  /\ (forall a b, cmp a b = CompOpp (cmp b a))
  /\ (forall a b c, cmp a b = Lt -> cmp b c = Lt -> cmp a c = Lt)
  /\ (forall a b c, cmp a b = Eq -> cmp b c = cmp a c).

Definition count {A} (p : A -> bool) (l : list A) : nat :=
  length (List.filter p l).

Definition is_running (r : Curated) : bool :=
  String.eqb (status (base r)) "RUNNING".

(** Python's [int(x)] on a finite float: truncation toward zero. *)
Definition int_of_Q (q : Q) : Z := Z.quot (Qnum q) (Zpos (Qden q)).

(** numpy's [round]: to the nearest integer, halves to the even one. *)
Definition round_half_even (q : Q) : Z :=
  let f := Qfloor q in
  match (q - inject_Z f ?= 1 # 2)%Q with
  | Lt => f
  | Gt => (f + 1)%Z
  | Eq => if Z.even f then f else (f + 1)%Z
  end.

(** The partition directory of a rollup row. *)
Definition partition_dir (run farm date : string) : string :=
  "sim_run_id=" ++ run ++ "/farm_id=" ++ farm ++ "/date=" ++ date.

(** *** run_hourly_energy *)

Definition hourly_key (r : Curated) : string * string * string * Z :=
  (sim_run_id (base r), farm_id (base r), turbine_id (base r),
   Timestamp.floor_hour (event_time (base r))).

Definition hourly_key_compare (a b : string * string * string * Z)
  : comparison :=
  lex (String.compare a.1.1.1 b.1.1.1)
    (lex (String.compare a.1.1.2 b.1.1.2)
       (lex (String.compare a.1.2 b.1.2) (Z.compare a.2 b.2))).

(** One row of [agg] from one group. *)
Definition hourly_row (dt_seconds : Q)
    (g : (string * string * string * Z) * list Curated) : HourlyEnergy.t :=
  let '(run, farm, turb, hour) := g.1 in
  let dt_hours := (dt_seconds / 3600)%Q in
  let energy r := Float.mul (power_kw (base r)) (Float.Fin dt_hours) in
  {| HourlyEnergy.sim_run_id := run;
     HourlyEnergy.farm_id := farm;
     HourlyEnergy.turbine_id := turb;
     HourlyEnergy.hour := hour;
     HourlyEnergy.wind_speed_mps_avg :=
       Float.mean (List.map (fun r => wind_speed_mps (base r)) g.2);
     HourlyEnergy.power_kw_avg :=
       Float.mean (List.map (fun r => power_kw (base r)) g.2);
     HourlyEnergy.energy_kwh := Float.sum (List.map energy g.2);
     HourlyEnergy.downtime_minutes :=
       Float.mul
         (Float.of_nat (count (fun r => negb (is_running r)) g.2))
         (Float.Fin (dt_seconds / 60)%Q);
     HourlyEnergy.bad_rows := count has_range_violation g.2;
     HourlyEnergy.rows := length g.2;
     HourlyEnergy.date := Timestamp.strftime_date hour;
     HourlyEnergy.hour_key := Timestamp.strftime_hour hour;
     HourlyEnergy.process_key :=
       run ++ "|" ++ farm ++ "|" ++ Timestamp.strftime_hour hour |}.

Definition hourly_dir (r : HourlyEnergy.t) : string :=
  partition_dir (HourlyEnergy.sim_run_id r) (HourlyEnergy.farm_id r)
    (HourlyEnergy.date r).

Definition run_hourly_energy (self : t) (dt_seconds : Q)
    (o : Store.outcome HourlyEnergy.t) (w : world)
  : result string * world :=
  match silver w with
  | None =>
      (Err (FileNotFoundError
              ("Silver path not found: " ++ silver_path self)), w)
  | Some sds =>
      let out_dir := gold_path self ++ "/hourly_energy" in
      let gds := Store.mkdir (gold_hourly_energy w) in
      let w := with_gold_hourly_energy w gds in
      let df := Store.read sds in
      if Nat.eqb (length df) 0 then (Ok out_dir, w)
      else
        let agg :=
          List.map (hourly_row dt_seconds)
            (groupby hourly_key_compare hourly_key df) in
        let processed := StateStore.load_set (state_name self) (state w) in
        let agg_new :=
          List.filter
            (fun r => negb (bool_decide
                              (HourlyEnergy.process_key r ∈ processed)))
            agg in
        if Nat.eqb (length agg_new) 0 then (Ok out_dir, w)
        else
          let '(r, gds') :=
            Store.write_to_dataset o out_dir hourly_dir "part-0.parquet"
              agg_new gds in
          match r with
          | Err e => (Err e, with_gold_hourly_energy w gds')
          | Ok _ =>
              let keys := List.map HourlyEnergy.process_key agg_new in
              let processed := processed ∪ list_to_set keys in
              (Ok out_dir,
               commit (with_gold_hourly_energy w gds') (state_name self)
                 processed out_dir keys)
          end
  end.

(** *** run_farm_kpis *)

Definition kpi_key (r : Curated) : string * string * Z :=
  (sim_run_id (base r), farm_id (base r),
   Timestamp.floor_hour (event_time (base r))).

Definition kpi_key_compare (a b : string * string * Z) : comparison :=
  lex (String.compare a.1.1 b.1.1)
    (lex (String.compare a.1.2 b.1.2) (Z.compare a.2 b.2)).

(** One row of [agg] from one group, [rows_per_turbine_per_hour] being
    nonzero. *)
Definition kpi_row (dt_seconds rated_power_kw : Q)
    (rows_per_turbine_per_hour : Z)
    (g : (string * string * Z) * list Curated) : FarmKpi.t :=
  let '(run, farm, hour) := g.1 in
  let dt_hours := (dt_seconds / 3600)%Q in
  let energy r := Float.mul (power_kw (base r)) (Float.Fin dt_hours) in
  let farm_energy_kwh := Float.sum (List.map energy g.2) in
  let running_rows := count is_running g.2 in
  let total_rows := length g.2 in
  let bad_rows := count has_range_violation g.2 in
  let avg_free_wind :=
    Float.mean (List.map (fun r => wind_speed_free_mps (base r)) g.2) in
  let avg_effective_wind :=
    Float.mean (List.map (fun r => wind_speed_mps (base r)) g.2) in
  let n_turbines_est :=
    round_half_even
      (inject_Z (Z.of_nat total_rows)
       / inject_Z rows_per_turbine_per_hour)%Q in
  {| FarmKpi.sim_run_id := run;
     FarmKpi.farm_id := farm;
     FarmKpi.hour := hour;
     FarmKpi.farm_power_kw_avg :=
       Float.mean (List.map (fun r => power_kw (base r)) g.2);
     FarmKpi.farm_energy_kwh := farm_energy_kwh;
     FarmKpi.running_rows := running_rows;
     FarmKpi.total_rows := total_rows;
     FarmKpi.bad_rows := bad_rows;
     FarmKpi.avg_free_wind := avg_free_wind;
     FarmKpi.avg_effective_wind := avg_effective_wind;
     FarmKpi.date := Timestamp.strftime_date hour;
     FarmKpi.availability :=
       Float.div (Float.of_nat running_rows) (Float.of_nat total_rows);
     FarmKpi.avg_wake_loss_mps :=
       Float.sub avg_free_wind avg_effective_wind;
     FarmKpi.bad_row_rate :=
       Float.div (Float.of_nat bad_rows) (Float.of_nat total_rows);
     FarmKpi.n_turbines_est := n_turbines_est;
     FarmKpi.capacity_factor :=
       Float.div farm_energy_kwh
         (Float.Fin (inject_Z n_turbines_est * rated_power_kw * 1)%Q);
     FarmKpi.hour_key := Timestamp.strftime_hour hour;
     FarmKpi.process_key :=
       run ++ "|" ++ farm ++ "|" ++ Timestamp.strftime_hour hour |}.

Definition kpi_dir (r : FarmKpi.t) : string :=
  partition_dir (FarmKpi.sim_run_id r) (FarmKpi.farm_id r)
    (FarmKpi.date r).

(** [run_farm_kpis]: [3600 / dt_seconds] raises on a zero step; a step
    above an hour makes [rows_per_turbine_per_hour] zero, the estimate
    infinite, and its cast to an integer raise. *)
Definition run_farm_kpis (self : t) (dt_seconds rated_power_kw : Q)
    (o : Store.outcome FarmKpi.t) (w : world)
  : result string * world :=
  match silver w with
  | None =>
      (Err (FileNotFoundError
              ("Silver path not found: " ++ silver_path self)), w)
  | Some sds =>
      let out_dir := gold_path self ++ "/farm_kpis" in
      let gds := Store.mkdir (gold_farm_kpis w) in
      let w := with_gold_farm_kpis w gds in
      let df := Store.read sds in
      if Nat.eqb (length df) 0 then (Ok out_dir, w)
      else if Qeq_bool dt_seconds 0 then (Err ZeroDivisionError, w)
      else
        let rows_per_turbine_per_hour := int_of_Q (3600 / dt_seconds)%Q in
        if Z.eqb rows_per_turbine_per_hour 0 then
          (Err IntCastingNaNError, w)
        else
          let agg :=
            List.map
              (kpi_row dt_seconds rated_power_kw rows_per_turbine_per_hour)
              (groupby kpi_key_compare kpi_key df) in
          let state_name := "gold_farm_kpis_processed_hours" in
          let processed := StateStore.load_set state_name (state w) in
          let agg_new :=
            List.filter
              (fun r => negb (bool_decide
                                (FarmKpi.process_key r ∈ processed)))
              agg in
          if Nat.eqb (length agg_new) 0 then (Ok out_dir, w)
          else
            let '(r, gds') :=
              Store.write_to_dataset o out_dir kpi_dir "part-0.parquet"
                agg_new gds in
            match r with
            | Err e => (Err e, with_gold_farm_kpis w gds')
            | Ok _ =>
                let keys := List.map FarmKpi.process_key agg_new in
                let processed := processed ∪ list_to_set keys in
                (Ok out_dir,
                 commit (with_gold_farm_kpis w gds') state_name
                   processed out_dir keys)
            end
  end.

End GoldJob.

(** ** Runs of the pipeline

    The stages are invoked one at a time, in any order and any number of
    times; each invocation comes with what the table store does with its
    write. *)

Inductive invocation : Type :=
  | Ingest (uuid_hex : string) (o : Store.outcome Schema.Telemetry)
      (df : BronzeWriter.DataFrame)
  | Curate (o : Store.outcome Schema.Curated)
  | RollUpEnergy (dt_seconds : Q) (o : Store.outcome HourlyEnergy.t)
  | RollUpKpis (dt_seconds rated_power_kw : Q)
      (o : Store.outcome FarmKpi.t).

Record jobs : Type := {
  bronze_writer : BronzeWriter.t;
  silver_job : SilverJob.t;
  gold_job : GoldJob.t
}.

Definition default_jobs : jobs :=
  {| bronze_writer := BronzeWriter.default;
     silver_job := SilverJob.default;
     gold_job := GoldJob.default |}.

Definition invoke (j : jobs) (w : world) (i : invocation) : world :=
  match i with
  | Ingest uuid_hex o df =>
      (BronzeWriter.write (bronze_writer j) uuid_hex o df w).2
  | Curate o => (SilverJob.run (silver_job j) o w).2
  | RollUpEnergy dt_seconds o =>
      (GoldJob.run_hourly_energy (gold_job j) dt_seconds o w).2
  | RollUpKpis dt_seconds rated_power_kw o =>
      (GoldJob.run_farm_kpis (gold_job j) dt_seconds rated_power_kw o w).2
  end.

Definition pipeline (j : jobs) (trace : list invocation) (w : world)
  : world :=
  fold_left (invoke j) trace w.

(** The state name [run_farm_kpis] uses. *)
Definition farm_kpis_state_name : string :=
  "gold_farm_kpis_processed_hours".

(** Every persisted set of the three stages is covered by completed
    writes of its own stage. *)
Definition all_covered (j : jobs) (w : world) : Prop :=
  covered (SilverJob.silver_path (silver_job j))
    (SilverJob.state_name (silver_job j)) w
  /\ covered (GoldJob.gold_path (gold_job j) ++ "/hourly_energy")%string
       (GoldJob.state_name (gold_job j)) w
  /\ covered (GoldJob.gold_path (gold_job j) ++ "/farm_kpis")%string
       farm_kpis_state_name w.

(** ** Fixtures for the examples *)

(** Two wind fields of the default configuration, called in turn, with a
    third one in between. *)
Definition example_schedule : list WindField.request :=
  [ (1%positive, (0, 0, 0)%R); (2%positive, (0, 0, 0)%R);
    (3%positive, (5, 5, 5)%R);
    (1%positive, (60, 600, 0)%R); (2%positive, (60, 600, 0)%R) ].

(** A frame of one well-formed row, under the columns of the schema. *)
Definition example_columns : list string :=
  List.map fst Schema.telemetry_arrow_schema.

Definition example_cells : list BronzeWriter.cell :=
  [ BronzeWriter.CTime 1767582000123456789; BronzeWriter.CStr "F001";
    BronzeWriter.CStr "T001";
    BronzeWriter.CFloat (Float.Fin 8); BronzeWriter.CFloat (Float.Fin 7);
    BronzeWriter.CFloat (Float.Fin 220);
    BronzeWriter.CFloat (Float.Fin 500); BronzeWriter.CFloat (Float.Fin 10);
    BronzeWriter.CFloat (Float.Fin 220);
    BronzeWriter.CStr "RUNNING"; BronzeWriter.CStr "SIM-A";
    BronzeWriter.CTime 1767582000500000000; BronzeWriter.CStr "simulator" ].

Definition example_frame : BronzeWriter.DataFrame :=
  {| BronzeWriter.columns := example_columns;
     BronzeWriter.rows := [example_cells] |}.

(** A raw row in range on every field but the wind speed given, and the
    curated row over it. *)
Definition example_telemetry (run : string) (ms : Z) (turbine : string)
    (wind_speed : Float.t) : Schema.Telemetry :=
  {| Schema.event_time := ms;
     Schema.farm_id := "F001";
     Schema.turbine_id := turbine;
     Schema.wind_speed_free_mps := Float.Fin 8;
     Schema.wind_speed_mps := wind_speed;
     Schema.wind_dir_deg := Float.Fin 220;
     Schema.power_kw := Float.Fin 500;
     Schema.rotor_speed_rpm := Float.Fin 10;
     Schema.yaw_deg := Float.Fin 220;
     Schema.status := "RUNNING";
     Schema.sim_run_id := run;
     Schema.ingest_time := ms + 500;
     Schema.source := "simulator" |}.

Definition example_curated (wind_speed : Float.t) : Schema.Curated :=
  {| Schema.base :=
       example_telemetry "SIM-A" 1767582000000 "T001" wind_speed;
     Schema.is_duplicate := false;
     Schema.has_range_violation := false;
     Schema.range_violation_fields := "" |}.

(** The raw tier as [main] fills it: two scenarios of the same farm over
    the same hours, ingested one after the other. *)
Definition frame_of_run (run : string) : BronzeWriter.DataFrame :=
  {| BronzeWriter.columns := example_columns;
     BronzeWriter.rows :=
       [ [ BronzeWriter.CTime 1767582000000000000; BronzeWriter.CStr "F001";
           BronzeWriter.CStr "T001";
           BronzeWriter.CFloat (Float.Fin 8); BronzeWriter.CFloat (Float.Fin 7);
           BronzeWriter.CFloat (Float.Fin 220);
           BronzeWriter.CFloat (Float.Fin 500);
           BronzeWriter.CFloat (Float.Fin 10);
           BronzeWriter.CFloat (Float.Fin 220);
           BronzeWriter.CStr "RUNNING"; BronzeWriter.CStr run;
           BronzeWriter.CTime 1767582000500000000;
           BronzeWriter.CStr "simulator" ] ] |}.

Definition two_scenarios : world :=
  pipeline default_jobs
    [ Ingest "a1" Store.Completes (frame_of_run "SIM-A");
      Ingest "b2" Store.Completes (frame_of_run "SIM-B") ]
    empty_world.

(** A run of the pipeline in which one write fails. *)
Definition example_trace : list invocation :=
  [ Ingest "ab12" Store.Completes example_frame;
    Curate (Store.Raises []);
    Curate Store.Completes;
    RollUpEnergy 60 Store.Completes;
    RollUpKpis 60 2000 (Store.Raises []);
    RollUpKpis 60 2000 Store.Completes ].

(** A farm of two turbines, a generator over it, and the state it starts
    from under the counter generator. *)
Definition example_farm : FarmLayout.WindFarm :=
  {| FarmLayout.farm_id := "F001";
     FarmLayout.turbines :=
       [ FarmLayout.turbine_at "T001" 0 0;
         FarmLayout.turbine_at "T002" 600 0 ] |}.

Definition example_generator : TelemetryGenerator.t :=
  {| TelemetryGenerator.farm := example_farm;
     TelemetryGenerator.power_curve := PowerCurve.default;
     TelemetryGenerator.wake_model := Some WakeModel.default;
     TelemetryGenerator.self_sim_run_id := "SIM-A";
     TelemetryGenerator.self_source := "simulator";
     TelemetryGenerator.seed := 123 |}.

Definition example_state : @TelemetryGenerator.state counter_generator :=
  {| TelemetryGenerator.wind_field :=
       @WindField.__post_init__ counter_generator WindField.default;
     TelemetryGenerator.rng := @default_rng counter_generator 123;
     TelemetryGenerator.clock := 0 |}.

(** Three arrivals, the third under the key of the first. *)
Definition example_arrivals : list Schema.Telemetry :=
  [ example_telemetry "SIM-A" 1767582000000 "T002" (Float.Fin 7);
    example_telemetry "SIM-A" 1767582000000 "T001" (Float.Fin 5);
    example_telemetry "SIM-A" 1767582000000 "T002" (Float.Fin 9) ].

(** * Part II: properties *)

(** ** The power curve *)

Section PowerCurveFacts.
Import PowerCurve.
Local Open Scope R_scope.

Lemma power_kw_cut_out (pc : t) (v P : R) :
  v >= cut_out_mps pc -> power_kw pc v P = (0, CUT_OUT).
Proof.
  intros Hv. unfold power_kw.
  destruct (Rge_dec v (cut_out_mps pc)); [reflexivity | contradiction].
Qed.

Lemma power_kw_stopped (pc : t) (v P : R) :
  v < cut_out_mps pc -> v < cut_in_mps pc -> power_kw pc v P = (0, STOPPED).
Proof.
  intros Hout Hin. unfold power_kw.
  destruct (Rge_dec v (cut_out_mps pc)); [lra |].
  destruct (Rlt_dec v (cut_in_mps pc)); [reflexivity | contradiction].
Qed.

Lemma power_kw_ramp (pc : t) (v P : R) :
  v < cut_out_mps pc -> cut_in_mps pc <= v < rated_mps pc ->
  power_kw pc v P =
    (P * ((v - cut_in_mps pc) / (rated_mps pc - cut_in_mps pc)) ^ 3,
     RUNNING).
Proof.
  intros Hout [Hin Hr]. unfold power_kw.
  destruct (Rge_dec v (cut_out_mps pc)); [lra |].
  destruct (Rlt_dec v (cut_in_mps pc)); [lra |].
  destruct (Rlt_dec v (rated_mps pc)); [reflexivity | contradiction].
Qed.

Lemma power_kw_rated (pc : t) (v P : R) :
  cut_in_mps pc <= v -> rated_mps pc <= v < cut_out_mps pc ->
  power_kw pc v P = (P, RUNNING).
Proof.
  intros Hin [Hr Hout]. unfold power_kw.
  destruct (Rge_dec v (cut_out_mps pc)); [lra |].
  destruct (Rlt_dec v (cut_in_mps pc)); [lra |].
  destruct (Rlt_dec v (rated_mps pc)); [lra | reflexivity].
Qed.

(** C4. For a curve whose thresholds are ordered, cut-in below rated and
    rated at most cut-out, [power_kw] is the piecewise function of the
    specification: at or above cut-out it returns (0, CUT_OUT); below
    cut-in (0, STOPPED); from cut-in up to rated the cubic ramp with
    status RUNNING; from rated up to cut-out the rated power with status
    RUNNING.  At exactly cut-in the result is (0, RUNNING), at exactly
    cut-out (0, CUT_OUT). *)
Theorem power_kw_piecewise (pc : t) (v P : R) :
  cut_in_mps pc < rated_mps pc ->
  rated_mps pc <= cut_out_mps pc ->
  (v >= cut_out_mps pc -> power_kw pc v P = (0, CUT_OUT))
  /\ (v < cut_in_mps pc -> power_kw pc v P = (0, STOPPED))
  /\ (cut_in_mps pc <= v < rated_mps pc ->
      power_kw pc v P =
        (P * ((v - cut_in_mps pc) / (rated_mps pc - cut_in_mps pc)) ^ 3,
         RUNNING))
  /\ (rated_mps pc <= v < cut_out_mps pc ->
      power_kw pc v P = (P, RUNNING))
  /\ power_kw pc (cut_in_mps pc) P = (0, RUNNING)
  /\ power_kw pc (cut_out_mps pc) P = (0, CUT_OUT).
Proof.
  intros Hir Hro. repeat split.
  - apply power_kw_cut_out.
  - intros Hv. apply power_kw_stopped; lra.
  - intros Hv. apply power_kw_ramp; lra.
  - intros Hv. apply power_kw_rated; lra.
  - rewrite power_kw_ramp by lra. f_equal.
    unfold Rdiv. ring.
  - apply power_kw_cut_out. lra.
Qed.

Lemma power_kw_piecewise_witness :
  cut_in_mps default < rated_mps default
  /\ rated_mps default <= cut_out_mps default
  /\ power_kw default 3 2000 = (0, RUNNING)
  /\ power_kw default 25 2000 = (0, CUT_OUT)
  /\ power_kw default 12 2000 = (2000, RUNNING).
Proof.
  assert (H1 : cut_in_mps default < rated_mps default) by (simpl; lra).
  assert (H2 : rated_mps default <= cut_out_mps default) by (simpl; lra).
  split; [exact H1 | split; [exact H2 |]].
  destruct (power_kw_piecewise default 12 2000 H1 H2)
    as (_ & _ & _ & Hrated & Hin & Hout).
  split; [exact Hin | split; [exact Hout |]].
  apply Hrated. simpl. lra.
Defined.

End PowerCurveFacts.

(** ** The wake model *)

Section WakeFacts.
Import FarmLayout WakeModel.
Local Open Scope R_scope.

Variable self : WakeModel.t.
Variables ux uy : R.
Variable target : Turbine.

Lemma retained_ref_cons (src : Turbine) (l : list Turbine) :
  retained_ref self ux uy target (src :: l)
  = factor_ref self ux uy target src * retained_ref self ux uy target l.
Proof.
  unfold retained_ref, factor_ref. simpl.
  destruct (contributes ux uy target src); simpl; ring.
Qed.

Lemma retained_ref_nil : retained_ref self ux uy target [] = 1.
Proof. reflexivity. Qed.

(** *** The projections of the loop are those of the specification *)

Lemma downwind_distance_eq (src : Turbine) :
  (x_m target - x_m src) * ux + (y_m target - y_m src) * uy
  = downwind_distance ux uy target src.
Proof. reflexivity. Qed.

Lemma crosswind_offset_eq (src : Turbine) :
  Rabs (- (x_m target - x_m src) * uy + (y_m target - y_m src) * ux)
  = crosswind_offset ux uy target src.
Proof.
  unfold crosswind_offset, dot_product, perpendicular, relative_position.
  cbn [fst snd]. f_equal. ring.
Qed.


(** *** The exponents of the two factors *)

Lemma exp_max_arg_positive : 0 < exp_max_arg.
Proof. unfold exp_max_arg. lra. Qed.

Lemma math_exp_nonpos (x : R) : x <= 0 -> math_exp x = Ok (exp x).
Proof.
  intros Hx. unfold math_exp. pose proof exp_max_arg_positive.
  destruct (Rlt_dec exp_max_arg x); [lra | reflexivity].
Qed.

Lemma cross_exponent_nonpos (c : R) :
  2 * (crosswind_sigma_m self ^ 2) <> 0 ->
  - (c ^ 2) / (2 * (crosswind_sigma_m self ^ 2)) <= 0.
Proof.
  intros Hs.
  assert (Hp : 0 < 2 * (crosswind_sigma_m self ^ 2)).
  { pose proof (pow2_ge_0 (crosswind_sigma_m self)). lra. }
  assert (0 <= c ^ 2) by apply pow2_ge_0.
  assert (0 < / (2 * (crosswind_sigma_m self ^ 2)))
    by (apply Rinv_0_lt_compat; exact Hp).
  unfold Rdiv. nra.
Qed.

Lemma dist_exponent_nonpos (d : R) :
  0 < d -> 0 < decay_length_m self -> - d / decay_length_m self <= 0.
Proof.
  intros Hd Hl.
  assert (0 < / decay_length_m self) by (apply Rinv_0_lt_compat; exact Hl).
  unfold Rdiv. nra.
Qed.

(** *** The error of a model, whatever the source

    Every source that raises, raises the same error: the zero division
    of the crosswind width, else that of the decay length, else the
    overflow of the distance factor. *)
Lemma loop_body_errors_agree (acc acc' : R) (src src' : Turbine)
    (e e' : error) :
  loop_body self ux uy target acc src = Err e ->
  loop_body self ux uy target acc' src' = Err e' ->
  e = e'.
Proof.
  unfold loop_body.
  destruct (String.eqb (turbine_id src) (turbine_id target));
    [discriminate |].
  destruct (String.eqb (turbine_id src') (turbine_id target));
    [intros _; discriminate |].
  destruct (Rle_dec _ 0); [discriminate |].
  destruct (Rle_dec _ 0); [intros _; discriminate |].
  rewrite !crosswind_offset_eq.
  unfold fdiv.
  destruct (Req_dec_T (2 * (crosswind_sigma_m self ^ 2)) 0) as [Hs | Hs];
    cbn [rbind]; [congruence |].
  rewrite !math_exp_nonpos by (apply cross_exponent_nonpos; exact Hs).
  cbn [rbind].
  destruct (Req_dec_T (decay_length_m self) 0); cbn [rbind]; [congruence |].
  unfold math_exp.
  destruct (Rlt_dec exp_max_arg _); cbn [rbind]; [| discriminate].
  destruct (Rlt_dec exp_max_arg _); cbn [rbind]; [| intros _; discriminate].
  congruence.
Qed.




Lemma existsb_contributes (turbines : list Turbine) :
  existsb (contributes ux uy target) turbines = true
  <-> exists src, src ∈ turbines /\ contributes ux uy target src = true.
Proof.
  rewrite existsb_exists. split; intros (src & Hin & Hc); exists src.
  - split; [apply list_elem_of_In; exact Hin | exact Hc].
  - split; [apply list_elem_of_In; exact Hin | exact Hc].
Qed.




(** A contributing source too far upwind for a negative decay length
    overflows the distance factor. *)
Lemma loop_body_overflow (acc : R) (src : Turbine) :
  crosswind_sigma_m self <> 0 ->
  decay_length_m self <> 0 ->
  contributes ux uy target src = true ->
  exp_max_arg < - downwind_distance ux uy target src / decay_length_m self ->
  loop_body self ux uy target acc src = Err OverflowError.
Proof.
  intros Hs Hl Hc Hbig. unfold contributes in Hc. unfold loop_body.
  rewrite downwind_distance_eq, crosswind_offset_eq.
  apply andb_true_iff in Hc as [Hid Hd].
  apply negb_true_iff in Hid. rewrite Hid.
  destruct (Rlt_dec 0 (downwind_distance ux uy target src)) as [Hpos |];
    [| discriminate].
  destruct (Rle_dec (downwind_distance ux uy target src) 0); [lra |].
  assert (Hs2 : 2 * (crosswind_sigma_m self ^ 2) <> 0).
  { apply Rmult_integral_contrapositive_currified; [lra |].
    apply pow_nonzero. exact Hs. }
  unfold fdiv.
  destruct (Req_dec_T (2 * (crosswind_sigma_m self ^ 2)) 0);
    [contradiction |].
  cbn [rbind].
  rewrite math_exp_nonpos by (apply cross_exponent_nonpos; exact Hs2).
  cbn [rbind].
  destruct (Req_dec_T (decay_length_m self) 0); [contradiction |].
  cbn [rbind]. unfold math_exp.
  destruct (Rlt_dec exp_max_arg _); [reflexivity | contradiction].
Qed.

(** Once a source raises, the loop raises, at that source or before. *)
Lemma loop_raises (turbines : list Turbine) (src : Turbine) (e : error) :
  src ∈ turbines ->
  (forall acc, loop_body self ux uy target acc src = Err e) ->
  forall acc, loop self ux uy target acc turbines = Err e.
Proof.
  intros Hin Hsrc.
  induction turbines as [| s rest IH]; intros acc; [inversion Hin |].
  cbn [loop].
  destruct (loop_body self ux uy target acc s) as [f | e0] eqn:Hb;
    cbn [rbind].
  - apply IH. apply elem_of_cons in Hin as [-> | Hin]; [| exact Hin].
    rewrite Hsrc in Hb. discriminate.
  - f_equal. symmetry.
    exact (loop_body_errors_agree _ _ _ _ _ _ (Hsrc acc) Hb).
Qed.

Hypothesis sigma_nonzero : crosswind_sigma_m self <> 0.
Hypothesis decay_positive : 0 < decay_length_m self.

Lemma sigma_denominator_nonzero : 2 * (crosswind_sigma_m self ^ 2) <> 0.
Proof.
  apply Rmult_integral_contrapositive_currified; [lra |].
  apply pow_nonzero. exact sigma_nonzero.
Qed.

Lemma loop_body_factor (acc : R) (src : Turbine) :
  loop_body self ux uy target acc src
  = Ok (acc * factor_ref self ux uy target src).
Proof.
  unfold loop_body, factor_ref, contributes, loss_ref.
  rewrite downwind_distance_eq, crosswind_offset_eq.
  destruct (String.eqb (turbine_id src) (turbine_id target));
    cbn [negb andb].
  { f_equal. ring. }
  destruct (Rle_dec (downwind_distance ux uy target src) 0) as [Hle | Hgt];
    destruct (Rlt_dec 0 (downwind_distance ux uy target src))
      as [Hlt | Hnlt];
    try lra.
  { f_equal. ring. }
  unfold fdiv.
  destruct (Req_dec_T (2 * (crosswind_sigma_m self ^ 2)) 0) as [E | _].
  { exfalso. exact (sigma_denominator_nonzero E). }
  cbn [rbind].
  rewrite math_exp_nonpos
    by (apply cross_exponent_nonpos; exact sigma_denominator_nonzero).
  cbn [rbind].
  destruct (Req_dec_T (decay_length_m self) 0) as [E | _]; [lra |].
  cbn [rbind].
  rewrite math_exp_nonpos
    by (apply dist_exponent_nonpos; [exact Hlt | exact decay_positive]).
  reflexivity.
Qed.

Lemma loop_retained (turbines : list Turbine) (acc : R) :
  loop self ux uy target acc turbines
  = Ok (acc * retained_ref self ux uy target turbines).
Proof.
  revert acc. induction turbines as [| src rest IH]; intros acc.
  - simpl. rewrite retained_ref_nil. f_equal. ring.
  - cbn [loop]. rewrite loop_body_factor. cbn [rbind]. rewrite IH.
    rewrite retained_ref_cons. f_equal. ring.
Qed.

(** *** Bounds on the factors, for a physical model *)

Hypothesis strength_fraction : 0 <= wake_strength self <= 1.






End WakeFacts.

Section WakeTheorems.
Context `{PythonMath}.
Import FarmLayout WakeModel.
Local Open Scope R_scope.

Lemma effective_speed_ref_eq (self : WakeModel.t) (free dir : R)
    (target : Turbine) (turbines : list Turbine) :
  crosswind_sigma_m self <> 0 ->
  0 < decay_length_m self ->
  effective_speed self free dir target turbines
  = Ok (effective_speed_ref self free dir target turbines).
Proof.
  intros Hs Hd. unfold effective_speed, effective_speed_ref.
  unfold _unit_vector_from_direction_deg, math_radians.
  rewrite loop_retained by assumption. cbn [rbind].
  f_equal. f_equal. ring.
Qed.




Lemma default_model_physical :
  0 <= wake_strength WakeModel.default <= 1
  /\ 0 < decay_length_m WakeModel.default
  /\ crosswind_sigma_m WakeModel.default <> 0.
Proof. simpl. repeat split; lra. Qed.


(** With a negative decay length the distance factor exceeds the floats
    for a source far enough upwind, and the call raises. *)
Lemma effective_speed_overflow (self : WakeModel.t) (free dir : R)
    (target src : Turbine) (turbines : list Turbine) :
  crosswind_sigma_m self <> 0 ->
  decay_length_m self <> 0 ->
  src ∈ turbines ->
  contributes (math_cos (dir * (PI / 180))) (math_sin (dir * (PI / 180)))
    target src = true ->
  exp_max_arg
  < - downwind_distance (math_cos (dir * (PI / 180)))
        (math_sin (dir * (PI / 180))) target src
      / decay_length_m self ->
  effective_speed self free dir target turbines = Err OverflowError.
Proof.
  intros Hs Hl Hin Hc Hbig.
  unfold effective_speed, _unit_vector_from_direction_deg, math_radians.
  rewrite (loop_raises self _ _ target turbines src OverflowError Hin);
    [reflexivity |].
  intros acc. apply loop_body_overflow; assumption.
Qed.

End WakeTheorems.

Section WakeExamples.
Import FarmLayout WakeModel.
Local Open Scope R_scope.

(** With the cosine and the sine themselves the direction vector has
    length one. *)
Lemma exact_direction_unit (d : R) :
  let '(ux, uy) := @_unit_vector_from_direction_deg exact_math d in
  ux ^ 2 + uy ^ 2 = 1.
Proof.
  unfold _unit_vector_from_direction_deg. simpl.
  pose proof (sin2_cos2 (math_radians d)) as Hu. unfold Rsqr in Hu. lra.
Qed.







(** Outside the physical range the order can reverse: with a negative
    strength a source upwind of the target speeds the wind up. *)
Lemma effective_speed_negative_strength :
  let m := {| wake_strength := -1; decay_length_m := 1;
              crosswind_sigma_m := 1 |} in
  exists v v' : R,
    @effective_speed exact_math m 1 0 (turbine_at "B" 1 0) [] = Ok v
    /\ @effective_speed exact_math m 1 0 (turbine_at "B" 1 0)
         [turbine_at "A" 0 0]
       = Ok v'
    /\ v < v'.
Proof.
  intros m.
  assert (Hs : crosswind_sigma_m m <> 0) by (simpl; lra).
  assert (Hd : 0 < decay_length_m m) by (simpl; lra).
  eexists. eexists.
  split; [apply effective_speed_ref_eq; assumption |].
  split; [apply effective_speed_ref_eq; assumption |].
  unfold effective_speed_ref. simpl math_cos. simpl math_sin.
  replace (0 * (PI / 180)) with 0 by ring. rewrite cos_0, sin_0.
  rewrite retained_ref_cons, retained_ref_nil.
  unfold factor_ref, contributes, loss_ref, downwind_distance,
    crosswind_offset, dot_product, perpendicular, relative_position.
  cbn [turbine_at turbine_id x_m y_m String.eqb Ascii.eqb Bool.eqb negb
       andb fst snd wake_strength decay_length_m crosswind_sigma_m m].
  destruct (Rlt_dec 0 ((1 - 0) * 1 + (0 - 0) * 0)) as [_ | Hn]; [| lra].
  pose proof (exp_pos (- Rabs ((1 - 0) * - 0 + (0 - 0) * 1) ^ 2
                       / (2 * 1 ^ 2))) as H1.
  pose proof (exp_pos (- ((1 - 0) * 1 + (0 - 0) * 0) / 1)) as H2.
  set (e1 := exp (- Rabs ((1 - 0) * - 0 + (0 - 0) * 1) ^ 2
                    / (2 * 1 ^ 2))) in *.
  set (e2 := exp (- ((1 - 0) * 1 + (0 - 0) * 0) / 1)) in *.
  assert (0 < e1 * e2) by nra.
  rewrite Rmax_right by lra.
  rewrite Rmax_right by nra.
  nra.
Qed.

(** A decay length of minus one millimetre: the distance factor of a
    source 600 m upwind is the exponential of 600000, and the call
    raises [OverflowError]. *)
Lemma effective_speed_negative_decay :
  let m := {| wake_strength := 15 / 100; decay_length_m := - (1 / 1000);
              crosswind_sigma_m := 200 |} in
  @effective_speed exact_math m 8 0 (turbine_at "T002" 600 0)
    [turbine_at "T001" 0 0; turbine_at "T002" 600 0]
  = Err OverflowError.
Proof.
  intros m.
  apply (@effective_speed_overflow exact_math m 8 0
           (turbine_at "T002" 600 0) (turbine_at "T001" 0 0)).
  - simpl. lra.
  - simpl. lra.
  - left.
  - simpl math_cos. simpl math_sin.
    replace (0 * (PI / 180)) with 0 by ring. rewrite cos_0, sin_0.
    unfold contributes, downwind_distance, dot_product, relative_position.
    cbn [turbine_at turbine_id x_m y_m String.eqb Ascii.eqb Bool.eqb negb
         andb fst snd].
    destruct (Rlt_dec 0 ((600 - 0) * 1 + (0 - 0) * 0)); [reflexivity | lra].
  - simpl math_cos. simpl math_sin.
    replace (0 * (PI / 180)) with 0 by ring. rewrite cos_0, sin_0.
    unfold downwind_distance, dot_product, relative_position, exp_max_arg.
    cbn [turbine_at x_m y_m fst snd decay_length_m m].
    replace (- ((600 - 0) * 1 + (0 - 0) * 0) / - (1 / 1000)) with 600000
      by (field; lra).
    lra.
Qed.

End WakeExamples.

(** ** The wind field *)

Section WindFieldFacts.
Context `{NumpyGenerator}.
Import WindField.

Implicit Types (h : gmap positive WindField.t) (s : list request)
  (a : positive).

(** A call on another address leaves the object at [a] alone. *)
Lemma call_frame a b (ts x y : R) h :
  a <> b -> (call b ts x y h).2 !! a = h !! a.
Proof.
  intros Hne. unfold call. destruct (h !! b) as [self |]; [| reflexivity].
  destruct (get_wind_at_turbine self ts x y) as [out self']. simpl.
  apply lookup_insert_ne. congruence.
Qed.

(** What the calls on [a] return is what the same calls return on the
    object alone, whatever else the schedule does. *)
Lemma outcomes_on_run_schedule s : forall a h (self : WindField.t),
  h !! a = Some self ->
  outcomes_on a (run_schedule s h).1
  = List.map Some (run_calls self (calls_on a s)).
Proof.
  induction s as [| [b [[ts x] y]] rest IH]; intros a h self Hself.
  - reflexivity.
  - simpl.
    destruct (call b ts x y h) as [out h1] eqn:Hcall.
    destruct (run_schedule rest h1) as [outs h2] eqn:Hrest.
    unfold outcomes_on, calls_on. simpl.
    destruct (Pos.eqb_spec b a) as [-> | Hne]; simpl.
    + unfold call in Hcall. rewrite Hself in Hcall.
      destruct (get_wind_at_turbine self ts x y) as [o self'].
      injection Hcall as <- <-.
      cbn [List.map]. f_equal.
      specialize (IH a (<[a := self']> h) self').
      rewrite Hrest in IH. apply IH.
      apply lookup_insert_eq.
    + specialize (IH a h1 self). rewrite Hrest in IH. apply IH.
      assert (E : h1 = (call b ts x y h).2) by (rewrite Hcall; reflexivity).
      rewrite E, call_frame by congruence. exact Hself.
Qed.

Lemma new_fresh (c : config) h : h !! (new c h).1 = None.
Proof.
  unfold new in *. simpl. apply not_elem_of_dom. apply is_fresh.
Qed.

Lemma new_lookup (c : config) h :
  (new c h).2 !! (new c h).1 = Some (__post_init__ c).
Proof. unfold new in *. simpl. apply lookup_insert_eq. Qed.

Lemma new_frame (c : config) h a (self : WindField.t) :
  h !! a = Some self -> (new c h).2 !! a = Some self.
Proof.
  intros Ha. pose proof (new_fresh c h) as Hf.
  unfold new in *. simpl in *.
  rewrite lookup_insert_ne; [exact Ha |].
  intros E. rewrite E in Hf. congruence.
Qed.

(** C8. Two wind fields constructed with the same parameters and the
    same seed, receiving the same sequence of calls, return the same
    (speed, direction) at every call position, however the calls on the
    two objects are interleaved with each other and with calls on other
    wind fields. *)
Theorem wind_field_reproducible (c : config) h (a1 a2 : positive)
    (h1 h2 : gmap positive WindField.t) s :
  new c h = (a1, h1) ->
  new c h1 = (a2, h2) ->
  calls_on a1 s = calls_on a2 s ->
  outcomes_on a1 (run_schedule s h2).1
  = outcomes_on a2 (run_schedule s h2).1.
Proof.
  intros H1 H2 Hs.
  assert (L1 : h1 !! a1 = Some (__post_init__ c)).
  { pose proof (new_lookup c h) as L. rewrite H1 in L. exact L. }
  assert (L2 : h2 !! a2 = Some (__post_init__ c)).
  { pose proof (new_lookup c h1) as L. rewrite H2 in L. exact L. }
  assert (L3 : h2 !! a1 = Some (__post_init__ c)).
  { pose proof (new_frame c h1 a1 _ L1) as L. rewrite H2 in L. exact L. }
  rewrite (outcomes_on_run_schedule s a1 h2 _ L3).
  rewrite (outcomes_on_run_schedule s a2 h2 _ L2).
  rewrite Hs. reflexivity.
Qed.

End WindFieldFacts.

Lemma wind_field_reproducible_witness :
  let G := counter_generator in
  let h1 := (WindField.new WindField.default ∅).2 in
  let h2 := (WindField.new WindField.default h1).2 in
  WindField.new WindField.default ∅ = (1%positive, h1)
  /\ WindField.new WindField.default h1 = (2%positive, h2)
  /\ WindField.calls_on 1 example_schedule
     = WindField.calls_on 2 example_schedule
  /\ WindField.outcomes_on 1 (WindField.run_schedule example_schedule h2).1
     = WindField.outcomes_on 2
         (WindField.run_schedule example_schedule h2).1.
Proof.
  intros G h1 h2.
  assert (E1 : WindField.new WindField.default ∅ = (1%positive, h1))
    by reflexivity.
  assert (E2 : WindField.new WindField.default h1 = (2%positive, h2))
    by reflexivity.
  assert (E3 : WindField.calls_on 1 example_schedule
               = WindField.calls_on 2 example_schedule) by reflexivity.
  split; [exact E1 | split; [exact E2 | split; [exact E3 |]]].
  exact (wind_field_reproducible WindField.default ∅ 1 2 h1 h2
           example_schedule E1 E2 E3).
Defined.

(** ** The telemetry generator *)

Section GeneratorFacts.
Context `{NumpyGenerator} `{PythonMath}.
Variable now : nat -> Z.
Import FarmLayout TelemetryGenerator.
Local Open Scope R_scope.

Lemma bands_disjoint (r : R) (b b' : band) :
  in_band b r -> in_band b' r -> b = b'.
Proof. destruct b, b'; simpl; intros; try reflexivity; lra. Qed.

(** Settle the comparisons of the draw with the band limits. *)
Ltac settle_bands :=
  repeat match goal with
    | |- context [Rlt_dec ?a ?b] => destruct (Rlt_dec a b); try lra
    | |- context [Rle_dec ?a ?b] => destruct (Rle_dec a b); try lra
    end.

Lemma inject_band (b : band) (r : R) (ws : reading) (p : R) :
  in_band b r ->
  inject r ws p
  = match b with
    | Missing => (NaN, p)
    | Negative => (Value (-5), p)
    | Spike => (ws, 99999)
    end.
Proof.
  destruct b; simpl; intros Hr; unfold inject; settle_bands; reflexivity.
Qed.

Lemma inject_none (r : R) (ws : reading) (p : R) :
  (forall b, ~ in_band b r) -> inject r ws p = (ws, p).
Proof.
  intros Hn. pose proof (Hn Missing) as H1. pose proof (Hn Negative) as H2.
  pose proof (Hn Spike) as H3. simpl in *. unfold inject.
  settle_bands; reflexivity.
Qed.

Variable self : TelemetryGenerator.t.


Lemma turbine_step_frame (t_us : Z) (t_seconds : R) (turb : Turbine)
    (st st' : state) :
  agree st st' ->
  match turbine_step now self false t_us t_seconds turb st,
        turbine_step now self true t_us t_seconds turb st' with
  | Ok (c, s0), Ok (d, s1) =>
      agree s0 s1
      /\ rng s0 = rng st
      /\ rng s1 = (random (rng st')).2
      /\ injected (random (rng st')).1 c d
  | Err e0, Err e1 => e0 = e1
  | _, _ => False
  end.
Proof.
  intros [Hwf Hck]. unfold turbine_step. rewrite <- Hwf, <- Hck.
  destruct (WindField.get_wind_at_turbine (wind_field st) t_seconds
              (x_m turb) (y_m turb)) as [[[free dir] | e] wf];
    simpl; [| reflexivity].
  destruct (match wake_model self with
            | Some wm =>
                WakeModel.effective_speed wm free dir turb
                  (turbines (farm self))
            | None => Ok free
            end) as [ws | e]; simpl; [| reflexivity].
  destruct (PowerCurve.power_kw (power_curve self) ws (rated_power_kw turb))
    as [p0 status0].
  destruct (random (rng st')) as [r g] eqn:Hr.
  change (let '(ws1, p1) := inject r (Value ws) p0 in
          agree {| wind_field := wf; rng := rng st; clock := S (clock st) |}
            {| wind_field := wf; rng := g; clock := S (clock st) |}
          /\ rng st = rng st
          /\ g = g
          /\ injected r
               {| event_time := t_us;
                  farm_id := FarmLayout.farm_id (farm self);
                  turbine_id := FarmLayout.turbine_id turb;
                  wind_speed_free_mps := free;
                  wind_speed_mps := Value ws;
                  wind_dir_deg := dir;
                  power_kw := p0;
                  rotor_speed_rpm :=
                    if Status_eqb status0 RUNNING
                    then 6 + (Rmin ws 12 - 3) * (12 / 9) else 0;
                  yaw_deg := dir;
                  status := status0;
                  sim_run_id := self_sim_run_id self;
                  ingest_time := now (clock st);
                  source := self_source self |}
               {| event_time := t_us;
                  farm_id := FarmLayout.farm_id (farm self);
                  turbine_id := FarmLayout.turbine_id turb;
                  wind_speed_free_mps := free;
                  wind_speed_mps := ws1;
                  wind_dir_deg := dir;
                  power_kw := p1;
                  rotor_speed_rpm :=
                    if Status_eqb status0 RUNNING
                    then 6 + (Rmin ws 12 - 3) * (12 / 9) else 0;
                  yaw_deg := dir;
                  status := status0;
                  sim_run_id := self_sim_run_id self;
                  ingest_time := now (clock st);
                  source := self_source self |}).
  destruct (inject r (Value ws) p0) as [ws1 p1] eqn:Hi.
  repeat split.
  - intros b Hb. rewrite (inject_band b) in Hi by exact Hb.
    destruct b; injection Hi as <- <-; reflexivity.
  - intros Hn. rewrite inject_none in Hi by exact Hn.
    injection Hi as <- <-. reflexivity.
Qed.

Lemma turbine_loop_frame (t_us : Z) (t_seconds : R) (turbs : list Turbine) :
  forall st st', agree st st' ->
  framed (rng st) (rng st')
    (turbine_loop now self false t_us t_seconds turbs st)
    (turbine_loop now self true t_us t_seconds turbs st').
Proof.
  induction turbs as [| turb rest IH]; intros st st' Hag.
  - simpl. repeat split; try apply Hag. constructor.
  - simpl.
    pose proof (turbine_step_frame t_us t_seconds turb st st' Hag) as Hstep.
    destruct (turbine_step now self false t_us t_seconds turb st)
      as [[c s0] | e0];
      destruct (turbine_step now self true t_us t_seconds turb st')
        as [[d s1] | e1]; simpl; try contradiction; [| exact Hstep].
    destruct Hstep as (Hag1 & Hg0 & Hg1 & Hinj).
    specialize (IH s0 s1 Hag1). unfold framed in IH.
    destruct (turbine_loop now self false t_us t_seconds rest s0)
      as [[cs t0] | e0];
      destruct (turbine_loop now self true t_us t_seconds rest s1)
        as [[ds t1] | e1]; simpl; try contradiction; [| exact IH].
    destruct IH as (Hag2 & Hh0 & Hh1 & Hall).
    repeat split; try apply Hag2.
    + congruence.
    + rewrite Hh1, Hg1. reflexivity.
    + constructor; [exact Hinj |]. rewrite <- Hg1. exact Hall.
Qed.

Lemma uniform_draws_add (n m : nat) : forall g,
  uniform_draws g (n + m)
  = uniform_draws g n ++ uniform_draws (advance g n) m.
Proof.
  induction n as [| n IH]; intros g; simpl; [reflexivity |].
  rewrite IH. reflexivity.
Qed.

Lemma advance_add (n m : nat) : forall g,
  advance g (n + m) = advance (advance g n) m.
Proof.
  induction n as [| n IH]; intros g; simpl; [reflexivity | apply IH].
Qed.

Lemma step_loop_frame (start dt : Z) (n : nat) :
  forall (step : Z) st st', agree st st' ->
  framed (rng st) (rng st')
    (step_loop now self false start dt step n st)
    (step_loop now self true start dt step n st').
Proof.
  induction n as [| n IH]; intros step st st' Hag.
  - simpl. repeat split; try apply Hag. constructor.
  - simpl.
    destruct (in_datetime_range (start + step * dt * 1000000));
      [| reflexivity].
    pose proof (turbine_loop_frame
                  (start + step * dt * 1000000)%Z (IZR (step * dt))
                  (turbines (farm self)) st st' Hag) as Hrow.
    unfold framed in Hrow.
    destruct (turbine_loop now self false _ _ _ st) as [[cs s0] | e0];
      destruct (turbine_loop now self true _ _ _ st') as [[ds s1] | e1];
      simpl; try contradiction; [| exact Hrow].
    destruct Hrow as (Hag1 & Hg0 & Hg1 & Hall1).
    specialize (IH (step + 1)%Z s0 s1 Hag1). unfold framed in IH.
    destruct (step_loop now self false start dt (step + 1) n s0)
      as [[cs' t0] | e0];
      destruct (step_loop now self true start dt (step + 1) n s1)
        as [[ds' t1] | e1]; simpl; try contradiction; [| exact IH].
    destruct IH as (Hag2 & Hh0 & Hh1 & Hall2).
    repeat split; try apply Hag2.
    + congruence.
    + rewrite length_app, advance_add, <- Hg1. exact Hh1.
    + rewrite length_app, uniform_draws_add.
      apply Forall3_app; [exact Hall1 |]. rewrite <- Hg1. exact Hall2.
Qed.

Lemma duplicates_from_rows (rows : list row) (idx : list nat) (d : row) :
  d ∈ omap (fun i => rows !! i) idx -> d ∈ rows.
Proof.
  intros Hd. apply list_elem_of_omap in Hd as (i & _ & Hi).
  eapply list_elem_of_lookup_2. exact Hi.
Qed.

(** C10. Anomaly injection changes only the targeted field.  Run
    [generate] twice from the same state, without and with injection:
    both fail alike, or the injecting run returns one row per row of the
    clean run followed by duplicates of its own rows; its i-th row is the
    i-th clean row with the anomaly of the i-th uniform draw applied.  A
    draw in the first band replaces [wind_speed_mps] by not-a-number, in
    the second by -5.0, in the third it replaces [power_kw] by 99999.0,
    and every other field (power, status, rotor speed, yaw, identity and
    time fields) keeps the value computed from the uncorrupted wind
    speed; a draw in no band changes nothing.  No draw is in two
    bands. *)
Theorem generate_injection_frame (start_time_utc : Z) (duration_hours : R)
    (dt_seconds : Z) (st : state) :
  (forall (r : R) (b b' : band), in_band b r -> in_band b' r -> b = b')
  /\ match generate now self start_time_utc duration_hours dt_seconds
             false st,
           generate now self start_time_utc duration_hours dt_seconds
             true st with
     | Ok (clean, _), Ok (dirty, _) =>
         exists base dups : list row,
           dirty = base ++ dups
           /\ Forall3 injected (uniform_draws (rng st) (length clean))
                clean base
           /\ (forall d, d ∈ dups -> d ∈ base)
     | Err e0, Err e1 => e0 = e1
     | _, _ => False
     end.
Proof.
  split; [apply bands_disjoint |].
  unfold generate.
  destruct (Z.eqb dt_seconds 0); [reflexivity |].
  destruct (float_overflows (duration_hours * 3600)
            || float_overflows (IZR dt_seconds)); [reflexivity |].
  set (n := Z.to_nat _).
  assert (Hag : agree st st) by (split; reflexivity).
  pose proof (step_loop_frame start_time_utc dt_seconds n 0%Z st st Hag)
    as Hloop.
  unfold framed in Hloop.
  destruct (step_loop now self false start_time_utc dt_seconds 0 n st)
    as [[cs s0] | e0];
    destruct (step_loop now self true start_time_utc dt_seconds 0 n st)
      as [[ds s1] | e1]; simpl; try contradiction; [| exact Hloop].
  destruct Hloop as (_ & _ & _ & Hall).
  destruct (negb (Nat.eqb (length ds) 0)).
  - unfold append_duplicates.
    destruct (choice (rng s1) (length ds)
                (Nat.max 1 (2 * length ds / 1000))) as [idx g].
    exists ds, (omap (fun i => ds !! i) idx).
    split; [reflexivity |]. split; [exact Hall |].
    intros d. apply duplicates_from_rows.
  - exists ds, []. rewrite app_nil_r.
    split; [reflexivity |]. split; [exact Hall |].
    intros d Hd. inversion Hd.
Qed.

End GeneratorFacts.

Lemma generate_injection_frame_witness :
  TelemetryGenerator.in_band TelemetryGenerator.Negative (3 / 1000)
  /\ forall b,
       TelemetryGenerator.in_band b (3 / 1000) ->
       TelemetryGenerator.Negative = b.
Proof.
  assert (Hr : TelemetryGenerator.in_band TelemetryGenerator.Negative
                 (3 / 1000)) by (simpl; lra).
  split; [exact Hr |].
  intros b Hb.
  destruct (@generate_injection_frame counter_generator exact_math
              (fun _ => 0%Z) example_generator 0 1 60 example_state)
    as [Hbands _].
  exact (Hbands _ _ _ Hr Hb).
Defined.

(** ** The state store *)

Section StateStoreFacts.
Import StateStore.

Lemma insert_sorted_perm (s : string) (l : list string) :
  insert_sorted s l ≡ₚ s :: l.
Proof.
  induction l as [| x rest IH]; simpl; [reflexivity |].
  destruct (String.leb s x); [reflexivity |].
  rewrite IH. apply Permutation_swap.
Qed.

Lemma sorted_perm (items : gset string) : sorted items ≡ₚ elements items.
Proof.
  unfold sorted. induction (elements items) as [| x rest IH]; simpl.
  - reflexivity.
  - rewrite insert_sorted_perm, IH. reflexivity.
Qed.

(** What [save_set] stores, [load_set] returns. *)
Lemma load_save_set (name : string) (items : gset string)
    (fs : gmap string (list string)) :
  load_set name (save_set name items fs) = items.
Proof.
  unfold load_set, save_set. rewrite lookup_insert_eq.
  apply set_eq. intros x.
  rewrite elem_of_list_to_set, sorted_perm. apply elem_of_elements.
Qed.

Lemma load_save_set_ne (name name' : string) (items : gset string)
    (fs : gmap string (list string)) :
  name <> name' -> load_set name' (save_set name items fs) = load_set name' fs.
Proof.
  intros Hne. unfold load_set, save_set.
  rewrite lookup_insert_ne by exact Hne. reflexivity.
Qed.

End StateStoreFacts.

(** ** Raw ingest *)

Section BronzeFacts.
Import Schema BronzeWriter.
Local Open Scope string_scope.

Lemma index_of_Some_iff (col : string) (cols : list string) :
  (exists i, index_of col cols = Some i) <-> col ∈ cols.
Proof.
  induction cols as [| c rest IH]; simpl.
  - split; [intros [i Hi]; discriminate | intros Hin; inversion Hin].
  - destruct (String.eqb_spec c col) as [-> | Hne].
    + split; [intros _; left | intros _; eexists; reflexivity].
    + rewrite elem_of_cons, <- IH. split.
      * intros [i Hi]. right.
        destruct (index_of col rest) as [j |]; [eauto | discriminate].
      * intros [E | [j Hj]]; [congruence |]. rewrite Hj. eexists. reflexivity.
Qed.

Lemma has_column_true_iff (df : DataFrame) (col : string) :
  has_column df col = true <-> col ∈ columns df.
Proof.
  rewrite <- index_of_Some_iff. unfold has_column.
  destruct (index_of col (columns df)) as [i |].
  - split; [eauto | reflexivity].
  - split; [discriminate | intros [i Hi]; discriminate].
Qed.

(** Nothing is missing exactly when the frame has every required
    column. *)
Lemma missing_nil_iff (df : DataFrame) :
  missing df = [] <-> Forall (fun c => c ∈ columns df) required.
Proof.
  unfold missing. induction required as [| c rest IH]; simpl.
  - split; [constructor | reflexivity].
  - rewrite Forall_cons, <- IH, <- has_column_true_iff.
    destruct (has_column df c); simpl.
    + split; [intros E; split; [reflexivity | exact E] | intros [_ E]; exact E].
    + split; [discriminate | intros [E _]; discriminate].
Qed.

Variable self : BronzeWriter.t.
Variable uuid_hex : string.
Variable o : Store.outcome Telemetry.

(** The two input errors of [write]. *)
Lemma write_empty (df : DataFrame) (w : world) :
  empty df = true ->
  write self uuid_hex o df w
  = (Err (ValueError "BronzeWriter received empty dataframe"), w).
Proof. intros He. unfold write. rewrite He. reflexivity. Qed.

Lemma write_missing (df : DataFrame) (w : world) :
  empty df = false ->
  missing df <> [] ->
  write self uuid_hex o df w
  = (Err (ValueError ("Missing required columns: "
                      ++ repr_list (missing df))), w).
Proof.
  intros He Hm. unfold write. rewrite He.
  destruct (missing df) as [| c rest]; [contradiction | reflexivity].
Qed.

Lemma for_rows_Err {A B} (f : A -> result B) (l : list A) (e : error) :
  for_rows f l = Err e -> exists a, a ∈ l /\ f a = Err e.
Proof.
  induction l as [| a rest IH]; simpl; [discriminate |].
  destruct (f a) as [b | e'] eqn:Ha; simpl.
  - destruct (for_rows f rest) as [bs | e'']; simpl; [discriminate |].
    intros E. injection E as ->.
    destruct IH as (a' & Hin & Ha'); [reflexivity |].
    exists a'. split; [right; exact Hin | exact Ha'].
  - intros E. injection E as ->. exists a. split; [left | exact Ha].
Qed.

Lemma to_ms_error (col : string) (c : option cell) (e : error) :
  to_ms col c = Err e -> e = ConversionError col.
Proof. destruct c as [[] |]; simpl; congruence. Qed.

Lemma to_str_error (col : string) (c : option cell) (e : error) :
  to_str col c = Err e -> e = ConversionError col.
Proof. destruct c as [[] |]; simpl; congruence. Qed.

Lemma to_float_error (col : string) (c : option cell) (e : error) :
  to_float col c = Err e -> e = ConversionError col.
Proof. destruct c as [[] |]; simpl; congruence. Qed.

Lemma to_telemetry_error (df : DataFrame) (row : list cell) (ev ing : Z)
    (e : error) :
  to_telemetry df row ev ing = Err e -> exists col, e = ConversionError col.
Proof.
  unfold to_telemetry.
  repeat (match goal with
          | |- rbind (to_str ?c ?x) _ = _ -> _ =>
              destruct (to_str c x) eqn:?; simpl;
              [| intros E; injection E as <-; eexists;
                 eapply to_str_error; eassumption]
          | |- rbind (to_float ?c ?x) _ = _ -> _ =>
              destruct (to_float c x) eqn:?; simpl;
              [| intros E; injection E as <-; eexists;
                 eapply to_float_error; eassumption]
          end).
  discriminate.
Qed.

(** [convert] raises a [ConversionError] or a [KeyError], if it raises. *)
Lemma convert_error (df : DataFrame) (e : error) :
  convert df = Err e ->
  (exists col, e = ConversionError col) \/ (exists cols, e = KeyError cols).
Proof.
  unfold convert.
  match goal with
  | |- rbind ?x _ = _ -> _ => destruct x as [evs | e1] eqn:H1; cbn [rbind]
  end.
  2: { intros E. injection E as <-. left.
       apply for_rows_Err in H1 as (row & _ & Hrow).
       eexists. eapply to_ms_error. exact Hrow. }
  match goal with
  | |- rbind ?x _ = _ -> _ => destruct x as [ings | e2] eqn:H2; cbn [rbind]
  end.
  2: { intros E. injection E as <-. left.
       apply for_rows_Err in H2 as (row & _ & Hrow).
       eexists. eapply to_ms_error. exact Hrow. }
  destruct (List.filter _ _) as [| c rest].
  - intros H3. left.
    apply for_rows_Err in H3 as (x & _ & Hx).
    eapply to_telemetry_error. exact Hx.
  - intros E. injection E as <-. right. eexists. reflexivity.
Qed.

(** Past the validation, [write] raises no [ValueError]. *)
Lemma write_valid_not_input_error (df : DataFrame) (w : world) (msg : string) :
  empty df = false ->
  missing df = [] ->
  (write self uuid_hex o df w).1 <> Err (ValueError msg).
Proof.
  intros He Hm. unfold write. rewrite He, Hm.
  destruct (convert df) as [table | e] eqn:Hconv.
  - destruct o as [| left_behind]; simpl; discriminate.
  - simpl. apply convert_error in Hconv as [[col ->] | [cols ->]];
      discriminate.
Qed.

(** When [write] changes the world, the validation has passed. *)
Lemma write_changes_after_validation (df : DataFrame) (w : world) :
  (write self uuid_hex o df w).2 <> w ->
  empty df = false /\ missing df = [].
Proof.
  intros Hw. destruct (empty df) eqn:He.
  - rewrite write_empty in Hw by exact He. contradiction.
  - split; [reflexivity |].
    destruct (missing df) as [| c rest] eqn:Hm; [reflexivity |].
    rewrite write_missing in Hw; [contradiction | exact He |].
    rewrite Hm. discriminate.
Qed.

End BronzeFacts.

Section BronzeContract.
Import Schema BronzeWriter.
Local Open Scope string_scope.

(** C9. [BronzeWriter.write] raises its input error, and leaves the world
    as it was, when the frame is empty and when the frame lacks one of
    the required identity and time columns; on a non-empty frame that has
    them all it raises no input error; and whenever the call changes
    anything in the world the frame had passed both checks. *)
Theorem bronze_write_input_contract (self : BronzeWriter.t)
    (uuid_hex : string) (o : Store.outcome Telemetry) (df : DataFrame)
    (w : world) :
  (empty df = true ->
   write self uuid_hex o df w
   = (Err (ValueError "BronzeWriter received empty dataframe"), w))
  /\ (empty df = false ->
      ~ Forall (fun c => c ∈ columns df) required ->
      write self uuid_hex o df w
      = (Err (ValueError ("Missing required columns: "
                          ++ repr_list (missing df))), w))
  /\ (empty df = false ->
      Forall (fun c => c ∈ columns df) required ->
      forall msg, (write self uuid_hex o df w).1 <> Err (ValueError msg))
  /\ ((write self uuid_hex o df w).2 <> w ->
      empty df = false /\ Forall (fun c => c ∈ columns df) required).
Proof.
  split; [apply write_empty |].
  split.
  { intros He Hn. apply write_missing; [exact He |].
    rewrite missing_nil_iff. exact Hn. }
  split.
  { intros He Hall msg. apply write_valid_not_input_error; [exact He |].
    apply missing_nil_iff. exact Hall. }
  intros Hw. apply write_changes_after_validation in Hw as [He Hm].
  split; [exact He | apply missing_nil_iff; exact Hm].
Qed.

End BronzeContract.

Lemma bronze_write_input_contract_witness :
  BronzeWriter.empty example_frame = false
  /\ Forall (fun c => c ∈ BronzeWriter.columns example_frame)
       BronzeWriter.required
  /\ (BronzeWriter.write BronzeWriter.default "ab12" Store.Completes
        example_frame empty_world).1
     <> Err (ValueError "BronzeWriter received empty dataframe").
Proof.
  assert (He : BronzeWriter.empty example_frame = false) by reflexivity.
  assert (Hc : Forall (fun c => c ∈ BronzeWriter.columns example_frame)
                 BronzeWriter.required)
    by (apply missing_nil_iff; reflexivity).
  split; [exact He | split; [exact Hc |]].
  destruct (bronze_write_input_contract BronzeWriter.default "ab12"
              Store.Completes example_frame empty_world)
    as (_ & _ & Hvalid & _).
  exact (Hvalid He Hc _).
Defined.

(** The well-formed frame is ingested: one file, one row, floored to the
    millisecond. *)
Example bronze_write_example :
  let out := BronzeWriter.write BronzeWriter.default "ab12" Store.Completes
               example_frame empty_world in
  out.1 = Ok tt
  /\ (List.map fst <$> bronze out.2
      = Some [("data_lake/bronze/sim_run_id=SIM-A/farm_id=F001"
               ++ "/date=2026-01-05/hour=2026-01-05T03:00:00Z"
               ++ "/part-ab12-0.parquet")%string])
  /\ (List.map Schema.event_time ∘ Store.read <$> bronze out.2
      = Some [1767582000123%Z]).
Proof. vm_compute. repeat split. Qed.

(** An empty frame, and a frame without [sim_run_id], are refused and
    nothing is written. *)
Example bronze_write_refused :
  BronzeWriter.write BronzeWriter.default "ab12" Store.Completes
    {| BronzeWriter.columns := example_columns; BronzeWriter.rows := [] |}
    empty_world
  = (Err (ValueError "BronzeWriter received empty dataframe"), empty_world)
  /\ BronzeWriter.write BronzeWriter.default "ab12" Store.Completes
       {| BronzeWriter.columns := ["event_time"; "farm_id"]%string;
          BronzeWriter.rows :=
            [[BronzeWriter.CTime 0; BronzeWriter.CStr "F"]] |}
       empty_world
     = (Err (ValueError
               "Missing required columns: ['ingest_time', 'sim_run_id']"),
        empty_world).
Proof. split; reflexivity. Qed.

(** ** Range flags *)

Section RangeFlagFacts.
Import Schema SilverJob.
Local Open Scope string_scope.

(** A value is bad when it is missing, below the low bound, or above the
    high bound. *)
Lemma bad_true_iff (lo hi x : Float.t) :
  bad lo hi x = true
  <-> Float.isna x = true \/ Float.ltb x lo = true \/ Float.gtb x hi = true.
Proof.
  unfold bad. rewrite !orb_true_iff. tauto.
Qed.

Lemma ltb_Fin (x y : Q) :
  Float.ltb (Float.Fin x) (Float.Fin y) = true <-> (x < y)%Q.
Proof.
  simpl. rewrite negb_true_iff, <- not_true_iff_false, Qle_bool_iff.
  split; [apply Qnot_le_lt | apply Qlt_not_le].
Qed.

(** On numbers: below the low bound or above the high bound, either bound
    itself being in range. *)
Lemma bad_Fin_iff (lo hi x : Q) :
  bad (Float.Fin lo) (Float.Fin hi) (Float.Fin x) = true
  <-> (x < lo)%Q \/ (hi < x)%Q.
Proof.
  rewrite bad_true_iff. unfold Float.gtb. rewrite !ltb_Fin. simpl.
  split; [intros [E | H]; [discriminate | exact H] | intros H; right; exact H].
Qed.

Lemma bad_NaN (lo hi : Float.t) : bad lo hi Float.NaN = true.
Proof. reflexivity. Qed.

Lemma map_if_none {A} (p : A -> bool) (f : A -> A) (l : list A) :
  existsb p l = false -> List.map (fun a => if p a then f a else a) l = l.
Proof.
  induction l as [| a rest IH]; simpl; [reflexivity |].
  rewrite orb_false_iff. intros [Ha Hrest]. rewrite Ha, IH by exact Hrest.
  reflexivity.
Qed.

(** The guard [if bad.any()] changes nothing: a pass is a map. *)
Lemma flag_map (col : string) (range : Float.t * Float.t)
    (get : Telemetry -> Float.t) (df : list Curated) :
  float_column col = Some get ->
  flag col range df = List.map (flag_row col range get) df.
Proof.
  intros Hcol. unfold flag. rewrite Hcol.
  destruct (existsb _ df) eqn:Hany; [reflexivity |].
  symmetry. apply (map_if_none _ _ _ Hany).
Qed.

Lemma add_range_flags_flagged (self : SilverJob.t) (df : list Curated) :
  _add_range_flags self df = List.map (flagged (constraints self)) df.
Proof.
  unfold _add_range_flags.
  rewrite (flag_map "wind_speed_mps" _ wind_speed_mps) by reflexivity.
  rewrite (flag_map "wind_dir_deg" _ wind_dir_deg) by reflexivity.
  rewrite (flag_map "rotor_speed_rpm" _ rotor_speed_rpm) by reflexivity.
  rewrite (flag_map "yaw_deg" _ yaw_deg) by reflexivity.
  rewrite (flag_map "power_kw" _ power_kw) by reflexivity.
  rewrite !List.map_map. apply List.map_ext. intros r.
  unfold flag_row, flagged, violations, checks.
  cbn [List.filter List.map fst snd
       base is_duplicate has_range_violation range_violation_fields].
  destruct (bad _ _ (wind_speed_mps (base r)));
    cbn [base is_duplicate has_range_violation range_violation_fields];
    destruct (bad _ _ (wind_dir_deg (base r)));
    cbn [base is_duplicate has_range_violation range_violation_fields];
    destruct (bad _ _ (rotor_speed_rpm (base r)));
    cbn [base is_duplicate has_range_violation range_violation_fields];
    destruct (bad _ _ (yaw_deg (base r)));
    cbn [base is_duplicate has_range_violation range_violation_fields];
    destruct (bad _ _ (power_kw (base r)));
    reflexivity.
Qed.

Lemma violations_elem_of (c : TelemetryConstraints) (r : Telemetry)
    (name : string) :
  name ∈ violations c r
  <-> exists get range,
        (name, get, range) ∈ checks c /\ bad range.1 range.2 (get r) = true.
Proof.
  unfold violations. rewrite list_elem_of_In, in_map_iff. split.
  - intros ([[n get] range] & <- & Hin). apply filter_In in Hin as [Hin Hbad].
    exists get, range. split; [apply list_elem_of_In; exact Hin | exact Hbad].
  - intros (get & range & Hin & Hbad). exists (name, get, range).
    split; [reflexivity |]. apply filter_In.
    split; [apply list_elem_of_In; exact Hin | exact Hbad].
Qed.

Lemma violations_in_check_order (c : TelemetryConstraints) (r : Telemetry) :
  sublist (violations c r)
    ["wind_speed_mps"; "wind_dir_deg"; "rotor_speed_rpm"; "yaw_deg";
     "power_kw"].
Proof.
  unfold violations, checks. cbn [List.filter List.map fst snd].
  destruct (bad _ _ (wind_speed_mps r)); destruct (bad _ _ (wind_dir_deg r));
    destruct (bad _ _ (rotor_speed_rpm r)); destruct (bad _ _ (yaw_deg r));
    destruct (bad _ _ (power_kw r)); cbn [List.map fst snd];
    repeat first [apply sublist_nil | apply sublist_skip | apply sublist_cons].
Qed.

Lemma has_range_violation_flagged (c : TelemetryConstraints) (r : Curated) :
  has_range_violation (flagged c r) = true <-> violations c (base r) <> [].
Proof.
  unfold flagged. cbn [has_range_violation].
  destruct (violations c (base r)); simpl; split; congruence.
Qed.

(** C7, amended.  [_add_range_flags] sets the two flag columns of every
    row from the checks in their order (wind_speed_mps, wind_dir_deg,
    rotor_speed_rpm, yaw_deg, power_kw): a field is flagged if and only if
    its value is missing, below its low bound, or above its high bound;
    both bounds are themselves in range; [has_range_violation] is true
    exactly when a field is flagged; [range_violation_fields] is the
    comma-joined list of the flagged labels in check order.  Under the
    default ranges a row with wind_speed_mps = -5.0 has the flag set and
    wind_speed_mps among its fields. *)
Theorem range_flags_inclusive_bounds (self : SilverJob.t)
    (df : list Curated) :
  let c := constraints self in
  _add_range_flags self df = List.map (flagged c) df
  /\ (forall r,
        (has_range_violation (flagged c r) = true
         <-> violations c (base r) <> [])
        /\ range_violation_fields (flagged c r)
           = join_comma (violations c (base r))
        /\ sublist (violations c (base r))
             ["wind_speed_mps"; "wind_dir_deg"; "rotor_speed_rpm";
              "yaw_deg"; "power_kw"])
  /\ (forall r name,
        name ∈ violations c r
        <-> exists get range,
              (name, get, range) ∈ checks c
              /\ bad range.1 range.2 (get r) = true)
  /\ (forall lo hi x,
        bad lo hi x = true
        <-> Float.isna x = true \/ Float.ltb x lo = true
            \/ Float.gtb x hi = true)
  /\ (forall lo hi x : Q,
        bad (Float.Fin lo) (Float.Fin hi) (Float.Fin x) = true
        <-> (x < lo)%Q \/ (hi < x)%Q)
  /\ (forall lo hi : Q,
        (lo <= hi)%Q ->
        bad (Float.Fin lo) (Float.Fin hi) (Float.Fin lo) = false
        /\ bad (Float.Fin lo) (Float.Fin hi) (Float.Fin hi) = false)
  /\ (c = default_constraints ->
      forall r,
        wind_speed_mps (base r) = Float.Fin (-5) ->
        has_range_violation (flagged c r) = true
        /\ "wind_speed_mps" ∈ violations c (base r)).
Proof.
  intros c.
  split; [apply add_range_flags_flagged |].
  split.
  { intros r. split; [apply has_range_violation_flagged |].
    split; [reflexivity | apply violations_in_check_order]. }
  split; [apply violations_elem_of |].
  split; [apply bad_true_iff |].
  split; [apply bad_Fin_iff |].
  split.
  { intros lo hi Hle. split; apply not_true_iff_false; rewrite bad_Fin_iff.
    - intros [Hlt | Hlt]; [apply (Qlt_irrefl lo Hlt) |].
      apply (Qlt_irrefl lo). eapply Qle_lt_trans; eassumption.
    - intros [Hlt | Hlt]; [| apply (Qlt_irrefl hi Hlt)].
      apply (Qlt_irrefl lo). eapply Qle_lt_trans; eassumption. }
  intros -> r Hws.
  assert (Hin : "wind_speed_mps" ∈ violations default_constraints (base r)).
  { apply violations_elem_of.
    exists wind_speed_mps, (Float.Fin 0, Float.Fin 60).
    split; [left | rewrite Hws; reflexivity]. }
  split; [| exact Hin].
  apply has_range_violation_flagged. intros E. rewrite E in Hin.
  inversion Hin.
Qed.

End RangeFlagFacts.

Lemma range_flags_inclusive_bounds_witness :
  SilverJob.constraints SilverJob.default = Schema.default_constraints
  /\ Schema.wind_speed_mps (Schema.base (example_curated (Float.Fin (-5))))
     = Float.Fin (-5)
  /\ Schema.has_range_violation
       (SilverJob.flagged Schema.default_constraints
          (example_curated (Float.Fin (-5)))) = true
  /\ "wind_speed_mps"%string
     ∈ SilverJob.violations Schema.default_constraints
         (Schema.base (example_curated (Float.Fin (-5)))).
Proof.
  assert (H1 : SilverJob.constraints SilverJob.default
               = Schema.default_constraints) by reflexivity.
  assert (H2 : Schema.wind_speed_mps
                 (Schema.base (example_curated (Float.Fin (-5))))
               = Float.Fin (-5)) by reflexivity.
  split; [exact H1 | split; [exact H2 |]].
  destruct (range_flags_inclusive_bounds SilverJob.default [])
    as (_ & _ & _ & _ & _ & _ & Hex).
  exact (Hex H1 (example_curated (Float.Fin (-5))) H2).
Defined.

(** The upper bound is not exclusive: a wind speed of exactly 60.0 lies
    outside the inclusive-exclusive range from 0 to 60, and the row is not
    flagged. *)
Lemma range_high_bound_not_flagged :
  SilverJob.in_range_inclusive_exclusive (Float.Fin 0) (Float.Fin 60)
    (Float.Fin 60) = false
  /\ SilverJob.bad (Float.Fin 0) (Float.Fin 60) (Float.Fin 60) = false
  /\ SilverJob._add_range_flags SilverJob.default
       [example_curated (Float.Fin 60)]
     = [example_curated (Float.Fin 60)].
Proof. repeat split; reflexivity. Qed.

(** The flags of a row with several fields out of range. *)
Example range_flags_example :
  List.map
    (fun r => (Schema.has_range_violation r, Schema.range_violation_fields r))
    (SilverJob._add_range_flags SilverJob.default
       [ example_curated (Float.Fin (-5));
         example_curated Float.NaN;
         {| Schema.base :=
              {| Schema.event_time := 0; Schema.farm_id := "F001";
                 Schema.turbine_id := "T001";
                 Schema.wind_speed_free_mps := Float.Fin 8;
                 Schema.wind_speed_mps := Float.Fin 61;
                 Schema.wind_dir_deg := Float.Fin 360;
                 Schema.power_kw := Float.Fin 99999;
                 Schema.rotor_speed_rpm := Float.Fin 10;
                 Schema.yaw_deg := Float.Fin 361;
                 Schema.status := "RUNNING"; Schema.sim_run_id := "SIM-A";
                 Schema.ingest_time := 0; Schema.source := "simulator" |};
            Schema.is_duplicate := false;
            Schema.has_range_violation := false;
            Schema.range_violation_fields := "" |};
         example_curated (Float.Fin 7) ])
  = [ (true, "wind_speed_mps"); (true, "wind_speed_mps");
      (true, "wind_speed_mps,yaw_deg,power_kw"); (false, "") ]%string.
Proof. reflexivity. Qed.

(** ** Deduplication *)

Section KeyOrder.
Import Schema SilverJob.

Implicit Types a b c : Z * string * string.

Lemma string_compare_refl (s : string) : String.compare s s = Eq.
Proof.
  pose proof (String.compare_antisym s s) as H.
  destruct (String.compare s s); simpl in H; congruence.
Qed.

Lemma string_compare_trans (s1 s2 s3 : string) :
  String.compare s1 s2 = Lt -> String.compare s2 s3 = Lt ->
  String.compare s1 s3 = Lt.
Proof.
  intros H1 H2.
  exact (@StrictOrder_Transitive _ _ String_as_OT.lt_strorder s1 s2 s3 H1 H2).
Qed.

(** [key_compare] is the lexicographic order of the three columns. *)
Lemma key_compare_Lt_iff a b :
  key_compare a b = Lt
  <-> (a.1.1 < b.1.1)%Z
      \/ (a.1.1 = b.1.1
          /\ (String.compare a.1.2 b.1.2 = Lt
              \/ (a.1.2 = b.1.2 /\ String.compare a.2 b.2 = Lt))).
Proof.
  unfold key_compare.
  destruct (Z.compare_spec a.1.1 b.1.1) as [E | L | G].
  - destruct (String.compare a.1.2 b.1.2) eqn:Hs.
    + apply String.compare_eq_iff in Hs. split.
      * intros H. right. split; [exact E |]. right. split; assumption.
      * intros [H | [_ [H | [_ H]]]]; [lia | discriminate | exact H].
    + split; [intros _; right; split; [exact E | left; reflexivity]
             | reflexivity].
    + split; [discriminate |].
      intros [H | [_ [H | [H _]]]]; [lia | discriminate |].
      rewrite H, string_compare_refl in Hs. discriminate.
  - split; [intros _; left; exact L | reflexivity].
  - split; [discriminate | intros [H | [H _]]; lia].
Qed.

Lemma key_compare_Eq_iff a b : key_compare a b = Eq <-> a = b.
Proof.
  unfold key_compare. split.
  - destruct (Z.compare_spec a.1.1 b.1.1) as [E | L | G]; try discriminate.
    destruct (String.compare a.1.2 b.1.2) eqn:Hs; try discriminate.
    intros Ht. apply String.compare_eq_iff in Hs, Ht.
    destruct a as [[a1 a2] a3], b as [[b1 b2] b3]. simpl in *. congruence.
  - intros ->. rewrite Z.compare_refl, !string_compare_refl. reflexivity.
Qed.

Lemma key_compare_antisym a b :
  key_compare a b = CompOpp (key_compare b a).
Proof.
  unfold key_compare.
  rewrite (Z.compare_antisym a.1.1 b.1.1).
  rewrite (String.compare_antisym b.1.2 a.1.2).
  rewrite (String.compare_antisym b.2 a.2).
  destruct (Z.compare a.1.1 b.1.1); simpl; try reflexivity.
  destruct (String.compare a.1.2 b.1.2); simpl; try reflexivity.
  destruct (String.compare a.2 b.2); reflexivity.
Qed.

Lemma key_lt_trans a b c : key_lt a b -> key_lt b c -> key_lt a c.
Proof.
  unfold key_lt. rewrite !key_compare_Lt_iff.
  intros [H1 | [E1 [H1 | [F1 H1]]]] [H2 | [E2 [H2 | [F2 H2]]]];
    try (left; lia); right; (split; [congruence |]).
  - left. eapply string_compare_trans; eassumption.
  - left. rewrite F2 in H1. exact H1.
  - left. rewrite F1. exact H2.
  - right. split; [congruence |].
    eapply string_compare_trans; eassumption.
Qed.

Lemma key_le_iff a b : key_le a b <-> key_lt a b \/ a = b.
Proof.
  unfold key_le, key_leb, key_lt. rewrite <- key_compare_Eq_iff.
  destruct (key_compare a b); split; intros H; try discriminate; auto;
    destruct H; discriminate.
Qed.

Lemma key_le_trans a b c : key_le a b -> key_le b c -> key_le a c.
Proof.
  rewrite !key_le_iff. intros [H1 | ->] [H2 | ->]; auto.
  left. eapply key_lt_trans; eassumption.
Qed.

(** The order is total: a failed test means the converse holds
    strictly. *)
Lemma key_leb_false a b : key_leb a b = false -> key_lt b a.
Proof.
  unfold key_leb, key_lt. rewrite (key_compare_antisym b a).
  destruct (key_compare a b); simpl; congruence.
Qed.

Lemma key_lt_neq a b : key_lt a b -> a <> b.
Proof.
  unfold key_lt. intros H ->.
  rewrite (proj2 (key_compare_Eq_iff b b) eq_refl) in H. discriminate.
Qed.

End KeyOrder.

Section SortFacts.
Import Schema SilverJob.

Implicit Types (r x : Curated) (l df : list Curated).

Lemma insert_perm r l : insert r l ≡ₚ r :: l.
Proof.
  induction l as [| x rest IH]; simpl; [reflexivity |].
  destruct (key_leb _ _); [reflexivity |].
  rewrite IH. apply Permutation_swap.
Qed.

Lemma sort_values_perm l : sort_values l ≡ₚ l.
Proof.
  unfold sort_values. induction l as [| r rest IH]; simpl; [reflexivity |].
  rewrite insert_perm, IH. reflexivity.
Qed.

(** Insertion puts a row in front of the rows of its own key. *)
Lemma rows_with_key_insert k r l :
  rows_with_key k (insert r l)
  = if bool_decide (key (base r) = k)
    then r :: rows_with_key k l else rows_with_key k l.
Proof.
  induction l as [| x rest IH]; simpl; [reflexivity |].
  destruct (key_leb (key (base r)) (key (base x))) eqn:Hle; simpl.
  - reflexivity.
  - rewrite IH. apply key_leb_false, key_lt_neq in Hle.
    destruct (bool_decide_reflect (key (base r) = k)) as [Hr | Hr];
      [| reflexivity].
    rewrite bool_decide_eq_false_2 by congruence. reflexivity.
Qed.

(** The sort is stable: rows of equal key keep their frame order. *)
Lemma rows_with_key_sort_values k l :
  rows_with_key k (sort_values l) = rows_with_key k l.
Proof.
  unfold sort_values. induction l as [| r rest IH]; simpl; [reflexivity |].
  rewrite rows_with_key_insert, IH. reflexivity.
Qed.

Lemma insert_ascending r l : ascending l -> ascending (insert r l).
Proof.
  unfold ascending. induction 1 as [| x rest Hrest IH Hx]; simpl.
  - repeat constructor.
  - destruct (key_leb (key (base r)) (key (base x))) eqn:Hle.
    + constructor; [constructor; assumption |].
      constructor; [exact Hle |].
      eapply Forall_impl; [exact Hx |]. intros y Hy.
      eapply key_le_trans; [exact Hle | exact Hy].
    + constructor; [exact IH |].
      rewrite insert_perm. constructor; [| exact Hx].
      apply key_le_iff. left. apply key_leb_false. exact Hle.
Qed.

Lemma sort_values_ascending l : ascending (sort_values l).
Proof.
  unfold sort_values. induction l as [| r rest IH]; simpl.
  - constructor.
  - apply insert_ascending. exact IH.
Qed.

(** [drop_duplicates] keeps the first row of every key. *)
Lemma drop_duplicates_from seen l :
  List.map fst (List.filter (fun p => negb p.2) (zip l (duplicated seen l)))
  = keep_first seen l.
Proof.
  revert seen. induction l as [| r rest IH]; intros seen; simpl;
    [reflexivity |].
  destruct (bool_decide (key (base r) ∈ seen)); simpl; rewrite IH;
    reflexivity.
Qed.

Lemma drop_duplicates_keep_first l : drop_duplicates l = keep_first [] l.
Proof. apply drop_duplicates_from. Qed.

Lemma rows_with_key_keep_first k l : forall seen,
  rows_with_key k (keep_first seen l)
  = if bool_decide (k ∈ seen) then [] else take 1 (rows_with_key k l).
Proof.
  induction l as [| r rest IH]; intros seen; simpl.
  - destruct (bool_decide _); reflexivity.
  - destruct (bool_decide_reflect (key (base r) ∈ seen)) as [Hin | Hnin].
    + rewrite IH.
      destruct (bool_decide_reflect (k ∈ seen)) as [Hk | Hk].
      * rewrite bool_decide_eq_true_2 by (right; exact Hk). reflexivity.
      * assert (Hne : key (base r) <> k) by congruence.
        rewrite (bool_decide_eq_false_2 (key (base r) = k)) by exact Hne.
        rewrite bool_decide_eq_false_2; [reflexivity |].
        rewrite elem_of_cons. intros [E | E]; congruence.
    + simpl. rewrite IH.
      destruct (bool_decide_reflect (key (base r) = k)) as [E | Hne].
      * subst k. rewrite bool_decide_eq_true_2 by left.
        rewrite bool_decide_eq_false_2 by exact Hnin. reflexivity.
      * destruct (bool_decide_reflect (k ∈ seen)) as [Hk | Hk].
        -- rewrite bool_decide_eq_true_2 by (right; exact Hk). reflexivity.
        -- rewrite bool_decide_eq_false_2; [reflexivity |].
           rewrite elem_of_cons. intros [E | E]; congruence.
Qed.

Lemma keep_first_elem seen l x :
  x ∈ keep_first seen l -> x ∈ l /\ key (base x) ∉ seen.
Proof.
  revert seen. induction l as [| r rest IH]; intros seen; simpl.
  - intros H. inversion H.
  - destruct (bool_decide_reflect (key (base r) ∈ seen)) as [Hin | Hnin].
    + intros H. apply IH in H as [H1 H2]. split; [right; exact H1 |].
      intros E. apply H2. right. exact E.
    + rewrite elem_of_cons. intros [-> | H].
      * split; [left | exact Hnin].
      * apply IH in H as [H1 H2]. split; [right; exact H1 |].
        intros E. apply H2. right. exact E.
Qed.

(** Of an ascending frame, the rows kept are strictly ascending: no key
    occurs twice. *)
Lemma keep_first_strictly_ascending l : forall seen,
  ascending l ->
  StronglySorted (fun x y => key_lt (key (base x)) (key (base y)))
    (keep_first seen l).
Proof.
  unfold ascending. induction l as [| r rest IH]; intros seen Hs; simpl.
  - constructor.
  - apply StronglySorted_inv in Hs as [Hrest Hr].
    destruct (bool_decide (key (base r) ∈ seen)); [apply IH; exact Hrest |].
    constructor; [apply IH; exact Hrest |].
    apply List.Forall_forall. intros x Hx.
    apply list_elem_of_In, keep_first_elem in Hx as [Hin Hseen].
    rewrite List.Forall_forall in Hr.
    apply list_elem_of_In, Hr, key_le_iff in Hin as [Hlt | Heq];
      [exact Hlt |].
    exfalso. apply Hseen. rewrite Heq. left.
Qed.

(** The mask of [duplicated]: true at a row exactly when its key occurs
    above it in the frame. *)
Lemma duplicated_lookup l : forall seen (i : nat) r,
  l !! i = Some r ->
  duplicated seen l !! i
  = Some (bool_decide
            (key (base r) ∈ seen
             \/ key (base r) ∈ List.map (fun y => key (base y)) (take i l))).
Proof.
  induction l as [| y rest IH]; intros seen i r Hi; [discriminate |].
  destruct i as [| i]; simpl in *.
  - injection Hi as ->. f_equal. apply bool_decide_ext.
    split; [intros H; left; exact H | intros [H | H]; [exact H | inversion H]].
  - rewrite (IH _ _ _ Hi). f_equal. apply bool_decide_ext.
    rewrite !elem_of_cons. tauto.
Qed.

Lemma length_duplicated l : forall seen, length (duplicated seen l) = length l.
Proof.
  induction l as [| r rest IH]; intros seen; simpl; [reflexivity |].
  rewrite IH. reflexivity.
Qed.

(** The rows kept carry [is_duplicate = false]: the column was assigned
    the very mask that drops them. *)
Lemma keep_first_assign l : forall seen,
  keep_first seen (assign_is_duplicate l (duplicated seen l))
  = List.map not_duplicate (keep_first seen l).
Proof.
  unfold assign_is_duplicate.
  induction l as [| r rest IH]; intros seen; simpl; [reflexivity |].
  destruct (bool_decide (key (base r) ∈ seen)); simpl; rewrite IH;
    reflexivity.
Qed.

Lemma rows_with_key_map k (f : Curated -> Curated) l :
  (forall r, base (f r) = base r) ->
  rows_with_key k (List.map f l) = List.map f (rows_with_key k l).
Proof.
  intros Hf. unfold rows_with_key.
  induction l as [| r rest IH]; simpl; [reflexivity |].
  rewrite Hf. destruct (bool_decide _); simpl; rewrite IH; reflexivity.
Qed.

Lemma rows_with_key_base k (df : list Telemetry) :
  List.map base (rows_with_key k (List.map with_flag_columns df))
  = with_key k df.
Proof.
  unfold rows_with_key, with_key.
  induction df as [| t rest IH]; simpl; [reflexivity |].
  destruct (bool_decide _); simpl; rewrite IH; reflexivity.
Qed.

Lemma strictly_ascending_keys l :
  StronglySorted (fun x y => key_lt (key (base x)) (key (base y))) l ->
  StronglySorted key_lt (List.map (fun r => key (base r)) l).
Proof.
  induction 1 as [| r rest _ IH Hr]; simpl; constructor; [exact IH |].
  apply List.Forall_forall. intros k Hk.
  apply in_map_iff in Hk as (y & <- & Hy).
  rewrite List.Forall_forall in Hr. apply Hr. exact Hy.
Qed.

(** What [curate] returns, in one expression. *)
Lemma curate_unfold (self : SilverJob.t) (df : list Telemetry) :
  curate self df
  = List.map (fun r => flagged (constraints self) (not_duplicate r))
      (keep_first [] (sort_values (List.map with_flag_columns df))).
Proof.
  unfold curate.
  rewrite add_range_flags_flagged, drop_duplicates_keep_first,
    keep_first_assign, List.map_map.
  reflexivity.
Qed.

(** Of the rows of one key, [curate] keeps the first to arrive. *)
Lemma curate_rows_with_key (self : SilverJob.t) (df : list Telemetry) k :
  List.map base (rows_with_key k (curate self df)) = take 1 (with_key k df).
Proof.
  rewrite curate_unfold.
  rewrite rows_with_key_map by reflexivity.
  rewrite List.map_map. cbn [flagged not_duplicate base].
  rewrite rows_with_key_keep_first.
  rewrite bool_decide_eq_false_2 by (intros H; inversion H).
  change (List.map (fun r => base r) ?l) with (List.map base l).
  rewrite <- (rows_with_key_base k df).
  rewrite <- (rows_with_key_sort_values k (List.map with_flag_columns df)).
  destruct (rows_with_key k (sort_values (List.map with_flag_columns df)));
    reflexivity.
Qed.

(** C3. In the curation stage the new rows are put in ascending order of
    the key (event_time, farm_id, turbine_id) by a stable sort, rows of
    equal key keeping their arrival order; the mask of duplicates is true
    on every row that has a row of the same key above it; the rows under
    the mask are dropped.  So of the records of one key exactly one
    survives to the curated output, the one that arrived first; the
    output is strictly ascending in the key, and none of its rows is
    marked duplicate. *)
Theorem curate_keeps_first_arrival (self : SilverJob.t)
    (df : list Telemetry) :
  let sorted := sort_values (List.map with_flag_columns df) in
  let out := curate self df in
  (ascending sorted
   /\ sorted ≡ₚ List.map with_flag_columns df
   /\ forall k, List.map base (rows_with_key k sorted) = with_key k df)
  /\ (forall (i : nat) r,
        sorted !! i = Some r ->
        duplicated [] sorted !! i
        = Some (bool_decide
                  (key (base r)
                   ∈ List.map (fun y => key (base y)) (take i sorted))))
  /\ (forall k, List.map base (rows_with_key k out) = take 1 (with_key k df))
  /\ StronglySorted key_lt (List.map (fun r => key (base r)) out)
  /\ Forall (fun r => is_duplicate r = false) out.
Proof.
  intros sorted out.
  split.
  { split; [apply sort_values_ascending |].
    split; [apply sort_values_perm |].
    intros k. unfold sorted.
    rewrite rows_with_key_sort_values. apply rows_with_key_base. }
  split.
  { intros i r Hi. rewrite (duplicated_lookup _ _ _ _ Hi).
    f_equal. apply bool_decide_ext.
    split; [intros [H | H]; [inversion H | exact H] |].
    intros H. right. exact H. }
  split; [intros k; apply curate_rows_with_key |].
  unfold out. rewrite curate_unfold. fold sorted.
  split.
  { rewrite List.map_map. cbn [flagged not_duplicate base].
    apply strictly_ascending_keys, keep_first_strictly_ascending.
    apply sort_values_ascending. }
  apply List.Forall_forall. intros r Hr.
  apply in_map_iff in Hr as (y & <- & _). reflexivity.
Qed.

End SortFacts.

Lemma curate_keeps_first_arrival_witness :
  let sorted :=
    SilverJob.sort_values
      (List.map SilverJob.with_flag_columns example_arrivals) in
  sorted !! 2%nat
  = Some (SilverJob.with_flag_columns
            (example_telemetry "SIM-A" 1767582000000 "T002" (Float.Fin 9)))
  /\ SilverJob.duplicated [] sorted !! 2%nat = Some true.
Proof.
  intros sorted.
  assert (Hi : sorted !! 2%nat
               = Some (SilverJob.with_flag_columns
                         (example_telemetry "SIM-A" 1767582000000 "T002"
                            (Float.Fin 9)))) by reflexivity.
  split; [exact Hi |].
  destruct (curate_keeps_first_arrival SilverJob.default example_arrivals)
    as (_ & Hmask & _).
  etransitivity; [exact (Hmask _ _ Hi) | reflexivity].
Defined.

(** Of the three arrivals the earlier one under the shared key
    survives. *)
Example curate_example :
  List.map (fun r => (Schema.turbine_id (Schema.base r),
                      Schema.wind_speed_mps (Schema.base r)))
    (SilverJob.curate SilverJob.default example_arrivals)
  = [ ("T001", Float.Fin 5); ("T002", Float.Fin 7) ]%string.
Proof. reflexivity. Qed.

(** ** Processed sets and writes *)

Section CreditFacts.
Import Schema.

Context {A : Type}.
Variable tier : world -> option (Store.dataset A).
Variables root name : string.
Variable dir_of : A -> string.
Variable pk : A -> string.

(** A step that leaves the state files and the journal alone credits
    nothing. *)
Lemma credits_unchanged (o : Store.outcome A) (w w' : world) :
  state w' = state w ->
  journal w' = journal w ->
  credits_step tier root name dir_of pk o w w'.
Proof.
  intros Hs Hj. unfold credits_step. rewrite Hs, Hj.
  split; [intros _ _; split; reflexivity |].
  split; [intros Hne; contradiction |].
  split; [unfold covered; rewrite Hs, Hj; intros H; exact H |].
  split; [intros name' _; reflexivity |].
  exists []. rewrite app_nil_r. reflexivity.
Qed.

(** [commit] after a completed write credits the keys of the table. *)
Lemma credits_commit (table : list A) (w w0 : world) :
  state w0 = state w ->
  journal w0 = journal w ->
  tier (commit w0 name
          (StateStore.load_set name (state w0)
           ∪ list_to_set (List.map pk table))
          root (List.map pk table))
  = Some (Store.put_table root dir_of "part-0.parquet" table
            (Store.mkdir (tier w))) ->
  credits_step tier root name dir_of pk Store.Completes w
    (commit w0 name
       (StateStore.load_set name (state w0)
        ∪ list_to_set (List.map pk table))
       root (List.map pk table)).
Proof.
  intros Hs Hj Htier. unfold credits_step.
  split; [intros left_behind E; discriminate |].
  split.
  { intros _. split; [reflexivity |]. exists table.
    split; [exact Htier |]. unfold commit. simpl. rewrite Hs, Hj.
    split; reflexivity. }
  unfold commit. simpl. rewrite Hs, Hj.
  split; [| split].
  - intros Hcov k. simpl. rewrite load_save_set, elem_of_union.
    intros [Hk | Hk].
    + destruct (Hcov k Hk) as (ks & Hin & Hks).
      exists ks. split; [| exact Hks].
      apply elem_of_app. left. exact Hin.
    + exists (List.map pk table). split.
      * apply elem_of_app. right. left.
      * apply elem_of_list_to_set in Hk. exact Hk.
  - intros name' Hne. apply load_save_set_ne. exact Hne.
  - eexists. reflexivity.
Qed.

End CreditFacts.

Section StageCredits.
Import Schema.
Local Open Scope string_scope.

(** The branch of a stage in which the write completes. *)
Ltac commit_step :=
  match goal with
  | |- credits_step _ _ _ _ _ _ ?w (commit ?w0 _ _ _ _) =>
      refine (credits_commit _ _ _ _ _ _ w w0 _ _ _); reflexivity
  end.

Lemma silver_run_credits (self : SilverJob.t) :
  credits_after_write silver (SilverJob.silver_path self)
    (SilverJob.state_name self) SilverJob.partition_dir
    (fun r => process_key (base r)) (SilverJob.run self).
Proof.
  intros o w. split.
  - unfold SilverJob.run.
    destruct (bronze w) as [ds |];
      [| apply credits_unchanged; reflexivity].
    destruct (Nat.eqb (length (Store.read ds)) 0);
      [apply credits_unchanged; reflexivity |].
    destruct (Nat.eqb (length (SilverJob.new_rows _ _)) 0);
      [apply credits_unchanged; reflexivity |].
    destruct o as [| left_behind]; simpl.
    + commit_step.
    + apply credits_unchanged; reflexivity.
  - intros left_behind. unfold SilverJob.run.
    destruct (bronze w) as [ds |]; [| right; reflexivity].
    destruct (Nat.eqb (length (Store.read ds)) 0); [right; reflexivity |].
    destruct (Nat.eqb (length (SilverJob.new_rows _ _)) 0);
      [right; reflexivity | left; reflexivity].
Qed.

Lemma hourly_energy_credits (self : GoldJob.t) (dt_seconds : Q) :
  credits_after_write gold_hourly_energy
    (GoldJob.gold_path self ++ "/hourly_energy") (GoldJob.state_name self)
    GoldJob.hourly_dir HourlyEnergy.process_key
    (GoldJob.run_hourly_energy self dt_seconds).
Proof.
  intros o w. split.
  - unfold GoldJob.run_hourly_energy.
    destruct (silver w) as [sds |];
      [| apply credits_unchanged; reflexivity].
    destruct (Nat.eqb (length (Store.read sds)) 0);
      [apply credits_unchanged; reflexivity |].
    destruct (Nat.eqb (length (List.filter _ _)) 0);
      [apply credits_unchanged; reflexivity |].
    destruct o as [| left_behind]; simpl.
    + commit_step.
    + apply credits_unchanged; reflexivity.
  - intros left_behind. unfold GoldJob.run_hourly_energy.
    destruct (silver w) as [sds |]; [| right; reflexivity].
    destruct (Nat.eqb (length (Store.read sds)) 0); [right; reflexivity |].
    destruct (Nat.eqb (length (List.filter _ _)) 0);
      [right; reflexivity | left; reflexivity].
Qed.

Lemma farm_kpis_credits (self : GoldJob.t) (dt_seconds rated_power_kw : Q) :
  credits_after_write gold_farm_kpis
    (GoldJob.gold_path self ++ "/farm_kpis")
    "gold_farm_kpis_processed_hours"
    GoldJob.kpi_dir FarmKpi.process_key
    (GoldJob.run_farm_kpis self dt_seconds rated_power_kw).
Proof.
  intros o w. split.
  - unfold GoldJob.run_farm_kpis.
    destruct (silver w) as [sds |];
      [| apply credits_unchanged; reflexivity].
    destruct (Nat.eqb (length (Store.read sds)) 0);
      [apply credits_unchanged; reflexivity |].
    destruct (Qeq_bool dt_seconds 0);
      [apply credits_unchanged; reflexivity |].
    destruct (Z.eqb _ 0); [apply credits_unchanged; reflexivity |].
    destruct (Nat.eqb (length (List.filter _ _)) 0);
      [apply credits_unchanged; reflexivity |].
    destruct o as [| left_behind]; simpl.
    + commit_step.
    + apply credits_unchanged; reflexivity.
  - intros left_behind. unfold GoldJob.run_farm_kpis.
    destruct (silver w) as [sds |]; [| right; reflexivity].
    destruct (Nat.eqb (length (Store.read sds)) 0); [right; reflexivity |].
    destruct (Qeq_bool dt_seconds 0); [right; reflexivity |].
    destruct (Z.eqb _ 0); [right; reflexivity |].
    destruct (Nat.eqb (length (List.filter _ _)) 0);
      [right; reflexivity | left; reflexivity].
Qed.

End StageCredits.

Section PipelineCredits.
Import Schema.

(** A step that touches neither the set under [name] nor the past of
    the journal keeps that set covered. *)
Lemma covered_frame (root name : string) (w w' : world) :
  StateStore.load_set name (state w') = StateStore.load_set name (state w) ->
  (exists more, journal w' = journal w ++ more) ->
  covered root name w -> covered root name w'.
Proof.
  intros Hs [more Hj] Hcov k. rewrite Hs, Hj. intros Hk.
  destruct (Hcov k Hk) as (keys & Hin & Hkeys).
  exists keys. split; [apply elem_of_app; left; exact Hin | exact Hkeys].
Qed.

Lemma covered_other_stage {A : Type}
    (tier : world -> option (Store.dataset A)) (root name : string)
    (dir_of : A -> string) (pk : A -> string) (o : Store.outcome A)
    (w w' : world) (root' name' : string) :
  credits_step tier root name dir_of pk o w w' ->
  name <> name' ->
  covered root' name' w -> covered root' name' w'.
Proof.
  intros (_ & _ & _ & Hframe & Hj) Hne.
  apply covered_frame; [apply Hframe; exact Hne | exact Hj].
Qed.

Lemma bronze_write_frame (self : BronzeWriter.t) (uuid_hex : string)
    (o : Store.outcome Telemetry) (df : BronzeWriter.DataFrame) (w : world) :
  state (BronzeWriter.write self uuid_hex o df w).2 = state w
  /\ exists more,
       journal (BronzeWriter.write self uuid_hex o df w).2
       = journal w ++ more.
Proof.
  unfold BronzeWriter.write.
  destruct (BronzeWriter.empty df);
    [split; [reflexivity | exists []; symmetry; apply app_nil_r] |].
  destruct (BronzeWriter.missing df);
    [| split; [reflexivity | exists []; symmetry; apply app_nil_r]].
  destruct (BronzeWriter.convert df) as [table | e];
    [| split; [reflexivity | exists []; symmetry; apply app_nil_r]].
  destruct o as [| left_behind]; simpl.
  - split; [reflexivity | eexists; reflexivity].
  - split; [reflexivity | exists []; symmetry; apply app_nil_r].
Qed.

Variable j : jobs.

Hypothesis silver_gold_names :
  SilverJob.state_name (silver_job j) <> GoldJob.state_name (gold_job j).
Hypothesis silver_kpis_names :
  SilverJob.state_name (silver_job j) <> farm_kpis_state_name.
Hypothesis gold_kpis_names :
  GoldJob.state_name (gold_job j) <> farm_kpis_state_name.

Lemma invoke_all_covered (w : world) (i : invocation) :
  all_covered j w -> all_covered j (invoke j w i).
Proof.
  intros (Hs & Hh & Hk). destruct i as [uuid o df | o | dt o | dt rated o];
    simpl.
  - destruct (bronze_write_frame (bronze_writer j) uuid o df w) as [Hst Hj].
    repeat split; (eapply covered_frame; [rewrite Hst; reflexivity
                                          | exact Hj | assumption]).
  - destruct (silver_run_credits (silver_job j) o w) as [Hc _].
    split; [apply Hc; exact Hs |].
    split; (eapply covered_other_stage; [exact Hc | assumption | assumption]).
  - destruct (hourly_energy_credits (gold_job j) dt o w) as [Hc _].
    split; [eapply covered_other_stage; [exact Hc | congruence | exact Hs] |].
    split; [apply Hc; exact Hh |].
    eapply covered_other_stage; [exact Hc | assumption | exact Hk].
  - destruct (farm_kpis_credits (gold_job j) dt rated o w) as [Hc _].
    split; [eapply covered_other_stage;
            [exact Hc | unfold farm_kpis_state_name in *; congruence
             | exact Hs] |].
    split; [eapply covered_other_stage;
            [exact Hc | unfold farm_kpis_state_name in *; congruence
             | exact Hh] |].
    apply Hc. exact Hk.
Qed.

Lemma pipeline_all_covered (trace : list invocation) : forall w,
  all_covered j w -> all_covered j (pipeline j trace w).
Proof.
  unfold pipeline. induction trace as [| i rest IH]; intros w Hw; simpl.
  - exact Hw.
  - apply IH, invoke_all_covered. exact Hw.
Qed.

Lemma empty_world_all_covered : all_covered j empty_world.
Proof.
  repeat split; intros k Hk;
    unfold StateStore.load_set, empty_world in Hk;
    cbn [state] in Hk; rewrite lookup_empty in Hk;
    apply not_elem_of_empty in Hk; contradiction.
Qed.

End PipelineCredits.

(** C2. Each of the curation stage and the two rollups extends and saves
    its processed-set only after its table has been written: when the
    write raises, the invocation ends with the state files as they were;
    when the state files change, the write has completed and the set has
    grown by exactly the keys of the rows of the table written; no
    invocation touches the set of another stage.  So, however the stages
    are invoked and whichever writes fail, every key in a persisted set is
    the key of a row of a table whose write by that stage completed. *)
Theorem processed_set_follows_write (j : jobs)
    (dt_seconds rated_power_kw : Q) :
  credits_after_write silver (SilverJob.silver_path (silver_job j))
    (SilverJob.state_name (silver_job j)) SilverJob.partition_dir
    (fun r => Schema.process_key (Schema.base r))
    (SilverJob.run (silver_job j))
  /\ credits_after_write gold_hourly_energy
       (GoldJob.gold_path (gold_job j) ++ "/hourly_energy")%string
       (GoldJob.state_name (gold_job j))
       GoldJob.hourly_dir HourlyEnergy.process_key
       (GoldJob.run_hourly_energy (gold_job j) dt_seconds)
  /\ credits_after_write gold_farm_kpis
       (GoldJob.gold_path (gold_job j) ++ "/farm_kpis")%string
       farm_kpis_state_name
       GoldJob.kpi_dir FarmKpi.process_key
       (GoldJob.run_farm_kpis (gold_job j) dt_seconds rated_power_kw)
  /\ (SilverJob.state_name (silver_job j)
      <> GoldJob.state_name (gold_job j) ->
      SilverJob.state_name (silver_job j) <> farm_kpis_state_name ->
      GoldJob.state_name (gold_job j) <> farm_kpis_state_name ->
      forall trace : list invocation,
        all_covered j (pipeline j trace empty_world)).
Proof.
  split; [apply silver_run_credits |].
  split; [apply hourly_energy_credits |].
  split; [apply farm_kpis_credits |].
  intros H1 H2 H3 trace.
  apply pipeline_all_covered; try assumption.
  apply empty_world_all_covered.
Qed.

Lemma processed_set_follows_write_witness :
  SilverJob.state_name (silver_job default_jobs)
  <> GoldJob.state_name (gold_job default_jobs)
  /\ SilverJob.state_name (silver_job default_jobs) <> farm_kpis_state_name
  /\ GoldJob.state_name (gold_job default_jobs) <> farm_kpis_state_name
  /\ all_covered default_jobs
       (pipeline default_jobs example_trace empty_world).
Proof.
  assert (H1 : SilverJob.state_name (silver_job default_jobs)
               <> GoldJob.state_name (gold_job default_jobs))
    by discriminate.
  assert (H2 : SilverJob.state_name (silver_job default_jobs)
               <> farm_kpis_state_name) by discriminate.
  assert (H3 : GoldJob.state_name (gold_job default_jobs)
               <> farm_kpis_state_name) by discriminate.
  split; [exact H1 | split; [exact H2 | split; [exact H3 |]]].
  destruct (processed_set_follows_write default_jobs 60 2000)
    as (_ & _ & _ & Hall).
  exact (Hall H1 H2 H3 example_trace).
Defined.

(** What the example run leaves: the state files and the journal. *)
Example example_trace_state :
  let w := pipeline default_jobs example_trace empty_world in
  state w !! "silver_processed_hours"%string
  = Some ["SIM-A|F001|2026-01-05T03:00:00Z"%string]
  /\ state w !! "gold_processed_hours"%string
     = Some ["SIM-A|F001|2026-01-05T03:00:00Z"%string]
  /\ state w !! farm_kpis_state_name
     = Some ["SIM-A|F001|2026-01-05T03:00:00Z"%string]
  /\ List.map fst (journal w)
     = [ "data_lake/bronze"; "data_lake/silver";
         "data_lake/gold/hourly_energy"; "data_lake/gold/farm_kpis"
       ]%string.
Proof. vm_compute. repeat split. Qed.

(** ** Running the curation stage twice *)

Section CurationTwice.
Import Schema SilverJob.

Lemma new_rows_nil (processed : gset string) (df : list Telemetry) :
  (forall r, r ∈ df -> process_key r ∈ processed) ->
  new_rows processed df = [].
Proof.
  intros Hall. unfold new_rows.
  induction df as [| r rest IH]; simpl; [reflexivity |].
  rewrite bool_decide_eq_true_2 by (apply Hall; left). simpl.
  apply IH. intros r' Hr'. apply Hall. right. exact Hr'.
Qed.

Lemma new_rows_elem (processed : gset string) (df : list Telemetry) r :
  r ∈ new_rows processed df <-> r ∈ df /\ process_key r ∉ processed.
Proof.
  unfold new_rows. rewrite !list_elem_of_In, filter_In.
  rewrite negb_true_iff, bool_decide_eq_false. reflexivity.
Qed.

Lemma with_key_elem k (df : list Telemetry) r :
  r ∈ with_key k df <-> r ∈ df /\ key r = k.
Proof.
  unfold with_key. rewrite !list_elem_of_In, filter_In, bool_decide_eq_true.
  reflexivity.
Qed.

Lemma rows_with_key_elem k (df : list Curated) c :
  c ∈ rows_with_key k df <-> c ∈ df /\ key (base c) = k.
Proof.
  unfold rows_with_key.
  rewrite !list_elem_of_In, filter_In, bool_decide_eq_true. reflexivity.
Qed.

(** Rows that agree on the dedup key and on the run have the same
    incremental key. *)
Lemma process_key_of_key (r r' : Telemetry) :
  key r = key r' -> sim_run_id r = sim_run_id r' ->
  process_key r = process_key r'.
Proof.
  unfold key, process_key. intros E Hrun. injection E as E1 E2 _.
  rewrite E1, E2, Hrun. reflexivity.
Qed.

(** When no two rows of different runs share a dedup key, the keys of the
    curated rows are the keys of all the new rows. *)
Lemma curate_keys_cover (self : SilverJob.t) (df : list Telemetry) r :
  (forall a b, a ∈ df -> b ∈ df -> key a = key b ->
               sim_run_id a = sim_run_id b) ->
  r ∈ df ->
  process_key r ∈ List.map (fun c => process_key (base c)) (curate self df).
Proof.
  intros Hruns Hr.
  pose proof (curate_rows_with_key self df (key r)) as Hfirst.
  assert (Hin : r ∈ with_key (key r) df)
    by (apply with_key_elem; split; [exact Hr | reflexivity]).
  destruct (with_key (key r) df) as [| t rest] eqn:Hwk;
    [inversion Hin |].
  assert (Ht : t ∈ df /\ key t = key r).
  { apply with_key_elem. rewrite Hwk. left. }
  destruct Ht as [Ht Hkey].
  simpl in Hfirst.
  destruct (rows_with_key (key r) (curate self df)) as [| c cs] eqn:Hc;
    [discriminate |].
  injection Hfirst as Hbase _.
  assert (Hcin : c ∈ curate self df).
  { apply (rows_with_key_elem (key r)). rewrite Hc. left. }
  apply list_elem_of_In, in_map_iff. exists c.
  split; [| apply list_elem_of_In; exact Hcin].
  rewrite Hbase. apply process_key_of_key; [exact Hkey |].
  apply Hruns; assumption.
Qed.

(** X30. Within one simulation run the curation stage is idempotent: if
    no two raw rows of different runs share a dedup key, a second run
    after a successful one finds nothing new, writes nothing, saves
    nothing, and returns the silver location. *)
Lemma silver_run_idempotent_within_runs (self : SilverJob.t) (w w1 : world)
    (path : string) (o : Store.outcome Curated) :
  (forall ds a b,
     bronze w = Some ds -> a ∈ Store.read ds -> b ∈ Store.read ds ->
     key a = key b -> sim_run_id a = sim_run_id b) ->
  run self Store.Completes w = (Ok path, w1) ->
  run self o w1 = (Ok (silver_path self), w1).
Proof.
  intros Hruns. unfold run at 1.
  destruct (bronze w) as [ds |] eqn:Hb; [| discriminate].
  destruct (Nat.eqb (length (Store.read ds)) 0) eqn:Hlen; [discriminate |].
  set (processed := StateStore.load_set (state_name self) (state w)).
  destruct (Nat.eqb (length (new_rows processed (Store.read ds))) 0)
    eqn:Hnew.
  - intros E. injection E as _ <-. unfold run.
    rewrite Hb, Hlen. fold processed. rewrite Hnew. reflexivity.
  - simpl. intros E. injection E as _ <-. unfold run.
    cbn [bronze commit with_silver state]. rewrite Hb, Hlen.
    rewrite load_save_set.
    rewrite new_rows_nil; [reflexivity |].
    intros r Hr. apply elem_of_union.
    destruct (decide (process_key r ∈ processed)) as [Hp | Hp];
      [left; exact Hp | right].
    apply elem_of_list_to_set, curate_keys_cover.
    + intros a b Ha Hb' Hk.
      apply new_rows_elem in Ha as [Ha _], Hb' as [Hb' _].
      eapply Hruns; [reflexivity | exact Ha | exact Hb' | exact Hk].
    + apply new_rows_elem. split; assumption.
Qed.

End CurationTwice.

(** C1. The curation stage run twice over the raw rows of two scenarios
    that share a farm and its time stamps: both runs succeed; the first
    curates the row of SIM-A only and records its bucket; the second, with
    no raw data added, finds the bucket of SIM-B new, writes its row, and
    extends the persisted set. *)
Theorem silver_run_twice_two_scenarios :
  let first :=
    SilverJob.run SilverJob.default Store.Completes two_scenarios in
  let second :=
    SilverJob.run SilverJob.default Store.Completes first.2 in
  first.1 = Ok "data_lake/silver"%string
  /\ second.1 = Ok "data_lake/silver"%string
  /\ bronze first.2 = bronze two_scenarios
  /\ journal first.2
     = journal two_scenarios
       ++ [("data_lake/silver", ["SIM-A|F001|2026-01-05T03:00:00Z"])]%string
  /\ journal second.2
     = journal first.2
       ++ [("data_lake/silver", ["SIM-B|F001|2026-01-05T03:00:00Z"])]%string
  /\ state first.2 !! "silver_processed_hours"%string
     = Some ["SIM-A|F001|2026-01-05T03:00:00Z"%string]
  /\ state second.2 !! "silver_processed_hours"%string
     = Some [ "SIM-A|F001|2026-01-05T03:00:00Z";
              "SIM-B|F001|2026-01-05T03:00:00Z" ]%string
  /\ (length ∘ Store.read <$> silver first.2) = Some 1%nat
  /\ (length ∘ Store.read <$> silver second.2) = Some 2%nat.
Proof. vm_compute. repeat split. Qed.

(** * Part III: further properties of the code *)

(** ** The power curve: range, operating window, monotonicity *)

Section PowerCurveRange.
Import PowerCurve.
Local Open Scope R_scope.

Variable pc : PowerCurve.t.





(** X2. A turbine produces power only while RUNNING, and on a number
    only inside its operating window.  For every wind speed a caller may
    pass, not-a-number included: a nonzero power implies the status
    RUNNING; when the speed is a number it lies from cut-in up to, and
    below, cut-out (above cut-in when cut-in is below rated); when it is
    not-a-number the power is the rated power.  In particular STOPPED and
    CUT_OUT always come with zero power. *)
Theorem power_kw_nonzero_running (s : wind_speed) (P : R) :
  (power_kw_float pc s P).1 <> 0 ->
  (power_kw_float pc s P).2 = RUNNING
  /\ match s with
     | Number v =>
         cut_in_mps pc <= v < cut_out_mps pc
         /\ (cut_in_mps pc < rated_mps pc -> cut_in_mps pc < v)
     | NotANumber => (power_kw_float pc s P).1 = P
     end.
Proof.
  destruct s as [| v]; cbn [power_kw_float]; [auto |].
  unfold power_kw.
  destruct (Rge_dec v (cut_out_mps pc)) as [_ | Hout];
    [simpl; intros Hne; lra |].
  destruct (Rlt_dec v (cut_in_mps pc)) as [_ | Hin];
    [simpl; intros Hne; lra |].
  destruct (Rlt_dec v (rated_mps pc)) as [Hr | Hr]; cbn [fst snd]; intros Hne.
  - split; [reflexivity |]. split; [lra |]. intros _.
    destruct (Req_dec v (cut_in_mps pc)) as [E | E]; [| lra].
    exfalso. apply Hne. rewrite E. unfold Rdiv. ring.
  - split; [reflexivity |]. split; lra.
Qed.


End PowerCurveRange.

Section PowerCurveRangeExamples.
Local Open Scope R_scope.


Lemma power_kw_nonzero_running_witness :
  ((PowerCurve.power_kw_float PowerCurve.default (PowerCurve.Number 12)
      2000).1 <> 0
   /\ (PowerCurve.power_kw_float PowerCurve.default (PowerCurve.Number 12)
         2000).2 = RUNNING
   /\ 3 <= 12 < 25)
  /\ ((PowerCurve.power_kw_float PowerCurve.default PowerCurve.NotANumber
         2000).1 <> 0
      /\ PowerCurve.power_kw_float PowerCurve.default PowerCurve.NotANumber
           2000 = (2000, RUNNING)).
Proof.
  assert (E : PowerCurve.power_kw PowerCurve.default 12 2000
              = (2000, RUNNING)).
  { apply power_kw_rated; simpl; lra. }
  assert (Hne : (PowerCurve.power_kw_float PowerCurve.default
                   (PowerCurve.Number 12) 2000).1 <> 0).
  { cbn [PowerCurve.power_kw_float]. rewrite E. simpl. lra. }
  assert (Hnan : (PowerCurve.power_kw_float PowerCurve.default
                    PowerCurve.NotANumber 2000).1 <> 0).
  { simpl. lra. }
  split.
  - split; [exact Hne |].
    destruct (power_kw_nonzero_running PowerCurve.default
                (PowerCurve.Number 12) 2000 Hne) as (Hrun & Hwin & _).
    split; [exact Hrun | exact Hwin].
  - split; [exact Hnan |].
    destruct (power_kw_nonzero_running PowerCurve.default
                PowerCurve.NotANumber 2000 Hnan) as (Hrun & Hp).
    reflexivity.
Defined.


End PowerCurveRangeExamples.

(** ** The wake model: when it raises, what it returns, what it ignores *)

Section WakeOutcome.
Context `{PythonMath}.
Import FarmLayout WakeModel.
Local Open Scope R_scope.

Variable self : WakeModel.t.
Variable target : Turbine.





End WakeOutcome.

Section WakeOutcomeExamples.
Import FarmLayout WakeModel.
Local Open Scope R_scope.





End WakeOutcomeExamples.

(** ** The wind field: what a call returns *)

Section WindFieldOutcome.
Context `{NumpyGenerator}.
Import WindField.
Local Open Scope R_scope.


(** A direction that is not negative stays below 360. *)
Lemma fmod360_nonneg (d : R) : 0 <= d -> 0 <= fmod360 d < 360.
Proof.
  intros Hd. unfold fmod360.
  destruct (base_Int_part (d / 360)) as [Hlo Hhi].
  set (k := IZR (Int_part (d / 360))) in *.
  destruct (Rlt_dec d 0); lra.
Qed.





End WindFieldOutcome.

(** ** The telemetry generator: when it returns, the shape of a run, the
    range of the clean measurements *)

Section GeneratorRun.
Context `{NumpyGenerator} `{PythonMath}.
Variable now : nat -> Z.
Import FarmLayout TelemetryGenerator.
Local Open Scope R_scope.

Variable self : TelemetryGenerator.t.







(** *** The loops *)











End GeneratorRun.





(** ** The grid layout *)

Section GridFarm.
Import FarmLayout.

(** *** The identifiers *)

Lemma read_decimal_digits (fuel : nat) : forall (n : nat) (acc : string),
  (n < fuel)%nat ->
  read_decimal 0 (digits fuel n acc) = read_decimal n acc.
Proof.
  induction fuel as [| fuel IH]; intros n acc Hn; [lia |].
  assert (Hdigit : nat_of_ascii (ascii_of_nat (48 + n mod 10)) - 48
                   = n mod 10).
  { rewrite nat_ascii_embedding.
    - lia.
    - pose proof (Nat.mod_upper_bound n 10). lia. }
  cbn [digits].
  destruct (Nat.eqb_spec (n / 10) 0) as [Hz | Hnz].
  - cbn [read_decimal]. rewrite Hdigit. f_equal.
    pose proof (Nat.div_mod_eq n 10). lia.
  - rewrite IH.
    + cbn [read_decimal]. rewrite Hdigit. f_equal.
      pose proof (Nat.div_mod_eq n 10). lia.
    + assert (n / 10 < n)%nat; [| lia].
      apply Nat.div_lt; [| lia].
      destruct n; [contradiction Hnz; reflexivity | lia].
Qed.

Lemma read_decimal_zeros (m : nat) (s : string) :
  read_decimal 0 (zeros m ++ s) = read_decimal 0 s.
Proof. induction m as [| m IH]; [reflexivity | exact IH]. Qed.

Lemma read_decimal_format (k : nat) : read_decimal 0 (format_03d k) = k.
Proof.
  unfold format_03d. rewrite read_decimal_zeros. unfold decimal.
  rewrite read_decimal_digits by lia. reflexivity.
Qed.

Lemma turbine_name_inj (i j : nat) :
  ("T" ++ format_03d i)%string = ("T" ++ format_03d j)%string -> i = j.
Proof.
  intros E. injection E as E.
  change (format_03d i = format_03d j) in E.
  rewrite <- (read_decimal_format i), <- (read_decimal_format j), E.
  reflexivity.
Qed.

(** *** The loops *)

Variables spacing rated : R.

Lemma inner_loop_closed (r : Z) (n : nat) :
  forall (a k : nat) (acc : list Turbine),
    fold_left (fun st c => grid_step spacing rated r c st)
      (List.map Z.of_nat (seq a n)) (k, acc)
    = ((k + n)%nat,
       acc ++ List.map
                (fun j =>
                   {| turbine_id := ("T" ++ format_03d (S (k + j)))%string;
                      x_m := (IZR (Z.of_nat (a + j)) * spacing)%R;
                      y_m := (IZR r * spacing)%R;
                      rated_power_kw := rated |})
                (seq 0 n)).
Proof.
  induction n as [| n IH]; intros a k acc.
  - simpl. rewrite Nat.add_0_r, app_nil_r. reflexivity.
  - cbn [seq List.map fold_left]. unfold grid_step at 2. cbn [fst snd].
    rewrite IH. f_equal; [lia |].
    rewrite <- app_assoc. f_equal. cbn [app]. rewrite !Nat.add_0_r.
    f_equal. rewrite <- seq_shift, List.map_map.
    apply List.map_ext. intros j.
    replace (S k + j)%nat with (k + S j)%nat by lia.
    replace (S a + j)%nat with (a + S j)%nat by lia.
    reflexivity.
Qed.

Lemma grid_turbine_row (n_cols r j : nat) :
  (j < n_cols)%nat ->
  grid_turbine n_cols spacing rated (r * n_cols + j)
  = {| turbine_id := ("T" ++ format_03d (S (r * n_cols + j)))%string;
       x_m := (IZR (Z.of_nat j) * spacing)%R;
       y_m := (IZR (Z.of_nat r) * spacing)%R;
       rated_power_kw := rated |}.
Proof.
  intros Hj. unfold grid_turbine.
  replace ((r * n_cols + j) mod n_cols)%nat with j.
  - replace ((r * n_cols + j) / n_cols)%nat with r; [reflexivity |].
    rewrite Nat.div_add_l by lia. rewrite Nat.div_small by lia. lia.
  - rewrite Nat.add_comm, Nat.Div0.mod_add. rewrite Nat.mod_small; lia.
Qed.

Lemma outer_loop_closed (n_cols : nat) (n : nat) :
  forall (a : nat),
    fold_left
      (fun st r =>
         fold_left (fun st c => grid_step spacing rated r c st)
           (List.map Z.of_nat (seq 0 n_cols)) st)
      (List.map Z.of_nat (seq a n))
      ((a * n_cols)%nat,
       List.map (grid_turbine n_cols spacing rated)
         (seq 0 (a * n_cols)))
    = (((a + n) * n_cols)%nat,
       List.map (grid_turbine n_cols spacing rated)
         (seq 0 ((a + n) * n_cols))).
Proof.
  induction n as [| n IH]; intros a.
  - simpl. rewrite Nat.add_0_r. reflexivity.
  - cbn [seq List.map fold_left]. rewrite inner_loop_closed.
    replace (a * n_cols + n_cols)%nat with (S a * n_cols)%nat by lia.
    replace (List.map (grid_turbine n_cols spacing rated)
               (seq 0 (a * n_cols))
             ++ List.map
                  (fun j =>
                     {| turbine_id :=
                          ("T" ++ format_03d (S (a * n_cols + j)))%string;
                        x_m := (IZR (Z.of_nat (0 + j)) * spacing)%R;
                        y_m := (IZR (Z.of_nat a) * spacing)%R;
                        rated_power_kw := rated |})
                  (seq 0 n_cols))
      with (List.map (grid_turbine n_cols spacing rated)
              (seq 0 (S a * n_cols))).
    + rewrite IH. replace (S a + n)%nat with (a + S n)%nat by lia.
      reflexivity.
    + replace (S a * n_cols)%nat with (a * n_cols + n_cols)%nat by lia.
      rewrite seq_app, List.map_app. f_equal. cbn [Nat.add].
      replace (seq (a * n_cols) n_cols)
        with (List.map (Nat.add (a * n_cols)) (seq 0 n_cols))
        by (etransitivity; [apply fmap_add_seq | f_equal; lia]).
      rewrite List.map_map. apply List.map_ext_in. intros j Hj.
      apply in_seq in Hj. apply grid_turbine_row. lia.
Qed.

(** The two loops, closed. *)
Lemma grid_turbines_closed (farm_id : string) (n_rows n_cols : Z) :
  turbines (make_grid_farm farm_id n_rows n_cols spacing rated)
  = List.map (grid_turbine (Z.to_nat n_cols) spacing rated)
      (seq 0 (Z.to_nat n_rows * Z.to_nat n_cols)).
Proof.
  unfold make_grid_farm, range. cbn [turbines].
  pose proof (outer_loop_closed (Z.to_nat n_cols) (Z.to_nat n_rows) 0)
    as Hloop.
  cbn [Nat.mul Nat.add seq List.map] in Hloop.
  rewrite Hloop. reflexivity.
Qed.

(** X12. [make_grid_farm] returns the turbines of the grid in row-major
    order: one per row and column (none when a count is not positive),
    the i-th, counted from zero, named "T" followed by i+1 on at least
    three digits, placed at column (i mod n_cols) and row (i div n_cols)
    times the spacing, with the rated power given. *)
Theorem make_grid_farm_turbines (farm_id : string) (n_rows n_cols : Z) :
  turbines (make_grid_farm farm_id n_rows n_cols spacing rated)
  = List.map (grid_turbine (Z.to_nat n_cols) spacing rated)
      (seq 0 (Z.to_nat n_rows * Z.to_nat n_cols))
  /\ length (turbines (make_grid_farm farm_id n_rows n_cols spacing rated))
     = (Z.to_nat n_rows * Z.to_nat n_cols)%nat.
Proof.
  rewrite grid_turbines_closed. split; [reflexivity |].
  rewrite length_map, length_seq. reflexivity.
Qed.

(** X13. The turbines of a grid farm have pairwise distinct identifiers,
    whatever the size of the grid (the counter is written in full beyond
    three digits), and each identifier reads back as the ordinal of its
    turbine. *)
Theorem make_grid_farm_ids_distinct (farm_id : string) (n_rows n_cols : Z) :
  NoDup (List.map turbine_id
           (turbines (make_grid_farm farm_id n_rows n_cols spacing rated)))
  /\ forall (i : nat) (t : Turbine),
       turbines (make_grid_farm farm_id n_rows n_cols spacing rated) !! i
       = Some t ->
       exists digits : string,
         turbine_id t = String "T" digits
         /\ read_decimal 0 digits = S i.
Proof.
  rewrite grid_turbines_closed. split.
  - rewrite List.map_map. cbn [grid_turbine turbine_id].
    apply (NoDup_fmap_2_strong
             (fun i => ("T" ++ format_03d (S i))%string)).
    + intros i j _ _ E. apply turbine_name_inj in E. lia.
    + apply NoDup_seq.
  - intros i t Hi.
    change (List.map ?f ?l) with (f <$> l) in Hi.
    rewrite list_lookup_fmap in Hi.
    destruct (seq 0 (Z.to_nat n_rows * Z.to_nat n_cols) !! i) as [k |] eqn:Hk;
      [| discriminate].
    apply lookup_seq in Hk as [-> _]. cbn in Hi. injection Hi as <-.
    exists (format_03d (S i)). split; [reflexivity |].
    apply read_decimal_format.
Qed.


End GridFarm.


(** ** The state store: round trip and canonical files *)

Section StateStoreFiles.
Import StateStore.

Lemma leb_trans (a b c : string) :
  String.leb a b = true -> String.leb b c = true -> String.leb a c = true.
Proof.
  intros Hab Hbc.
  assert (H1 : String.le a b) by (unfold String.le; rewrite Hab; exact I).
  assert (H2 : String.le b c) by (unfold String.le; rewrite Hbc; exact I).
  pose proof (transitivity H1 H2) as H3. unfold String.le in H3.
  destruct (String.leb a c); [reflexivity | contradiction].
Qed.

Lemma insert_sorted_sorted (s : string) (l : list string) :
  StronglySorted (fun a b => String.leb a b = true) l ->
  StronglySorted (fun a b => String.leb a b = true) (insert_sorted s l).
Proof.
  induction 1 as [| x rest Hsorted IH Hall]; simpl.
  - repeat constructor.
  - destruct (String.leb s x) eqn:Hsx.
    + constructor; [constructor; assumption |].
      constructor; [exact Hsx |].
      eapply Forall_impl; [exact Hall |].
      intros y Hxy. exact (leb_trans _ _ _ Hsx Hxy).
    + constructor; [exact IH |].
      rewrite insert_sorted_perm. constructor; [| exact Hall].
      destruct (String.leb_total s x) as [E | E]; [congruence | exact E].
Qed.

(** X15. What [save_set] writes under a name, [load_set] reads back
    under that name, whatever the file held before; the sets under the
    other names are untouched; a name without a file reads as the empty
    set. *)
Theorem state_store_round_trip (name : string) (items : gset string)
    (fs : gmap string (list string)) :
  load_set name (save_set name items fs) = items
  /\ (forall name',
        name <> name' ->
        load_set name' (save_set name items fs) = load_set name' fs)
  /\ (fs !! name = None -> load_set name fs = ∅).
Proof.
  split; [| split].
  - unfold load_set, save_set. rewrite lookup_insert_eq.
    apply set_eq. intros x.
    rewrite elem_of_list_to_set, sorted_perm. apply elem_of_elements.
  - intros name' Hne. unfold load_set, save_set.
    rewrite lookup_insert_ne by exact Hne. reflexivity.
  - intros Hnone. unfold load_set. rewrite Hnone. reflexivity.
Qed.

(** X16. The items [save_set] writes to the file are in ascending order
    and free of repetitions, and they are exactly the members of the set
    saved: the file is a canonical form of the set. *)
Theorem save_set_canonical (name : string) (items : gset string)
    (fs : gmap string (list string)) :
  exists l,
    save_set name items fs !! name = Some l
    /\ StronglySorted (fun a b => String.leb a b = true) l
    /\ NoDup l
    /\ forall x, x ∈ l <-> x ∈ items.
Proof.
  exists (sorted items). split; [apply lookup_insert_eq |].
  split; [| split].
  - unfold sorted. induction (elements items) as [| x rest IH]; simpl.
    + constructor.
    + apply insert_sorted_sorted. exact IH.
  - rewrite sorted_perm. apply NoDup_elements.
  - intros x. rewrite sorted_perm. apply elem_of_elements.
Qed.

End StateStoreFiles.

(** ** The table store: partitions and files *)

Section StoreFacts.
Import Store.
Context {A : Type}.

Implicit Types (ds : dataset A) (gs : list (string * list A)).

Lemma string_length_app (s t : string) :
  String.length (s ++ t)%string = (String.length s + String.length t)%nat.
Proof.
  induction s as [| c s IH]; [reflexivity |].
  simpl. rewrite IH. reflexivity.
Qed.

Lemma string_app_inj_r (t s s' : string) :
  (s ++ t)%string = (s' ++ t)%string -> s = s'.
Proof.
  revert s'. induction s as [| c s IH]; intros s' E.
  - destruct s' as [| c' s']; [reflexivity |].
    apply (f_equal String.length) in E.
    rewrite !string_length_app in E. simpl in E. lia.
  - destruct s' as [| c' s'].
    + apply (f_equal String.length) in E.
      rewrite !string_length_app in E. simpl in E. lia.
    + injection E as -> E.
      f_equal. apply IH. exact E.
Qed.

(** The path of the file a partition directory gets is injective in the
    directory. *)
Lemma path_inj (root basename d d' : string) :
  (root ++ "/" ++ d ++ "/" ++ basename)%string
  = (root ++ "/" ++ d' ++ "/" ++ basename)%string ->
  d = d'.
Proof.
  intros E. apply String.app_inj in E. apply String.app_inj in E.
  apply string_app_inj_r in E. exact E.
Qed.

Lemma file_put_file (path path' : string) (rows : list A) ds :
  file path' (put_file path rows ds)
  = if String.eqb path path' then Some rows else file path' ds.
Proof.
  induction ds as [| [p old] rest IH]; simpl.
  - destruct (String.eqb path path'); reflexivity.
  - destruct (String.eqb_spec p path) as [-> | Hne]; simpl.
    + destruct (String.eqb path path'); reflexivity.
    + rewrite IH.
      destruct (String.eqb_spec p path') as [-> | Hne'];
        [| reflexivity].
      destruct (String.eqb_spec path path') as [-> | _];
        [contradiction | reflexivity].
Qed.

Lemma put_file_fresh (path : string) (rows : list A) ds :
  path ∉ List.map fst ds -> put_file path rows ds = ds ++ [(path, rows)].
Proof.
  induction ds as [| [p old] rest IH]; simpl; intros Hfresh;
    [reflexivity |].
  rewrite not_elem_of_cons in Hfresh. destruct Hfresh as [Hne Hrest].
  destruct (String.eqb_spec p path) as [-> | _]; [contradiction |].
  rewrite IH by exact Hrest. reflexivity.
Qed.

(** *** Partitions *)

Lemma group_add_keys (d : string) (a : A) gs :
  List.map fst (group_add d a gs)
  = if bool_decide (d ∈ List.map fst gs) then List.map fst gs
    else List.map fst gs ++ [d].
Proof.
  induction gs as [| [d' l] rest IH]; cbn [group_add List.map fst].
  - case_bool_decide as Hin; [inversion Hin | reflexivity].
  - destruct (String.eqb_spec d' d) as [-> | Hne]; cbn [List.map fst].
    + clear IH. case_bool_decide as Hin; [reflexivity |].
      exfalso. apply Hin. apply list_elem_of_here.
    + rewrite IH. clear IH.
      case_bool_decide as Hin; case_bool_decide as Hin'; try reflexivity.
      * exfalso. apply Hin'. apply list_elem_of_further. exact Hin.
      * exfalso. apply elem_of_cons in Hin' as [E | Hin']; [congruence |].
        contradiction.
Qed.

Lemma group_add_NoDup (d : string) (a : A) gs :
  NoDup (List.map fst gs) -> NoDup (List.map fst (group_add d a gs)).
Proof.
  intros Hnd. rewrite group_add_keys.
  destruct (bool_decide (d ∈ List.map fst gs)) eqn:Hin; [exact Hnd |].
  apply bool_decide_eq_false in Hin.
  apply NoDup_app. split; [exact Hnd |]. split.
  - intros x Hx Hx'. apply list_elem_of_singleton in Hx'. subst x.
    contradiction.
  - apply NoDup_singleton.
Qed.

Lemma group_add_rows (d : string) (a : A) gs :
  concat (List.map snd (group_add d a gs))
  ≡ₚ concat (List.map snd gs) ++ [a].
Proof.
  induction gs as [| [d' l] rest IH]; simpl; [reflexivity |].
  destruct (String.eqb d' d); simpl.
  - rewrite <- !app_assoc. apply Permutation_app_head.
    apply Permutation_app_comm.
  - rewrite IH, app_assoc. reflexivity.
Qed.

Lemma partitions_from (dir_of : A -> string) (table : list A) : forall gs,
  NoDup (List.map fst gs) ->
  NoDup (List.map fst
           (fold_left (fun gs a => group_add (dir_of a) a gs) table gs))
  /\ concat (List.map snd
               (fold_left (fun gs a => group_add (dir_of a) a gs) table gs))
     ≡ₚ concat (List.map snd gs) ++ table.
Proof.
  induction table as [| a rest IH]; intros gs Hnd; simpl.
  - rewrite app_nil_r. split; [exact Hnd | reflexivity].
  - destruct (IH (group_add (dir_of a) a gs)) as [Hkeys Hrows];
      [apply group_add_NoDup; exact Hnd |].
    split; [exact Hkeys |].
    rewrite Hrows, group_add_rows, <- app_assoc. reflexivity.
Qed.

Lemma partitions_NoDup (dir_of : A -> string) (table : list A) :
  NoDup (List.map fst (partitions dir_of table)).
Proof. apply (partitions_from dir_of table []). constructor. Qed.

Lemma partitions_rows (dir_of : A -> string) (table : list A) :
  concat (List.map snd (partitions dir_of table)) ≡ₚ table.
Proof. apply (partitions_from dir_of table []). constructor. Qed.

(** The group a row joins, and the groups it leaves alone. *)
Lemma group_add_elem (d : string) (a : A) gs (d' : string) (l' : list A) :
  NoDup (List.map fst gs) ->
  (d', l') ∈ group_add d a gs ->
  (d' <> d /\ (d', l') ∈ gs)
  \/ (d' = d /\ exists l, (d, l) ∈ gs /\ l' = l ++ [a])
  \/ (d' = d /\ (d ∉ List.map fst gs) /\ l' = [a]).
Proof.
  induction gs as [| [d0 l0] rest IH]; cbn [group_add List.map fst];
    intros Hnd Hin.
  - apply list_elem_of_singleton in Hin. injection Hin as -> ->.
    right. right. split; [reflexivity |]. split; [| reflexivity].
    intros Hd. inversion Hd.
  - apply NoDup_cons in Hnd as [Hd0 Hnd].
    destruct (String.eqb_spec d0 d) as [-> | Hne].
    + apply elem_of_cons in Hin as [E | Hin].
      * injection E as -> ->. right. left. split; [reflexivity |].
        exists l0. split; [left | reflexivity].
      * left. split; [| right; exact Hin].
        intros ->. apply Hd0. apply list_elem_of_fmap.
        exists (d, l'). split; [reflexivity | exact Hin].
    + apply elem_of_cons in Hin as [E | Hin].
      * injection E as -> ->. left. split; [exact Hne | left].
      * destruct (IH Hnd Hin)
          as [[Hd Hr] | [[-> (l & Hl & ->)] | [-> [Hd ->]]]].
        -- left. split; [exact Hd | right; exact Hr].
        -- right. left. split; [reflexivity |].
           exists l. split; [right; exact Hl | reflexivity].
        -- right. right. split; [reflexivity |]. split; [| reflexivity].
           intros Hk. apply elem_of_cons in Hk as [E | Hk];
             [congruence | contradiction].
Qed.

Lemma filter_none (f : A -> bool) (l : list A) :
  (forall x, x ∈ l -> f x = false) -> List.filter f l = [].
Proof.
  induction l as [| x rest IH]; intros Hall; [reflexivity |].
  cbn [List.filter]. rewrite (Hall x) by left.
  apply IH. intros y Hy. apply Hall. right. exact Hy.
Qed.

(** The groups of a fold are the rows seen so far, filtered by
    directory. *)
Lemma partitions_filter_from (dir_of : A -> string) (table : list A) :
  forall gs seen,
    NoDup (List.map fst gs) ->
    (forall d l, (d, l) ∈ gs ->
       l = List.filter (fun t => String.eqb (dir_of t) d) seen) ->
    (forall x, x ∈ seen -> dir_of x ∈ List.map fst gs) ->
    forall d l,
      (d, l) ∈ fold_left (fun gs a => group_add (dir_of a) a gs) table gs ->
      l = List.filter (fun t => String.eqb (dir_of t) d) (seen ++ table).
Proof.
  induction table as [| a rest IH]; intros gs seen Hnd Hgs Hseen d l;
    cbn [fold_left].
  - rewrite app_nil_r. apply Hgs.
  - replace (seen ++ a :: rest) with ((seen ++ [a]) ++ rest)
      by (rewrite <- app_assoc; reflexivity).
    apply IH.
    + apply group_add_NoDup. exact Hnd.
    + intros d' l' Hin. rewrite List.filter_app. cbn [List.filter].
      destruct (group_add_elem _ _ _ _ _ Hnd Hin)
        as [[Hd Hr] | [[-> (l0 & Hl & ->)] | [-> [Hd ->]]]].
      * destruct (String.eqb_spec (dir_of a) d') as [E | _];
          [congruence |].
        rewrite app_nil_r. apply Hgs. exact Hr.
      * rewrite String.eqb_refl. f_equal. apply Hgs. exact Hl.
      * rewrite String.eqb_refl. rewrite filter_none; [reflexivity |].
        intros x Hx. apply String.eqb_neq. intros E. apply Hd.
        rewrite <- E. apply Hseen. exact Hx.
    + intros x Hx. rewrite group_add_keys.
      apply elem_of_app in Hx as [Hx | Hx].
      * case_bool_decide; [apply Hseen; exact Hx |].
        apply elem_of_app. left. apply Hseen. exact Hx.
      * apply list_elem_of_singleton in Hx. subst x.
        case_bool_decide as Hk; [exact Hk |].
        apply elem_of_app. right. left.
Qed.

(** The file of a partition directory gets the rows of that directory,
    in table order. *)
Lemma partitions_filter (dir_of : A -> string) (table : list A)
    (d : string) (l : list A) :
  (d, l) ∈ partitions dir_of table ->
  l = List.filter (fun t => String.eqb (dir_of t) d) table.
Proof.
  intros Hin.
  apply (partitions_filter_from dir_of table [] []); try exact Hin.
  - constructor.
  - intros d' l' H. inversion H.
  - intros x H. inversion H.
Qed.

(** *** Writing a table *)

Variables root basename : string.

Local Abbreviation path d := (root ++ "/" ++ d ++ "/" ++ basename)%string.

Lemma put_groups_file gs : forall ds (p : string),
  p ∉ List.map (fun g => path g.1) gs ->
  file p (fold_left (fun ds g => put_file (path g.1) g.2 ds) gs ds)
  = file p ds.
Proof.
  induction gs as [| g rest IH]; intros ds p Hp; simpl; [reflexivity |].
  simpl in Hp. rewrite not_elem_of_cons in Hp. destruct Hp as [Hne Hrest].
  rewrite IH by exact Hrest. rewrite file_put_file.
  destruct (String.eqb_spec (path g.1) p) as [E | _];
    [congruence | reflexivity].
Qed.

(** After the write, the file of every partition directory of the table
    holds the rows of that directory, and nothing else. *)
Lemma put_groups_written gs : forall ds (d : string) (rows : list A),
  NoDup (List.map fst gs) ->
  (d, rows) ∈ gs ->
  file (path d) (fold_left (fun ds g => put_file (path g.1) g.2 ds) gs ds)
  = Some rows.
Proof.
  induction gs as [| g rest IH]; intros ds d rows Hnd Hin.
  - inversion Hin.
  - simpl. simpl in Hnd. apply NoDup_cons in Hnd as [Hfresh Hnd].
    apply elem_of_cons in Hin as [<- | Hin].
    + rewrite put_groups_file.
      * rewrite file_put_file. cbn [fst snd].
        rewrite String.eqb_refl. reflexivity.
      * cbn [fst]. intros Hp. apply list_elem_of_fmap in Hp as (g' & E & Hg').
        apply path_inj in E. apply Hfresh. rewrite E.
        apply list_elem_of_fmap. exists g'. split; [reflexivity | exact Hg'].
    + apply IH; assumption.
Qed.

(** Written under fresh paths, the groups are appended. *)
Lemma put_groups_fresh gs : forall ds,
  NoDup (List.map fst gs) ->
  (forall g, g ∈ gs -> path g.1 ∉ List.map fst ds) ->
  fold_left (fun ds g => put_file (path g.1) g.2 ds) gs ds
  = ds ++ List.map (fun g => (path g.1, g.2)) gs.
Proof.
  induction gs as [| g rest IH]; intros ds Hnd Hfresh; simpl.
  - rewrite app_nil_r. reflexivity.
  - simpl in Hnd. apply NoDup_cons in Hnd as [Hg Hnd].
    rewrite put_file_fresh by (apply Hfresh; apply list_elem_of_here).
    rewrite IH; [rewrite <- app_assoc; reflexivity | exact Hnd |].
    intros g' Hg'. rewrite List.map_app. cbn [List.map fst].
    rewrite elem_of_app, list_elem_of_singleton. intros [Hin | E].
    + exact (Hfresh g' (list_elem_of_further _ _ _ Hg') Hin).
    + apply path_inj in E. apply Hg. rewrite <- E.
      apply list_elem_of_fmap. exists g'. split; [reflexivity | exact Hg'].
Qed.

Lemma read_put_table_fresh (dir_of : A -> string) (table : list A) ds :
  (forall d, path d ∉ List.map fst ds) ->
  read (put_table root dir_of basename table ds) ≡ₚ read ds ++ table.
Proof.
  intros Hfresh. unfold put_table.
  change (fun (ds0 : dataset A) (g : string * list A) =>
            put_file (root ++ "/" ++ g.1 ++ "/" ++ basename)%string g.2 ds0)
    with (fun (ds0 : dataset A) (g : string * list A) =>
            put_file (path g.1) g.2 ds0).
  rewrite put_groups_fresh;
    [| apply partitions_NoDup | intros g _; apply Hfresh].
  unfold read. rewrite List.map_app, concat_app, List.map_map. cbn [snd].
  rewrite partitions_rows. reflexivity.
Qed.

Lemma file_put_table (dir_of : A -> string) (table : list A) ds
    (d : string) (rows : list A) :
  (d, rows) ∈ partitions dir_of table ->
  file (path d) (put_table root dir_of basename table ds) = Some rows.
Proof.
  intros Hin. unfold put_table.
  change (fun (ds0 : dataset A) (g : string * list A) =>
            put_file (root ++ "/" ++ g.1 ++ "/" ++ basename)%string g.2 ds0)
    with (fun (ds0 : dataset A) (g : string * list A) =>
            put_file (path g.1) g.2 ds0).
  apply put_groups_written; [apply partitions_NoDup | exact Hin].
Qed.

End StoreFacts.

(** ** Raw ingest: what a successful write persists *)

Section BronzeAppend.
Import Schema BronzeWriter.
Local Open Scope string_scope.

Lemma for_rows_Forall2 {X Y} (f : X -> result Y) (l : list X) :
  forall out, for_rows f l = Ok out -> Forall2 (fun x y => f x = Ok y) l out.
Proof.
  induction l as [| x rest IH]; simpl; intros out.
  - intros [= <-]. constructor.
  - destruct (f x) as [y |] eqn:Hx; simpl; [| discriminate].
    destruct (for_rows f rest) as [ys |]; simpl; [| discriminate].
    intros [= <-]. constructor; [exact Hx | apply IH; reflexivity].
Qed.

Lemma Forall2_zip_l {X Y Z} (P : X -> Y -> Prop) (Q : X -> Z -> Prop)
    (l : list X) (ys : list Y) (zs : list Z) :
  Forall2 P l ys -> Forall2 Q l zs ->
  Forall2 (fun x yz => P x yz.1 /\ Q x yz.2) l (zip ys zs)
  /\ zip (zip l ys) zs
     = List.map (fun x => (x.1, x.2.1, x.2.2)) (zip l (zip ys zs)).
Proof.
  intros HP. revert zs.
  induction HP as [| x y l ys Hxy _ IH]; intros zs HQ.
  - inversion HQ. split; [constructor | reflexivity].
  - inversion HQ as [| x' z l' zs' Hxz Hrest]; subst.
    destruct (IH zs' Hrest) as [IH1 IH2]. simpl.
    split; [constructor; [split; assumption | exact IH1] |].
    rewrite IH2. reflexivity.
Qed.

(** X17. The frames [write] converts are typed row by row: the table
    has one row per row of the frame, in frame order; where a time cell
    of the frame is a time stamp, the time of the table row is that time
    stamp floored to whole milliseconds (nanoseconds divided by 10^6,
    rounding down); where the farm, turbine or run cell is a string, the
    table row carries that string.  (What pandas makes of a time cell
    that is not a time stamp is not part of the statement.) *)
Theorem convert_row_by_row (df : DataFrame) (table : list Telemetry) :
  convert df = Ok table ->
  Forall2
    (fun row t =>
       (forall ns : Z,
          at_col df row "event_time" = Some (CTime ns) ->
          event_time t = (ns / 1000000)%Z
          /\ (event_time t * 1000000 <= ns < (event_time t + 1) * 1000000)%Z)
       /\ (forall ns : Z,
             at_col df row "ingest_time" = Some (CTime ns) ->
             ingest_time t = (ns / 1000000)%Z)
       /\ (forall s, at_col df row "farm_id" = Some (CStr s) ->
                     farm_id t = s)
       /\ (forall s, at_col df row "turbine_id" = Some (CStr s) ->
                     turbine_id t = s)
       /\ (forall s, at_col df row "sim_run_id" = Some (CStr s) ->
                     sim_run_id t = s))
    (rows df) table.
Proof.
  unfold convert.
  destruct (for_rows _ (rows df)) as [evs |] eqn:Hev; cbn [rbind];
    [| discriminate].
  destruct (for_rows (fun row => to_ms "ingest_time" _) (rows df))
    as [ings |] eqn:Hing; cbn [rbind]; [| discriminate].
  match goal with
  | |- context [List.filter ?f ?l] => destruct (List.filter f l)
  end; [| discriminate].
  intros Htable.
  apply for_rows_Forall2 in Hev, Hing, Htable.
  destruct (Forall2_zip_l _ _ _ _ _ Hev Hing) as [Htimes Hzip].
  rewrite Hzip in Htable. clear Hzip Hev Hing.
  remember (zip evs ings) as times eqn:E. clear E.
  revert table Htable.
  induction Htimes as [| row [ev ing] l ts [Hev Hing] _ IH];
    intros table Htable.
  - inversion Htable. constructor.
  - simpl in Htable.
    inversion Htable as [| x t l' table' Hrow Hrest]; subst.
    constructor; [| apply IH; exact Hrest].
    cbn [fst snd] in *.
    unfold to_ms in Hev, Hing.
    destruct (at_col df row "event_time") as [[ns | | |] |];
      try discriminate.
    destruct (at_col df row "ingest_time") as [[ns' | | |] |];
      try discriminate.
    injection Hev as <-. injection Hing as <-.
    unfold to_telemetry, to_str, to_float in Hrow.
    destruct (at_col df row "farm_id") as [[| farm | |] |];
      try discriminate.
    destruct (at_col df row "turbine_id") as [[| turb | |] |];
      try discriminate.
    cbn [rbind] in Hrow.
    destruct (at_col df row "wind_speed_free_mps") as [[| | a1 |] |];
      try discriminate.
    destruct (at_col df row "wind_speed_mps") as [[| | a2 |] |];
      try discriminate.
    destruct (at_col df row "wind_dir_deg") as [[| | a3 |] |];
      try discriminate.
    destruct (at_col df row "power_kw") as [[| | a4 |] |];
      try discriminate.
    destruct (at_col df row "rotor_speed_rpm") as [[| | a5 |] |];
      try discriminate.
    destruct (at_col df row "yaw_deg") as [[| | a6 |] |];
      try discriminate.
    destruct (at_col df row "status") as [[| st | |] |];
      try discriminate.
    destruct (at_col df row "sim_run_id") as [[| run | |] |];
      try discriminate.
    destruct (at_col df row "source") as [[| src | |] |];
      try discriminate.
    cbn [rbind] in Hrow. injection Hrow as <-.
    cbn [event_time ingest_time farm_id turbine_id sim_run_id].
    split; [| split; [| split; [| split]]].
    + intros n [= <-]. split; [reflexivity |].
      pose proof (Z.mul_div_le ns 1000000).
      pose proof (Z.mul_succ_div_gt ns 1000000). lia.
    + intros n [= <-]. reflexivity.
    + intros s [= <-]. reflexivity.
    + intros s [= <-]. reflexivity.
    + intros s [= <-]. reflexivity.
Qed.

Lemma file_app_l {X} (p : string) (rows : list X)
    (ds ds' : Store.dataset X) :
  Store.file p ds = Some rows -> Store.file p (ds ++ ds')%list = Some rows.
Proof.
  induction ds as [| [q old] rest IH]; simpl; [discriminate |].
  destruct (String.eqb q p); [auto | exact IH].
Qed.

(** X18. A write under a fresh file name loses nothing.  When the frame
    passes the checks and converts, the store completes, and no file of
    the raw tier already has the name [part-<uuid>-0.parquet] in a
    partition directory of the table, [write] returns, and the raw tier
    afterwards consists of the files it held, each with the rows it had,
    followed by one new file per partition directory of the table, which
    holds the rows of that directory in table order; the new files
    together hold the rows of the table; the other tiers and the state
    files are as before.  A file stands for the rows written to it: how a
    later read types the partition columns is not part of the
    statement. *)
Theorem bronze_write_appends (self : BronzeWriter.t) (uuid_hex : string)
    (df : DataFrame) (w : world) (table : list Telemetry) :
  let path dir :=
    base_path self ++ "/" ++ dir ++ "/"
    ++ ("part-" ++ uuid_hex ++ "-0.parquet") in
  let written :=
    List.map (fun g => (path g.1, g.2))
      (Store.partitions partition_dir table) in
  empty df = false ->
  missing df = [] ->
  convert df = Ok table ->
  Forall (fun g => path g.1 ∉ List.map fst (Store.mkdir (bronze w)))
    (Store.partitions partition_dir table) ->
  write self uuid_hex Store.Completes df w
  = (Ok tt,
     {| bronze := Some (Store.mkdir (bronze w) ++ written)%list;
        silver := silver w;
        gold_hourly_energy := gold_hourly_energy w;
        gold_farm_kpis := gold_farm_kpis w;
        state := state w;
        journal :=
          (journal w ++ [(base_path self, List.map process_key table)])%list |})
  /\ (forall p rows,
        Store.file p (Store.mkdir (bronze w)) = Some rows ->
        Store.file p (Store.mkdir (bronze w) ++ written)%list = Some rows)
  /\ NoDup (List.map fst written)
  /\ (forall dir rows,
        (path dir, rows) ∈ written ->
        rows = List.filter (fun t => String.eqb (partition_dir t) dir) table)
  /\ concat (List.map snd written) ≡ₚ table.
Proof.
  intros path written Hempty Hmissing Hconvert Hfresh. unfold write.
  rewrite Hempty, Hmissing, Hconvert. cbn [Store.write_to_dataset].
  split; [| split; [| split; [| split]]].
  - unfold Store.put_table.
    rewrite (put_groups_fresh (base_path self)
               ("part-" ++ uuid_hex ++ "-0.parquet"));
      [reflexivity | apply partitions_NoDup |].
    intros g Hg. rewrite Forall_forall in Hfresh. apply Hfresh. exact Hg.
  - intros p rows. apply file_app_l.
  - unfold written. rewrite List.map_map. cbn [fst].
    apply (NoDup_fmap_2_strong (fun g : string * list Telemetry => path g.1)).
    + intros [d l] [d' l'] Hg Hg' E. apply path_inj in E.
      cbn [fst] in E. subst d'. f_equal.
      rewrite (partitions_filter _ _ _ _ Hg).
      symmetry. exact (partitions_filter _ _ _ _ Hg').
    + eapply NoDup_fmap_1. apply partitions_NoDup.
  - intros dir rows Hin. unfold written in Hin.
    apply list_elem_of_fmap in Hin as ([d l] & E & Hg). cbn [fst snd] in E.
    injection E as Ep ->. apply path_inj in Ep. subst d.
    exact (partitions_filter _ _ _ _ Hg).
  - unfold written. rewrite List.map_map. cbn [snd].
    apply partitions_rows.
Qed.

End BronzeAppend.

Lemma convert_row_by_row_witness :
  exists table,
    BronzeWriter.convert example_frame = Ok table
    /\ List.map Schema.event_time table = [1767582000123%Z]
    /\ List.map Schema.sim_run_id table = ["SIM-A"%string].
Proof.
  destruct (BronzeWriter.convert example_frame) as [table |] eqn:Hc;
    [| vm_compute in Hc; discriminate Hc].
  exists table. split; [reflexivity |].
  pose proof (convert_row_by_row example_frame table Hc) as Hrows.
  inversion Hrows as [| row t l ts (Hev & _ & _ & _ & Hrun) Hrest]; subst.
  inversion Hrest; subst.
  destruct (Hev 1767582000123456789%Z eq_refl) as [Ht _].
  cbn [List.map]. rewrite Ht, (Hrun "SIM-A"%string eq_refl).
  split; reflexivity.
Defined.

(** A second write into a raw tier that holds the file of a first. *)
Lemma bronze_write_appends_witness :
  let w :=
    (BronzeWriter.write BronzeWriter.default "ab12" Store.Completes
       example_frame empty_world).2 in
  exists table held ds',
    BronzeWriter.convert example_frame = Ok table
    /\ bronze w = Some held
    /\ length held = 1%nat
    /\ bronze
         (BronzeWriter.write BronzeWriter.default "cd34" Store.Completes
            example_frame w).2 = Some ds'
    /\ length ds' = 2%nat
    /\ (forall p rows,
          Store.file p held = Some rows -> Store.file p ds' = Some rows).
Proof.
  intros w.
  destruct (BronzeWriter.convert example_frame) as [table |] eqn:Hc;
    [| vm_compute in Hc; discriminate Hc].
  assert (Hempty : BronzeWriter.empty example_frame = false) by reflexivity.
  assert (Hmissing : BronzeWriter.missing example_frame = [])
    by reflexivity.
  assert (Hfresh :
            Forall
              (fun g : string * list Schema.Telemetry =>
                 (BronzeWriter.base_path BronzeWriter.default ++ "/" ++ g.1
                  ++ "/" ++ ("part-" ++ "cd34" ++ "-0.parquet"))%string
                 ∉ List.map fst (Store.mkdir (bronze w)))
              (Store.partitions BronzeWriter.partition_dir table)).
  { vm_compute in Hc. injection Hc as <-.
    apply Forall_forall. intros g Hg. vm_compute in Hg.
    apply list_elem_of_singleton in Hg. subst g.
    intros Hin. vm_compute in Hin.
    apply list_elem_of_singleton in Hin. discriminate Hin. }
  destruct (bronze_write_appends BronzeWriter.default "cd34" example_frame
              w table Hempty Hmissing Hc Hfresh)
    as (Hwrite & Hkept & _ & _ & _).
  exists table, (Store.mkdir (bronze w)). eexists.
  split; [reflexivity |].
  split; [reflexivity |].
  split; [reflexivity |].
  split; [rewrite Hwrite; reflexivity |].
  split; [| exact Hkept].
  vm_compute in Hc. injection Hc as <-. reflexivity.
Defined.

(** ** The curation stage: flags, new rows, partition files *)

Section CurationRun.
Import Schema SilverJob.
Local Open Scope string_scope.

Variable self : SilverJob.t.

(** X19. [_add_range_flags] starts from cleared flags, so it is
    idempotent and does not depend on the flags its input carries: a
    second pass changes nothing, and two frames that differ only in
    their range flags are flagged alike. *)
Theorem add_range_flags_idempotent (df : list Curated) :
  _add_range_flags self (_add_range_flags self df) = _add_range_flags self df
  /\ _add_range_flags self df
     = _add_range_flags self
         (List.map
            (fun r => {| base := base r; is_duplicate := is_duplicate r;
                         has_range_violation := false;
                         range_violation_fields := "" |}) df)
  /\ List.map base (_add_range_flags self df) = List.map base df
  /\ List.map is_duplicate (_add_range_flags self df)
     = List.map is_duplicate df.
Proof.
  rewrite !add_range_flags_flagged, !List.map_map.
  repeat split; apply List.map_ext; intros r; reflexivity.
Qed.

(** The curated rows come from the frame. *)
Lemma curate_elem (df : list Telemetry) (c : Curated) :
  c ∈ curate self df -> base c ∈ df.
Proof.
  rewrite curate_unfold. intros Hc.
  apply list_elem_of_fmap in Hc as (y & -> & Hy).
  apply keep_first_elem in Hy as [Hy _].
  rewrite sort_values_perm in Hy.
  apply list_elem_of_fmap in Hy as (r & -> & Hr). exact Hr.
Qed.

Lemma partitions_elem {X} (dir_of : X -> string) (table : list X)
    (d : string) (rows : list X) (x : X) :
  (d, rows) ∈ Store.partitions dir_of table -> x ∈ rows -> x ∈ table.
Proof.
  intros Hg Hx. rewrite <- (partitions_rows dir_of table).
  apply list_elem_of_In, in_concat. exists rows.
  split; [| apply list_elem_of_In; exact Hx].
  apply in_map_iff. exists (d, rows).
  split; [reflexivity | apply list_elem_of_In; exact Hg].
Qed.

(** X20. A run that finds new rows and whose write completes writes
    rows of the raw tier only, and none of a bucket the processed set
    already holds: the table written is the curation of the rows whose
    incremental key is not in the set, every row of it is a raw row with
    a key outside the set, and the run saves the set extended by the keys
    of the table. *)
Theorem silver_run_writes_new_rows_only (w : world)
    (ds : Store.dataset Telemetry) :
  bronze w = Some ds ->
  let processed := StateStore.load_set (state_name self) (state w) in
  let table := curate self (new_rows processed (Store.read ds)) in
  new_rows processed (Store.read ds) <> [] ->
  run self Store.Completes w
  = (Ok (silver_path self),
     commit
       (with_silver w
          (Store.put_table (silver_path self) partition_dir "part-0.parquet"
             table (Store.mkdir (silver w))))
       (state_name self)
       (processed ∪ list_to_set
                      (List.map (fun c => process_key (base c)) table))
       (silver_path self)
       (List.map (fun c => process_key (base c)) table))
  /\ Forall (fun c =>
               base c ∈ Store.read ds
               /\ process_key (base c) ∉ processed) table.
Proof.
  intros Hb processed table Hnew. split.
  - unfold run. rewrite Hb.
    assert (Hlen : Nat.eqb (length (new_rows processed (Store.read ds))) 0
                   = false).
    { destruct (new_rows processed (Store.read ds)); [contradiction |].
      reflexivity. }
    assert (Hraw : Nat.eqb (length (Store.read ds)) 0 = false).
    { destruct (Store.read ds); [contradiction Hnew; reflexivity |].
      reflexivity. }
    rewrite Hraw. fold processed. rewrite Hlen. reflexivity.
  - apply Forall_forall. intros c Hc.
    apply curate_elem in Hc. apply new_rows_elem in Hc. exact Hc.
Qed.

(** X21. The curation stage writes every partition under the one file
    name [part-0.parquet]: after a run whose write completes, the file
    of each partition directory of the table holds exactly the rows of
    this run for that directory, none of which belongs to a bucket
    processed before.  Whatever an earlier run had written to that file
    is replaced. *)
Theorem silver_run_replaces_partition_files (w : world)
    (ds : Store.dataset Telemetry) (dir : string) (rows : list Curated) :
  bronze w = Some ds ->
  let processed := StateStore.load_set (state_name self) (state w) in
  let table := curate self (new_rows processed (Store.read ds)) in
  new_rows processed (Store.read ds) <> [] ->
  (dir, rows) ∈ Store.partitions partition_dir table ->
  exists sds',
    silver (run self Store.Completes w).2 = Some sds'
    /\ Store.file (silver_path self ++ "/" ++ dir ++ "/" ++ "part-0.parquet")
         sds' = Some rows
    /\ Forall (fun c => process_key (base c) ∉ processed) rows.
Proof.
  intros Hb processed table Hnew Hdir.
  exists (Store.put_table (silver_path self) partition_dir "part-0.parquet"
            table (Store.mkdir (silver w))).
  split; [| split].
  - unfold run. rewrite Hb.
    destruct (Store.read ds) as [| r0 raw] eqn:Hraw;
      [contradiction Hnew; reflexivity |].
    cbn [length Nat.eqb]. fold processed.
    destruct (new_rows processed (r0 :: raw)) as [| n0 new] eqn:Hn;
      [contradiction Hnew; reflexivity |].
    reflexivity.
  - apply file_put_table. exact Hdir.
  - apply Forall_forall. intros c Hc.
    apply (partitions_elem _ _ _ _ _ Hdir) in Hc.
    apply curate_elem in Hc. apply new_rows_elem in Hc. apply Hc.
Qed.

End CurationRun.

Lemma silver_run_writes_new_rows_only_witness :
  exists ds,
    bronze two_scenarios = Some ds
    /\ SilverJob.new_rows
         (StateStore.load_set (SilverJob.state_name SilverJob.default)
            (state two_scenarios)) (Store.read ds) <> []
    /\ (SilverJob.run SilverJob.default Store.Completes two_scenarios).1
       = Ok "data_lake/silver"%string.
Proof.
  set (ds := Store.mkdir (bronze two_scenarios)).
  assert (Hb : bronze two_scenarios = Some ds) by reflexivity.
  assert (Hnew : SilverJob.new_rows
                   (StateStore.load_set
                      (SilverJob.state_name SilverJob.default)
                      (state two_scenarios)) (Store.read ds) <> [])
    by (vm_compute; discriminate).
  exists ds. split; [exact Hb |]. split; [exact Hnew |].
  destruct (silver_run_writes_new_rows_only SilverJob.default two_scenarios
              ds Hb Hnew) as [Hrun _].
  rewrite Hrun. reflexivity.
Defined.

Lemma silver_run_replaces_partition_files_witness :
  exists ds dir rows sds',
    bronze two_scenarios = Some ds
    /\ (dir, rows)
       ∈ Store.partitions SilverJob.partition_dir
           (SilverJob.curate SilverJob.default
              (SilverJob.new_rows
                 (StateStore.load_set
                    (SilverJob.state_name SilverJob.default)
                    (state two_scenarios)) (Store.read ds)))
    /\ silver (SilverJob.run SilverJob.default Store.Completes
                 two_scenarios).2 = Some sds'
    /\ Store.file
         (SilverJob.silver_path SilverJob.default ++ "/" ++ dir ++ "/"
          ++ "part-0.parquet")%string sds' = Some rows.
Proof.
  set (ds := Store.mkdir (bronze two_scenarios)).
  assert (Hb : bronze two_scenarios = Some ds) by reflexivity.
  assert (Hnew : SilverJob.new_rows
                   (StateStore.load_set
                      (SilverJob.state_name SilverJob.default)
                      (state two_scenarios)) (Store.read ds) <> [])
    by (vm_compute; discriminate).
  assert (Hg : exists dir rows rest,
             Store.partitions SilverJob.partition_dir
               (SilverJob.curate SilverJob.default
                  (SilverJob.new_rows
                     (StateStore.load_set
                        (SilverJob.state_name SilverJob.default)
                        (state two_scenarios)) (Store.read ds)))
             = (dir, rows) :: rest).
  { vm_compute. eexists. eexists. eexists. reflexivity. }
  destruct Hg as (dir & rows & rest & Hg).
  assert (Hin : (dir, rows)
                ∈ Store.partitions SilverJob.partition_dir
                    (SilverJob.curate SilverJob.default
                       (SilverJob.new_rows
                          (StateStore.load_set
                             (SilverJob.state_name SilverJob.default)
                             (state two_scenarios)) (Store.read ds))))
    by (rewrite Hg; apply list_elem_of_here).
  destruct (silver_run_replaces_partition_files SilverJob.default
              two_scenarios ds dir rows Hb Hnew Hin)
    as (sds' & Hs & Hfile & _).
  exists ds, dir, rows, sds'. auto.
Defined.

(** ** Runs of the pipeline: the processed sets *)

Section PipelineFrames.
Import Schema.

Variable j : jobs.

(** A step that credits its writes never shrinks a persisted set. *)
Lemma credits_step_grows {A : Type}
    (tier : world -> option (Store.dataset A)) (root name : string)
    (dir_of : A -> string) (pk : A -> string) (o : Store.outcome A)
    (w w' : world) (n : string) :
  credits_step tier root name dir_of pk o w w' ->
  StateStore.load_set n (state w) ⊆ StateStore.load_set n (state w').
Proof.
  intros (_ & Hchange & _ & Hframe & _).
  destruct (decide (state w' = state w)) as [E | Hne].
  - rewrite E. reflexivity.
  - destruct (Hchange Hne) as (_ & table & _ & _ & Hstate).
    destruct (decide (name = n)) as [<- | Hn].
    + rewrite Hstate, load_save_set. apply union_subseteq_l.
    + rewrite (Hframe n Hn). reflexivity.
Qed.

Lemma invoke_grows (w : world) (i : invocation) (n : string) :
  StateStore.load_set n (state w)
  ⊆ StateStore.load_set n (state (invoke j w i)).
Proof.
  destruct i as [uuid o df | o | dt o | dt rated o]; simpl.
  - destruct (bronze_write_frame (bronze_writer j) uuid o df w) as [-> _].
    reflexivity.
  - destruct (silver_run_credits (silver_job j) o w) as [Hc _].
    exact (credits_step_grows _ _ _ _ _ _ _ _ n Hc).
  - destruct (hourly_energy_credits (gold_job j) dt o w) as [Hc _].
    exact (credits_step_grows _ _ _ _ _ _ _ _ n Hc).
  - destruct (farm_kpis_credits (gold_job j) dt rated o w) as [Hc _].
    exact (credits_step_grows _ _ _ _ _ _ _ _ n Hc).
Qed.

(** X22. Along any run of the pipeline (stages in any order, any number
    of times, any write failing) every persisted processed set only
    grows: a bucket key once recorded under a name is recorded under it
    ever after. *)
Theorem pipeline_processed_sets_grow (trace : list invocation) (w : world)
    (name k : string) :
  k ∈ StateStore.load_set name (state w) ->
  k ∈ StateStore.load_set name (state (pipeline j trace w)).
Proof.
  unfold pipeline. revert w.
  induction trace as [| i rest IH]; intros w Hk; simpl; [exact Hk |].
  apply IH. apply (invoke_grows w i name). exact Hk.
Qed.

End PipelineFrames.

Lemma pipeline_processed_sets_grow_witness :
  let w :=
    pipeline default_jobs
      [ Ingest "ab12" Store.Completes example_frame;
        Curate Store.Completes ] empty_world in
  "SIM-A|F001|2026-01-05T03:00:00Z"%string
  ∈ StateStore.load_set "silver_processed_hours" (state w)
  /\ "SIM-A|F001|2026-01-05T03:00:00Z"%string
     ∈ StateStore.load_set "silver_processed_hours"
         (state (pipeline default_jobs
                   [ RollUpEnergy 60 Store.Completes;
                     Curate (Store.Raises []) ] w)).
Proof.
  intros w.
  assert (Hk : "SIM-A|F001|2026-01-05T03:00:00Z"%string
               ∈ StateStore.load_set "silver_processed_hours" (state w)).
  { vm_compute. reflexivity. }
  split; [exact Hk |].
  exact (pipeline_processed_sets_grow default_jobs _ w _ _ Hk).
Defined.

(** ** The rollups: groups, counts, rates, keys, reruns *)

Section GroupBy.
Import GoldJob.
Context {K A : Type}.
Variable cmp : K -> K -> comparison.
Variable key : A -> K.

Implicit Types (gs : list (K * list A)) (df : list A).

Lemma group_insert_rows (k : K) (a : A) gs :
  concat (List.map snd (group_insert cmp k a gs))
  ≡ₚ a :: concat (List.map snd gs).
Proof.
  induction gs as [| [k' l] rest IH]; simpl; [reflexivity |].
  destruct (cmp k k'); simpl.
  - rewrite <- app_assoc. simpl. symmetry. apply Permutation_middle.
  - reflexivity.
  - rewrite IH. symmetry. apply Permutation_middle.
Qed.

Lemma group_insert_nonempty (k : K) (a : A) gs :
  Forall (fun g => g.2 <> []) gs ->
  Forall (fun g => g.2 <> []) (group_insert cmp k a gs).
Proof.
  induction 1 as [| [k' l] rest Hg Hrest IH]; simpl.
  - constructor; [discriminate | constructor].
  - destruct (cmp k k').
    + constructor; [| exact Hrest]. simpl. destruct l; discriminate.
    + constructor; [discriminate |]. constructor; assumption.
    + constructor; assumption.
Qed.

Hypothesis cmp_eq : forall a b, cmp a b = Eq -> a = b.

Lemma group_insert_keyed (a : A) gs :
  Forall (fun g => Forall (fun x => key x = g.1) g.2) gs ->
  Forall (fun g => Forall (fun x => key x = g.1) g.2)
    (group_insert cmp (key a) a gs).
Proof.
  induction 1 as [| [k' l] rest Hg Hrest IH]; simpl.
  - repeat constructor.
  - destruct (cmp (key a) k') eqn:Hc.
    + constructor; [| exact Hrest]. simpl.
      apply Forall_app. split; [exact Hg |].
      constructor; [apply cmp_eq; exact Hc | constructor].
    + constructor; [repeat constructor |]. constructor; assumption.
    + constructor; assumption.
Qed.

Lemma groupby_from df : forall gs,
  Forall (fun g => g.2 <> []) gs ->
  Forall (fun g => Forall (fun x => key x = g.1) g.2) gs ->
  let out := fold_left (fun gs a => group_insert cmp (key a) a gs) df gs in
  concat (List.map snd out) ≡ₚ concat (List.map snd gs) ++ df
  /\ Forall (fun g => g.2 <> []) out
  /\ Forall (fun g => Forall (fun x => key x = g.1) g.2) out.
Proof.
  induction df as [| a rest IH]; intros gs Hne Hkey; simpl.
  - rewrite app_nil_r. auto.
  - destruct (IH (group_insert cmp (key a) a gs)) as (Hrows & Hne' & Hkey').
    + apply group_insert_nonempty. exact Hne.
    + apply group_insert_keyed. exact Hkey.
    + split; [| split; assumption].
      rewrite Hrows, group_insert_rows. simpl.
      rewrite <- Permutation_middle. reflexivity.
Qed.

(** The groups of [groupby] hold the rows of the frame, each row once;
    no group is empty; the rows of a group have the key of the group. *)
Lemma groupby_groups df :
  concat (List.map snd (groupby cmp key df)) ≡ₚ df
  /\ Forall (fun g => g.2 <> []) (groupby cmp key df)
  /\ Forall (fun g => Forall (fun x => key x = g.1) g.2)
       (groupby cmp key df).
Proof. apply (groupby_from df []); constructor. Qed.

Lemma groupby_total df :
  sum_list (List.map (fun g => length g.2) (groupby cmp key df)) = length df.
Proof.
  assert (Hlen : forall gs,
             sum_list (List.map (fun g => length g.2) gs)
             = length (concat (List.map snd gs))).
  { induction gs as [| g rest IH]; simpl; [reflexivity |].
    rewrite length_app, IH. reflexivity. }
  rewrite Hlen. apply Permutation_length. apply groupby_groups.
Qed.

Lemma groupby_keys df (k : K) :
  k ∈ List.map fst (groupby cmp key df) <-> k ∈ List.map key df.
Proof.
  destruct (groupby_groups df) as (Hrows & Hne & Hkey).
  rewrite Forall_forall in Hne. rewrite Forall_forall in Hkey.
  split.
  - intros Hk. apply list_elem_of_fmap in Hk as ([k' l] & -> & Hg).
    specialize (Hne _ Hg). specialize (Hkey _ Hg). simpl in *.
    destruct l as [| x l]; [contradiction |].
    apply Forall_cons in Hkey as [Hx _]. rewrite <- Hx.
    apply list_elem_of_fmap. exists x. split; [reflexivity |].
    rewrite <- Hrows. apply list_elem_of_In, in_concat. exists (x :: l).
    split; [| left; reflexivity].
    apply in_map_iff. exists (k', x :: l).
    split; [reflexivity | apply list_elem_of_In; exact Hg].
  - intros Hk. apply list_elem_of_fmap in Hk as (x & -> & Hx).
    rewrite <- Hrows in Hx. apply list_elem_of_In, in_concat in Hx.
    destruct Hx as (l & Hl & Hx).
    apply in_map_iff in Hl as ([k' l'] & E & Hg). simpl in E. subst l'.
    apply list_elem_of_In in Hg. specialize (Hkey _ Hg). simpl in Hkey.
    rewrite Forall_forall in Hkey.
    rewrite (Hkey x) by (apply list_elem_of_In; exact Hx).
    apply list_elem_of_fmap. exists (k', l). split; [reflexivity | exact Hg].
Qed.

End GroupBy.

Section RollupRows.
Import Schema GoldJob.
Local Open Scope string_scope.

Lemma lex_Eq (c d : comparison) : lex c d = Eq -> c = Eq /\ d = Eq.
Proof. destruct c; simpl; intros H; try discriminate. auto. Qed.

Lemma hourly_key_compare_Eq (a b : string * string * string * Z) :
  hourly_key_compare a b = Eq -> a = b.
Proof.
  destruct a as [[[a1 a2] a3] a4], b as [[[b1 b2] b3] b4].
  unfold hourly_key_compare. cbn [fst snd]. intros H.
  apply lex_Eq in H as [H1 H]. apply lex_Eq in H as [H2 H].
  apply lex_Eq in H as [H3 H4].
  apply String.compare_eq_iff in H1, H2, H3. apply Z.compare_eq in H4.
  congruence.
Qed.

Lemma kpi_key_compare_Eq (a b : string * string * Z) :
  kpi_key_compare a b = Eq -> a = b.
Proof.
  destruct a as [[a1 a2] a3], b as [[b1 b2] b3].
  unfold kpi_key_compare. cbn [fst snd]. intros H.
  apply lex_Eq in H as [H1 H]. apply lex_Eq in H as [H2 H3].
  apply String.compare_eq_iff in H1, H2. apply Z.compare_eq in H3.
  congruence.
Qed.

Lemma count_le_length {X} (p : X -> bool) (l : list X) :
  (count p l <= length l)%nat.
Proof.
  unfold count. induction l as [| x rest IH]; simpl; [lia |].
  destruct (p x); simpl; lia.
Qed.

(** A ratio of two counts, the divisor positive. *)
Lemma of_nat_ratio (n m : nat) :
  (n <= m)%nat -> (1 <= m)%nat ->
  exists q : Q,
    Float.div (Float.of_nat n) (Float.of_nat m) = Float.Fin q
    /\ (0 <= q)%Q /\ (q <= 1)%Q.
Proof.
  intros Hnm Hm. unfold Float.of_nat, Float.div, Float.sign.
  assert (Hpos : (0 < inject_Z (Z.of_nat m))%Q).
  { unfold Qlt. simpl. lia. }
  assert (Hsign : (inject_Z (Z.of_nat m) ?= 0)%Q = Gt).
  { apply Qgt_alt. exact Hpos. }
  rewrite Hsign.
  exists (Qred (inject_Z (Z.of_nat n) / inject_Z (Z.of_nat m))).
  split; [reflexivity |]. rewrite !Qred_correct. split.
  - apply Qle_shift_div_l; [exact Hpos |].
    rewrite Qmult_0_l. unfold Qle. simpl. lia.
  - apply Qle_shift_div_r; [exact Hpos |].
    rewrite Qmult_1_l. unfold Qle. simpl. lia.
Qed.

(** X24. The hourly rollup accounts for every curated row once: the
    [rows] counts of the rollup rows add up to the number of curated
    rows read, every rollup row counts at least one row, and its
    [bad_rows] count is at most its [rows] count. *)
Theorem hourly_rollup_counts (dt_seconds : Q) (df : list Curated) :
  let agg :=
    List.map (hourly_row dt_seconds)
      (groupby hourly_key_compare hourly_key df) in
  sum_list (List.map HourlyEnergy.rows agg) = length df
  /\ Forall (fun r =>
               (1 <= HourlyEnergy.rows r)%nat
               /\ (HourlyEnergy.bad_rows r <= HourlyEnergy.rows r)%nat) agg.
Proof.
  intros agg. unfold agg. split.
  - rewrite List.map_map.
    rewrite <- (groupby_total hourly_key_compare hourly_key
                  hourly_key_compare_Eq df).
    f_equal. apply List.map_ext. intros [[[[run farm] turb] hour] rows].
    reflexivity.
  - destruct (groupby_groups hourly_key_compare hourly_key
                hourly_key_compare_Eq df) as (_ & Hne & _).
    apply Forall_forall. intros r Hr.
    apply list_elem_of_fmap in Hr as ([[[[run farm] turb] hour] rows] & -> & Hg).
    rewrite Forall_forall in Hne. specialize (Hne _ Hg).
    cbn [hourly_row fst snd HourlyEnergy.rows HourlyEnergy.bad_rows] in *.
    split; [destruct rows; [contradiction | simpl; lia] |].
    apply count_le_length.
Qed.

(** X25. In the farm rollup every row counts at least one curated row,
    so its two rates are numbers, never a division by zero: the
    availability and the bad-row rate are fractions between 0 and 1, and
    the [total_rows] counts add up to the number of curated rows read. *)
Theorem kpi_rates_are_fractions (dt_seconds rated_power_kw : Q)
    (rows_per_turbine_per_hour : Z) (df : list Curated) :
  let agg :=
    List.map (kpi_row dt_seconds rated_power_kw rows_per_turbine_per_hour)
      (groupby kpi_key_compare kpi_key df) in
  sum_list (List.map FarmKpi.total_rows agg) = length df
  /\ Forall (fun r =>
               (1 <= FarmKpi.total_rows r)%nat
               /\ (FarmKpi.running_rows r <= FarmKpi.total_rows r)%nat
               /\ exists a b : Q,
                    FarmKpi.availability r = Float.Fin a
                    /\ (0 <= a)%Q /\ (a <= 1)%Q
                    /\ FarmKpi.bad_row_rate r = Float.Fin b
                    /\ (0 <= b)%Q /\ (b <= 1)%Q) agg.
Proof.
  intros agg. unfold agg. split.
  - rewrite List.map_map.
    rewrite <- (groupby_total kpi_key_compare kpi_key kpi_key_compare_Eq df).
    f_equal. apply List.map_ext. intros [[[run farm] hour] rows].
    reflexivity.
  - destruct (groupby_groups kpi_key_compare kpi_key kpi_key_compare_Eq df)
      as (_ & Hne & _).
    apply Forall_forall. intros r Hr.
    apply list_elem_of_fmap in Hr as ([[[run farm] hour] rows] & -> & Hg).
    rewrite Forall_forall in Hne. specialize (Hne _ Hg).
    cbn [kpi_row fst snd FarmKpi.total_rows FarmKpi.running_rows
         FarmKpi.availability FarmKpi.bad_row_rate] in *.
    assert (Hlen : (1 <= length rows)%nat)
      by (destruct rows; [contradiction | simpl; lia]).
    split; [exact Hlen |]. split; [apply count_le_length |].
    destruct (of_nat_ratio (count is_running rows) (length rows)
                (count_le_length _ _) Hlen) as (a & Ha & Ha0 & Ha1).
    destruct (of_nat_ratio (count has_range_violation rows) (length rows)
                (count_le_length _ _) Hlen) as (b & Hb & Hb0 & Hb1).
    exists a, b. auto 10.
Qed.

(** X26. The incremental keys of the rollup rows are the incremental
    keys of the curated rows: a key is the key of a row of the hourly
    rollup (of the farm rollup) exactly when it is the key the curation
    stage gives some curated row read.  So the buckets the rollups record
    are buckets of the curated tier, and every such bucket gets a rollup
    row. *)
Theorem rollup_keys_are_curated_keys (dt_seconds rated_power_kw : Q)
    (rows_per_turbine_per_hour : Z) (df : list Curated) (k : string) :
  (k ∈ List.map HourlyEnergy.process_key
         (List.map (hourly_row dt_seconds)
            (groupby hourly_key_compare hourly_key df))
   <-> k ∈ List.map (fun r => process_key (base r)) df)
  /\ (k ∈ List.map FarmKpi.process_key
            (List.map
               (kpi_row dt_seconds rated_power_kw rows_per_turbine_per_hour)
               (groupby kpi_key_compare kpi_key df))
      <-> k ∈ List.map (fun r => process_key (base r)) df).
Proof.
  split.
  - rewrite List.map_map.
    transitivity
      (k ∈ List.map
             (fun key : string * string * string * Z =>
                key.1.1.1 ++ "|" ++ key.1.1.2 ++ "|"
                ++ Timestamp.strftime_hour key.2)
             (List.map fst (groupby hourly_key_compare hourly_key df))).
    + rewrite List.map_map.
      replace (List.map
                 (fun x => HourlyEnergy.process_key (hourly_row dt_seconds x))
                 (groupby hourly_key_compare hourly_key df))
        with (List.map
                (fun x : (string * string * string * Z) * list Curated =>
                   x.1.1.1.1 ++ "|" ++ x.1.1.1.2 ++ "|"
                   ++ Timestamp.strftime_hour x.1.2)
                (groupby hourly_key_compare hourly_key df));
        [reflexivity |].
      apply List.map_ext. intros [[[[run farm] turb] hour] rows].
      reflexivity.
    + split; intros Hk.
      * apply list_elem_of_fmap in Hk as (key & -> & Hkey).
        apply (groupby_keys hourly_key_compare hourly_key
                 hourly_key_compare_Eq) in Hkey.
        apply list_elem_of_fmap in Hkey as (r & -> & Hr).
        apply list_elem_of_fmap. exists r. split; [reflexivity | exact Hr].
      * apply list_elem_of_fmap in Hk as (r & -> & Hr).
        apply list_elem_of_fmap. exists (hourly_key r).
        split; [reflexivity |].
        apply (groupby_keys hourly_key_compare hourly_key
                 hourly_key_compare_Eq).
        apply list_elem_of_fmap. exists r. split; [reflexivity | exact Hr].
  - rewrite List.map_map.
    transitivity
      (k ∈ List.map
             (fun key : string * string * Z =>
                key.1.1 ++ "|" ++ key.1.2 ++ "|"
                ++ Timestamp.strftime_hour key.2)
             (List.map fst (groupby kpi_key_compare kpi_key df))).
    + rewrite List.map_map.
      replace (List.map
                 (fun x =>
                    FarmKpi.process_key
                      (kpi_row dt_seconds rated_power_kw
                         rows_per_turbine_per_hour x))
                 (groupby kpi_key_compare kpi_key df))
        with (List.map
                (fun x : (string * string * Z) * list Curated =>
                   x.1.1.1 ++ "|" ++ x.1.1.2 ++ "|"
                   ++ Timestamp.strftime_hour x.1.2)
                (groupby kpi_key_compare kpi_key df));
        [reflexivity |].
      apply List.map_ext. intros [[[run farm] hour] rows].
      reflexivity.
    + split; intros Hk.
      * apply list_elem_of_fmap in Hk as (key & -> & Hkey).
        apply (groupby_keys kpi_key_compare kpi_key kpi_key_compare_Eq)
          in Hkey.
        apply list_elem_of_fmap in Hkey as (r & -> & Hr).
        apply list_elem_of_fmap. exists r. split; [reflexivity | exact Hr].
      * apply list_elem_of_fmap in Hk as (r & -> & Hr).
        apply list_elem_of_fmap. exists (kpi_key r).
        split; [reflexivity |].
        apply (groupby_keys kpi_key_compare kpi_key kpi_key_compare_Eq).
        apply list_elem_of_fmap. exists r. split; [reflexivity | exact Hr].
Qed.

End RollupRows.

(** ** Running a rollup twice *)

Section RollupTwice.
Import Schema GoldJob.
Local Open Scope string_scope.

Lemma filter_all_processed {X} (pk : X -> string) (S : gset string)
    (agg : list X) :
  (forall r, r ∈ agg -> pk r ∈ S) ->
  List.filter (fun r => negb (bool_decide (pk r ∈ S))) agg = [].
Proof.
  induction agg as [| r rest IH]; intros Hall; simpl; [reflexivity |].
  rewrite bool_decide_eq_true_2 by (apply Hall; left). simpl.
  apply IH. intros r' Hr'. apply Hall. right. exact Hr'.
Qed.

(** Once the keys of the new rows are in the set, no row is new. *)
Lemma nothing_new_after_commit {X} (pk : X -> string)
    (processed : gset string) (agg : list X) :
  List.filter
    (fun r =>
       negb (bool_decide
               (pk r ∈ processed
                       ∪ list_to_set
                           (List.map pk
                              (List.filter
                                 (fun r =>
                                    negb (bool_decide (pk r ∈ processed)))
                                 agg)))))
    agg = [].
Proof.
  apply filter_all_processed. intros r Hr. apply elem_of_union.
  destruct (decide (pk r ∈ processed)) as [Hp | Hp]; [left; exact Hp |].
  right. apply elem_of_list_to_set, list_elem_of_fmap. exists r.
  split; [reflexivity |].
  apply list_elem_of_In, filter_In. split; [apply list_elem_of_In, Hr |].
  apply negb_true_iff, bool_decide_eq_false. exact Hp.
Qed.

(** X27. The hourly rollup is idempotent: after a run that returned, a
    second run over the same curated tier, whatever the store would do
    with a write, requests none, returns the rollup location and leaves
    the world as it is.  The rollup records the key of every row it
    aggregates, so nothing is new the second time. *)
Theorem run_hourly_energy_idempotent (self : GoldJob.t) (dt_seconds : Q)
    (o o' : Store.outcome HourlyEnergy.t) (w w1 : world) (path : string) :
  run_hourly_energy self dt_seconds o w = (Ok path, w1) ->
  run_hourly_energy self dt_seconds o' w1
  = (Ok (gold_path self ++ "/hourly_energy"), w1).
Proof.
  unfold run_hourly_energy at 1.
  destruct (silver w) as [sds |] eqn:Hs; [| discriminate].
  destruct (Nat.eqb (length (Store.read sds)) 0) eqn:Hlen.
  { intros E. injection E as _ <-. unfold run_hourly_energy.
    cbn [silver with_gold_hourly_energy]. rewrite Hs, Hlen. reflexivity. }
  cbn [state with_gold_hourly_energy].
  set (agg := List.map (hourly_row dt_seconds) _).
  set (processed := StateStore.load_set (state_name self) (state w)).
  destruct (Nat.eqb (length (List.filter _ agg)) 0) eqn:Hnew.
  { intros E. injection E as _ <-. unfold run_hourly_energy.
    cbn [silver state with_gold_hourly_energy]. rewrite Hs, Hlen.
    fold agg processed. rewrite Hnew. reflexivity. }
  destruct o as [| left_behind]; cbn [Store.write_to_dataset];
    [| discriminate].
  intros E. injection E as _ <-. unfold run_hourly_energy.
  cbn [silver state commit with_gold_hourly_energy]. rewrite Hs, Hlen.
  fold agg. rewrite load_save_set. fold processed.
  rewrite nothing_new_after_commit. reflexivity.
Qed.

(** X28. The farm rollup is idempotent in the same way: after a run that
    returned, a second run with the same time step over the same curated
    tier requests no write and leaves the world as it is. *)
Theorem run_farm_kpis_idempotent (self : GoldJob.t)
    (dt_seconds rated_power_kw : Q)
    (o o' : Store.outcome FarmKpi.t) (w w1 : world) (path : string) :
  run_farm_kpis self dt_seconds rated_power_kw o w = (Ok path, w1) ->
  run_farm_kpis self dt_seconds rated_power_kw o' w1
  = (Ok (gold_path self ++ "/farm_kpis"), w1).
Proof.
  unfold run_farm_kpis at 1.
  destruct (silver w) as [sds |] eqn:Hs; [| discriminate].
  destruct (Nat.eqb (length (Store.read sds)) 0) eqn:Hlen.
  { intros E. injection E as _ <-. unfold run_farm_kpis.
    cbn [silver with_gold_farm_kpis]. rewrite Hs, Hlen. reflexivity. }
  destruct (Qeq_bool dt_seconds 0) eqn:Hdt; [discriminate |].
  destruct (Z.eqb (int_of_Q (3600 / dt_seconds)) 0) eqn:Hrows;
    [discriminate |].
  cbn [state with_gold_farm_kpis].
  set (agg := List.map (kpi_row dt_seconds rated_power_kw _) _).
  set (processed :=
         StateStore.load_set "gold_farm_kpis_processed_hours" (state w)).
  destruct (Nat.eqb (length (List.filter _ agg)) 0) eqn:Hnew.
  { intros E. injection E as _ <-. unfold run_farm_kpis.
    cbn [silver state with_gold_farm_kpis]. rewrite Hs, Hlen, Hdt, Hrows.
    fold agg processed. rewrite Hnew. reflexivity. }
  destruct o as [| left_behind]; cbn [Store.write_to_dataset];
    [| discriminate].
  intros E. injection E as _ <-. unfold run_farm_kpis.
  cbn [silver state commit with_gold_farm_kpis].
  rewrite Hs, Hlen, Hdt, Hrows.
  fold agg. rewrite load_save_set. fold processed.
  rewrite nothing_new_after_commit. reflexivity.
Qed.

End RollupTwice.

Lemma run_hourly_energy_idempotent_witness :
  let w :=
    pipeline default_jobs
      [ Ingest "ab12" Store.Completes example_frame;
        Curate Store.Completes ] empty_world in
  let w1 :=
    (GoldJob.run_hourly_energy GoldJob.default 60 Store.Completes w).2 in
  GoldJob.run_hourly_energy GoldJob.default 60 Store.Completes w
  = (Ok "data_lake/gold/hourly_energy"%string, w1)
  /\ GoldJob.run_hourly_energy GoldJob.default 60 (Store.Raises []) w1
     = (Ok "data_lake/gold/hourly_energy"%string, w1).
Proof.
  intros w w1.
  assert (Hrun : GoldJob.run_hourly_energy GoldJob.default 60
                   Store.Completes w
                 = (Ok "data_lake/gold/hourly_energy"%string, w1))
    by (vm_compute; reflexivity).
  split; [exact Hrun |].
  exact (run_hourly_energy_idempotent GoldJob.default 60 Store.Completes
           (Store.Raises []) w w1 _ Hrun).
Defined.

Lemma run_farm_kpis_idempotent_witness :
  let w :=
    pipeline default_jobs
      [ Ingest "ab12" Store.Completes example_frame;
        Curate Store.Completes ] empty_world in
  let w1 :=
    (GoldJob.run_farm_kpis GoldJob.default 60 2000 Store.Completes w).2 in
  GoldJob.run_farm_kpis GoldJob.default 60 2000 Store.Completes w
  = (Ok "data_lake/gold/farm_kpis"%string, w1)
  /\ GoldJob.run_farm_kpis GoldJob.default 60 2000 (Store.Raises []) w1
     = (Ok "data_lake/gold/farm_kpis"%string, w1).
Proof.
  intros w w1.
  assert (Hrun : GoldJob.run_farm_kpis GoldJob.default 60 2000
                   Store.Completes w
                 = (Ok "data_lake/gold/farm_kpis"%string, w1))
    by (vm_compute; reflexivity).
  split; [exact Hrun |].
  exact (run_farm_kpis_idempotent GoldJob.default 60 2000 Store.Completes
           (Store.Raises []) w w1 _ Hrun).
Defined.

Lemma silver_run_idempotent_within_runs_witness :
  let w :=
    pipeline default_jobs
      [ Ingest "a1" Store.Completes (frame_of_run "SIM-A") ] empty_world in
  let w1 := (SilverJob.run SilverJob.default Store.Completes w).2 in
  SilverJob.run SilverJob.default Store.Completes w
  = (Ok "data_lake/silver"%string, w1)
  /\ SilverJob.run SilverJob.default (Store.Raises []) w1
     = (Ok "data_lake/silver"%string, w1).
Proof.
  intros w w1.
  assert (Hrun : SilverJob.run SilverJob.default Store.Completes w
                 = (Ok "data_lake/silver"%string, w1))
    by (vm_compute; reflexivity).
  assert (Hruns : forall ds a b,
             bronze w = Some ds ->
             a ∈ Store.read ds -> b ∈ Store.read ds ->
             SilverJob.key a = SilverJob.key b ->
             Schema.sim_run_id a = Schema.sim_run_id b).
  { intros ds a b Hb. vm_compute in Hb. injection Hb as <-.
    intros Ha Hb' _. cbn in Ha, Hb'.
    apply list_elem_of_singleton in Ha, Hb'. subst a b. reflexivity. }
  split; [exact Hrun |].
  exact (silver_run_idempotent_within_runs SilverJob.default w w1 _
           (Store.Raises []) Hruns Hrun).
Defined.

(** ** The order of the rollup rows *)

Section GroupOrder.
Import Schema GoldJob.

Lemma ordering_lex {K} (c1 c2 : K -> K -> comparison) :
  ordering c1 -> ordering c2 ->
  ordering (fun a b => lex (c1 a b) (c2 a b)).
Proof.
  intros (R1 & A1 & T1 & E1) (R2 & A2 & T2 & E2).
  split; [| split; [| split]].
  - intros a. rewrite R1. apply R2.
  - intros a b. rewrite (A1 a b), (A2 a b).
    destruct (c1 b a), (c2 b a); reflexivity.
  - intros a b c Hab Hbc.
    destruct (c1 a b) eqn:Hab1; simpl in Hab; try discriminate.
    + rewrite <- (E1 a b c Hab1).
      destruct (c1 b c) eqn:Hbc1; simpl in Hbc; try discriminate;
        simpl; [| reflexivity].
      eapply T2; eassumption.
    + destruct (c1 b c) eqn:Hbc1; simpl in Hbc; try discriminate.
      * assert (Hcb : c1 c b = Eq) by (rewrite A1, Hbc1; reflexivity).
        pose proof (E1 c b a Hcb) as Hflip.
        rewrite (A1 a c), <- Hflip, <- (A1 a b), Hab1. reflexivity.
      * rewrite (T1 a b c Hab1 Hbc1). reflexivity.
  - intros a b c Hab.
    destruct (c1 a b) eqn:Hab1; simpl in Hab; try discriminate.
    rewrite (E1 a b c Hab1), (E2 a b c Hab). reflexivity.
Qed.

Lemma ordering_string {K} (f : K -> string) :
  ordering (fun a b => String.compare (f a) (f b)).
Proof.
  split; [| split; [| split]].
  - intros a. apply string_compare_refl.
  - intros a b. apply String.compare_antisym.
  - intros a b c. apply string_compare_trans.
  - intros a b c Hab. apply String.compare_eq_iff in Hab. rewrite Hab.
    reflexivity.
Qed.

Lemma ordering_Z {K} (f : K -> Z) :
  ordering (fun a b => Z.compare (f a) (f b)).
Proof.
  split; [| split; [| split]].
  - intros a. apply Z.compare_refl.
  - intros a b. apply Z.compare_antisym.
  - intros a b c Hab Hbc. cbv beta in *.
    rewrite Z.compare_lt_iff in *. lia.
  - intros a b c Hab. apply Z.compare_eq in Hab. rewrite Hab. reflexivity.
Qed.

Lemma hourly_key_compare_ordering : ordering hourly_key_compare.
Proof.
  unfold hourly_key_compare.
  apply (ordering_lex (fun a b => String.compare a.1.1.1 b.1.1.1));
    [apply (ordering_string (fun a => a.1.1.1)) |].
  apply (ordering_lex (fun a b => String.compare a.1.1.2 b.1.1.2));
    [apply (ordering_string (fun a => a.1.1.2)) |].
  apply (ordering_lex (fun a b => String.compare a.1.2 b.1.2));
    [apply (ordering_string (fun a => a.1.2)) |].
  apply (ordering_Z (fun a => a.2)).
Qed.

Lemma kpi_key_compare_ordering : ordering kpi_key_compare.
Proof.
  unfold kpi_key_compare.
  apply (ordering_lex (fun a b => String.compare a.1.1 b.1.1));
    [apply (ordering_string (fun a => a.1.1)) |].
  apply (ordering_lex (fun a b => String.compare a.1.2 b.1.2));
    [apply (ordering_string (fun a => a.1.2)) |].
  apply (ordering_Z (fun a => a.2)).
Qed.

(** *** Groups in ascending order *)

Context {K A : Type}.
Variable cmp : K -> K -> comparison.
Variable key : A -> K.
Hypothesis cmp_ordering : ordering cmp.

Lemma group_insert_above (x k : K) (a : A) (gs : list (K * list A)) :
  cmp x k = Lt ->
  Forall (fun g => cmp x g.1 = Lt) gs ->
  Forall (fun g => cmp x g.1 = Lt) (group_insert cmp k a gs).
Proof.
  intros Hx. induction 1 as [| [k' l] rest Hg Hrest IH]; simpl.
  - repeat constructor. exact Hx.
  - destruct (cmp k k'); repeat constructor; assumption.
Qed.

Lemma group_insert_sorted (k : K) (a : A) (gs : list (K * list A)) :
  StronglySorted (fun g h => cmp g.1 h.1 = Lt) gs ->
  StronglySorted (fun g h => cmp g.1 h.1 = Lt) (group_insert cmp k a gs).
Proof.
  destruct cmp_ordering as (Hrefl & Hanti & Htrans & Heq).
  induction 1 as [| [k' l] rest Hsorted IH Hall]; simpl.
  - repeat constructor.
  - destruct (cmp k k') eqn:Hc.
    + constructor; assumption.
    + constructor; [constructor; assumption |].
      constructor; [exact Hc |].
      eapply Forall_impl; [exact Hall |].
      intros g Hg. simpl in *. eapply Htrans; eassumption.
    + constructor; [exact IH |].
      apply group_insert_above; [| exact Hall].
      simpl. rewrite Hanti, Hc. reflexivity.
Qed.

Lemma groupby_sorted (df : list A) :
  StronglySorted (fun g h => cmp g.1 h.1 = Lt) (groupby cmp key df).
Proof.
  unfold groupby.
  assert (Hfrom : forall gs,
             StronglySorted (fun g h => cmp g.1 h.1 = Lt) gs ->
             StronglySorted (fun g h => cmp g.1 h.1 = Lt)
               (fold_left (fun gs a => group_insert cmp (key a) a gs) df gs)).
  { induction df as [| a rest IH]; intros gs Hgs; simpl; [exact Hgs |].
    apply IH. apply group_insert_sorted. exact Hgs. }
  apply Hfrom. constructor.
Qed.

Lemma sorted_keys_NoDup (gs : list (K * list A)) :
  StronglySorted (fun g h => cmp g.1 h.1 = Lt) gs ->
  NoDup (List.map fst gs).
Proof.
  destruct cmp_ordering as (Hrefl & _).
  induction 1 as [| g rest _ IH Hall]; simpl; constructor; [| exact IH].
  intros Hin. apply list_elem_of_fmap in Hin as (h & E & Hh).
  rewrite Forall_forall in Hall. specialize (Hall h Hh).
  rewrite E, Hrefl in Hall. discriminate.
Qed.

End GroupOrder.

Section RollupOrder.
Import Schema GoldJob.

(** X29. The rollups hold one row per group key, in ascending key order:
    the rows of the hourly rollup are strictly ascending in (run, farm,
    turbine, hour), those of the farm rollup in (run, farm, hour), under
    the lexicographic comparison of the columns; so no key has two
    rows. *)
Theorem rollup_rows_ascending (dt_seconds rated_power_kw : Q)
    (rows_per_turbine_per_hour : Z) (df : list Curated) :
  let hourly :=
    List.map (hourly_row dt_seconds)
      (groupby hourly_key_compare hourly_key df) in
  let kpis :=
    List.map (kpi_row dt_seconds rated_power_kw rows_per_turbine_per_hour)
      (groupby kpi_key_compare kpi_key df) in
  let hourly_id (r : HourlyEnergy.t) :=
    (HourlyEnergy.sim_run_id r, HourlyEnergy.farm_id r,
     HourlyEnergy.turbine_id r, HourlyEnergy.hour r) in
  let kpi_id (r : FarmKpi.t) :=
    (FarmKpi.sim_run_id r, FarmKpi.farm_id r, FarmKpi.hour r) in
  StronglySorted
    (fun r s => hourly_key_compare (hourly_id r) (hourly_id s) = Lt) hourly
  /\ NoDup (List.map hourly_id hourly)
  /\ StronglySorted
       (fun r s => kpi_key_compare (kpi_id r) (kpi_id s) = Lt) kpis
  /\ NoDup (List.map kpi_id kpis).
Proof.
  intros hourly kpis hourly_id kpi_id.
  pose proof (groupby_sorted hourly_key_compare hourly_key
                hourly_key_compare_ordering df) as Hh.
  pose proof (groupby_sorted kpi_key_compare kpi_key
                kpi_key_compare_ordering df) as Hk.
  assert (Eh : forall g, hourly_id (hourly_row dt_seconds g) = g.1).
  { intros [[[[run farm] turb] hour] rows]. reflexivity. }
  assert (Ek : forall g,
             kpi_id (kpi_row dt_seconds rated_power_kw
                       rows_per_turbine_per_hour g) = g.1).
  { intros [[[run farm] hour] rows]. reflexivity. }
  split; [| split; [| split]].
  - unfold hourly. clear Hk.
    induction Hh as [| g rest _ IH Hall]; simpl; constructor; [exact IH |].
    apply Forall_forall. intros s Hs.
    apply list_elem_of_fmap in Hs as (h & -> & Hin).
    rewrite !Eh. rewrite Forall_forall in Hall. apply Hall. exact Hin.
  - unfold hourly. rewrite List.map_map.
    rewrite (List.map_ext _ fst Eh).
    apply (sorted_keys_NoDup hourly_key_compare
             hourly_key_compare_ordering). exact Hh.
  - unfold kpis. clear Hh.
    induction Hk as [| g rest _ IH Hall]; simpl; constructor; [exact IH |].
    apply Forall_forall. intros s Hs.
    apply list_elem_of_fmap in Hs as (h & -> & Hin).
    rewrite !Ek. rewrite Forall_forall in Hall. apply Hall. exact Hin.
  - unfold kpis. rewrite List.map_map.
    rewrite (List.map_ext _ fst Ek).
    apply (sorted_keys_NoDup kpi_key_compare kpi_key_compare_ordering).
    exact Hk.
Qed.

End RollupOrder.
